(** * Openship order routing: a shallow embedding of the Keystone engine

    The definitions below follow [src/.keystone/config.js]: the purchase
    placement pipeline ([placeMultipleOrders]), the match resolver
    ([getMatches], [matchOrder], the [Match] hooks), the link resolver
    (the [Order] hook), the lifecycle hooks of [TrackingDetail] and
    [Link], the mutations [cancelOrder], [cancelPurchase], [addToCart],
    [findShopItems] and [upsertMatch], and the permissions of API-key
    scopes.  The store of PKCE verifiers and the escaping of SOQL search
    terms follow [src/unnamed/part_000].

    Entity tables are lists of rows in store order.  Asynchronous code is
    sequentialised in program order.  Every function runs in a monad that
    threads the persisted world and may throw; writes made before a throw
    stay in the world, since the entity store offers no transaction.
    External platforms are reached only through the [Adapters] record.

    The entity store is modelled as the hooks and mutations meet it.  A
    create stores the row under the next id.  A read, connect, update or
    delete made through a caller's context passes the operation and
    filter access of its list: a row of another user is seen or changed
    only with the permission the list asks for, and a [connect] of a row
    the caller cannot read is an error.  Values that do not fit their
    GraphQL input type are refused: an [Int] beyond 32 bits, a number
    where a [String] is asked, a [where] that is no unique input, an
    empty required text.  The User table is not modelled: a user id is
    taken to name a stored user.  The placement pipeline and
    [cancelOrder] are given a handle that sees every row, as the Order
    hook gives it. *)

From Stdlib Require Import PrimFloat.
From Stdlib Require Import List String ZArith Bool Arith Lia Permutation.
From Stdlib Require Import DecimalString Ascii.
Import ListNotations.
Local Open Scope string_scope.
Local Open Scope list_scope.

Set Implicit Arguments.

(** ** Entities *)

Definition Id := nat.

Record Order := mkOrder {
  o_id : Id;
  o_user : option Id;
  o_shop : option Id;
  o_orderId : string;
  o_status : string;
  o_error : string;
  o_linkOrder : bool;
  o_matchOrder : bool;
  o_processOrder : bool
}.

(** [li_price] is a number (the field is a float), absent when the row
    has none. *)
Record LineItem := mkLineItem {
  li_id : Id;
  li_order : option Id;
  li_user : option Id;
  li_name : string;
  li_image : string;
  li_price : option float;
  li_quantity : Z;
  li_productId : string;
  li_variantId : string;
  li_sku : string;
  li_lineItemId : string
}.

Record CartItem := mkCartItem {
  ci_id : Id;
  ci_order : option Id;
  ci_channel : option Id;
  ci_user : option Id;
  ci_name : string;
  ci_image : string;
  ci_price : string;
  ci_quantity : Z;
  ci_productId : string;
  ci_variantId : string;
  ci_sku : string;
  ci_lineItemId : string;
  ci_url : string;
  ci_error : string;
  ci_purchaseId : string;
  ci_status : string
}.

Record ShopItem := mkShopItem {
  si_id : Id;
  si_productId : string;
  si_variantId : string;
  si_quantity : Z;
  si_shop : option Id;
  si_user : option Id
}.

Record ChannelItem := mkChannelItem {
  chi_id : Id;
  chi_productId : string;
  chi_variantId : string;
  chi_quantity : Z;
  chi_price : string;
  chi_channel : option Id;
  chi_user : option Id
}.

(** [m_input] and [m_output] hold the ids of the related ShopItems and
    ChannelItems (the rows of the two many-to-many relations). *)
Record Match := mkMatch {
  m_id : Id;
  m_user : option Id;
  m_input : list Id;
  m_output : list Id
}.

(** The stored fields of a Link that the engine reads;
    [dynamicWhereClause] is a virtual field and has no column. *)
Record Link := mkLink {
  l_id : Id;
  l_shop : option Id;
  l_channel : option Id;
  l_user : option Id;
  l_rank : Z
}.

Record TrackingDetail := mkTrackingDetail {
  td_id : Id;
  td_trackingCompany : string;
  td_trackingNumber : string;
  td_purchaseId : string;
  td_cartItems : list Id
}.

Record ShopPlatform := mkShopPlatform {
  sp_addCartToPlatformOrderFunction : string;
  sp_addTrackingFunction : string
}.

Record Shop := mkShop {
  sh_id : Id;
  sh_linkMode : string;
  sh_platform : option ShopPlatform
}.

Record ChannelPlatform := mkChannelPlatform {
  cp_createPurchaseFunction : string;
  cp_getProductFunction : string
}.

Record Channel := mkChannel {
  ch_id : Id;
  ch_domain : string;
  ch_platform : option ChannelPlatform
}.

(** ** Calls that leave the engine, and what they answer *)

Inductive Event :=
| CreatePurchaseCall (channel : Id) (items : list CartItem)
| AddCartToPlatformOrderCall (order : Id)
| GetProductCall (channel : Id) (productId variantId : string)
| AddTrackingCall (order : Id) (trackingNumber : string)
| LinkEvaluated (link : Id)
| ConsoleLog (msg : string).

Inductive Outcome (A : Type) :=
| Returned (a : A)
| Threw (msg : string).
Arguments Returned {A} a.
Arguments Threw {A} msg.

(** The JSON answer of a create-purchase adapter; an absent or empty field
    is the empty string. *)
Record PurchaseResult := mkPurchaseResult {
  pr_error : string;
  pr_purchaseId : string;
  pr_url : string
}.

Record Product := mkProduct {
  p_price : string;
  p_image : string;
  p_title : string
}.

(** The external collaborators.  Each answer may depend on every call made
    so far. *)
Record Adapters := mkAdapters {
  createPurchaseFunction :
    list Event -> Channel -> list CartItem -> Order -> Outcome PurchaseResult;
  addCartToPlatformOrderFunction :
    list Event -> ShopPlatform -> Order -> list CartItem -> Outcome unit;
  getProductFunction :
    list Event -> Channel -> string -> string -> Outcome (option Product);
  addTrackingFunction :
    list Event -> ShopPlatform -> Order -> string -> string -> Outcome unit
}.

(** ** The persisted world *)

Record World := mkWorld {
  orders : list Order;
  lineItems : list LineItem;
  cartItems : list CartItem;
  shopItems : list ShopItem;
  channelItems : list ChannelItem;
  matches : list Match;
  links : list Link;
  trackingDetails : list TrackingDetail;
  shops : list Shop;
  channels : list Channel;
  nextId : Id;
  trace : list Event
}.

Definition set_orders (w : World) (x : list Order) : World :=
  mkWorld x (lineItems w) (cartItems w) (shopItems w) (channelItems w)
    (matches w) (links w) (trackingDetails w) (shops w) (channels w)
    (nextId w) (trace w).

Definition set_cartItems (w : World) (x : list CartItem) : World :=
  mkWorld (orders w) (lineItems w) x (shopItems w) (channelItems w)
    (matches w) (links w) (trackingDetails w) (shops w) (channels w)
    (nextId w) (trace w).

Definition set_shopItems (w : World) (x : list ShopItem) : World :=
  mkWorld (orders w) (lineItems w) (cartItems w) x (channelItems w)
    (matches w) (links w) (trackingDetails w) (shops w) (channels w)
    (nextId w) (trace w).

Definition set_channelItems (w : World) (x : list ChannelItem) : World :=
  mkWorld (orders w) (lineItems w) (cartItems w) (shopItems w) x
    (matches w) (links w) (trackingDetails w) (shops w) (channels w)
    (nextId w) (trace w).

Definition set_matches (w : World) (x : list Match) : World :=
  mkWorld (orders w) (lineItems w) (cartItems w) (shopItems w)
    (channelItems w) x (links w) (trackingDetails w) (shops w) (channels w)
    (nextId w) (trace w).

Definition set_links (w : World) (x : list Link) : World :=
  mkWorld (orders w) (lineItems w) (cartItems w) (shopItems w)
    (channelItems w) (matches w) x (trackingDetails w) (shops w) (channels w)
    (nextId w) (trace w).


Definition set_nextId (w : World) (x : Id) : World :=
  mkWorld (orders w) (lineItems w) (cartItems w) (shopItems w)
    (channelItems w) (matches w) (links w) (trackingDetails w) (shops w)
    (channels w) x (trace w).

Definition set_trace (w : World) (x : list Event) : World :=
  mkWorld (orders w) (lineItems w) (cartItems w) (shopItems w)
    (channelItems w) (matches w) (links w) (trackingDetails w) (shops w)
    (channels w) (nextId w) x.

(** ** The monad: world passing with exceptions *)

Inductive Exn :=
| TypeError (msg : string)
| Error (msg : string).

Definition message (e : Exn) : string :=
  match e with TypeError m => m | Error m => m end.

Inductive Result (A : Type) :=
| Ok (a : A)
| Throw (e : Exn).
Arguments Ok {A} a.
Arguments Throw {A} e.

Definition M (A : Type) : Type := World -> World * Result A.

Definition ret {A} (a : A) : M A := fun w => (w, Ok a).

Definition throw {A} (e : Exn) : M A := fun w => (w, Throw e).

Definition bind {A B} (c : M A) (k : A -> M B) : M B :=
  fun w =>
    match c w with
    | (w1, Ok a) => k a w1
    | (w1, Throw e) => (w1, Throw e)
    end.

Definition try_catch {A} (c : M A) (handler : Exn -> M A) : M A :=
  fun w =>
    match c w with
    | (w1, Ok a) => (w1, Ok a)
    | (w1, Throw e) => handler e w1
    end.

Declare Scope engine_scope.
Delimit Scope engine_scope with engine.
Notation "x <- c ;; k" := (bind c (fun x => k))
  (at level 61, c at next level, right associativity) : engine_scope.
Notation "c ;; k" := (bind c (fun _ => k))
  (at level 61, right associativity) : engine_scope.
Local Open Scope engine_scope.

Definition get_world : M World := fun w => (w, Ok w).

Definition modify (f : World -> World) : M unit := fun w => (f w, Ok tt).

Definition emit (e : Event) : M unit :=
  modify (fun w => set_trace w (trace w ++ [e])).

(** [for (const x of l) body], with the loop-carried value [acc]. *)
Fixpoint for_of {A S} (l : list A) (acc : S) (body : S -> A -> M S) : M S :=
  match l with
  | [] => ret acc
  | x :: l' => acc' <- body acc x ;; for_of l' acc' body
  end.

(** JavaScript truthiness of a string, and [a || b] on strings. *)
Definition truthy (s : string) : bool := negb (String.eqb s "").

Definition or_else (a b : string) : string := if truthy a then a else b.

Definition opt_eqb (a : option Id) (b : Id) : bool :=
  match a with Some x => Nat.eqb x b | None => false end.

(** What an adapter answered becomes a value or an exception. *)
Definition outcome {A} (o : Outcome A) : M A :=
  match o with
  | Returned a => ret a
  | Threw msg => throw (Error msg)
  end.

(** ** Entity store operations used by the engine *)

Definition Order_findOne (id : Id) : M (option Order) :=
  fun w => (w, Ok (find (fun o => Nat.eqb (o_id o) id) (orders w))).

Definition accessDenied (what : string) : Exn :=
  Error ("Access denied: You cannot update that " ++ what ++
         " - it may not exist").

(** [updateOne] rewrites the row with the given id and returns it; an
    unknown id is an error of the store. *)
Definition Order_updateOne (id : Id) (f : Order -> Order) : M Order :=
  fun w =>
    match find (fun o => Nat.eqb (o_id o) id) (orders w) with
    | Some o =>
        (set_orders w
           (map (fun o' => if Nat.eqb (o_id o') id then f o' else o')
                (orders w)),
         Ok (f o))
    | None => (w, Throw (accessDenied "Order"))
    end.

Definition CartItem_updateOne (id : Id) (f : CartItem -> CartItem)
  : M CartItem :=
  fun w =>
    match find (fun c => Nat.eqb (ci_id c) id) (cartItems w) with
    | Some c =>
        (set_cartItems w
           (map (fun c' => if Nat.eqb (ci_id c') id then f c' else c')
                (cartItems w)),
         Ok (f c))
    | None => (w, Throw (accessDenied "CartItem"))
    end.

Definition set_status (s : string) (o : Order) : Order :=
  mkOrder (o_id o) (o_user o) (o_shop o) (o_orderId o) s (o_error o)
    (o_linkOrder o) (o_matchOrder o) (o_processOrder o).

Definition set_error (e : string) (o : Order) : Order :=
  mkOrder (o_id o) (o_user o) (o_shop o) (o_orderId o) (o_status o) e
    (o_linkOrder o) (o_matchOrder o) (o_processOrder o).

Definition set_outcome (url error purchaseId : string) (c : CartItem)
  : CartItem :=
  mkCartItem (ci_id c) (ci_order c) (ci_channel c) (ci_user c) (ci_name c)
    (ci_image c) (ci_price c) (ci_quantity c) (ci_productId c)
    (ci_variantId c) (ci_sku c) (ci_lineItemId c) url error purchaseId
    (ci_status c).

Definition set_ci_user (u : option Id) (c : CartItem) : CartItem :=
  mkCartItem (ci_id c) (ci_order c) (ci_channel c) u (ci_name c)
    (ci_image c) (ci_price c) (ci_quantity c) (ci_productId c)
    (ci_variantId c) (ci_sku c) (ci_lineItemId c) (ci_url c) (ci_error c)
    (ci_purchaseId c) (ci_status c).

Definition set_ci_status (s : string) (c : CartItem) : CartItem :=
  mkCartItem (ci_id c) (ci_order c) (ci_channel c) (ci_user c) (ci_name c)
    (ci_image c) (ci_price c) (ci_quantity c) (ci_productId c)
    (ci_variantId c) (ci_sku c) (ci_lineItemId c) (ci_url c) (ci_error c)
    (ci_purchaseId c) s.

(** ** features/keystone/lib/placeMultipleOrders.ts *)

Definition updateCartItems (items : list CartItem)
    (url error purchaseId : string) : M (list CartItem) :=
  for_of items []
    (fun update c =>
       res <- CartItem_updateOne (ci_id c) (set_outcome url error purchaseId) ;;
       ret (update ++ [res])).

(** The filter [order = orderId, purchaseId = "", url = ""] shared by the
    selection of cart items and by the recount. *)
Definition unplaced (orderId : Id) (c : CartItem) : bool :=
  opt_eqb (ci_order c) orderId
  && String.eqb (ci_purchaseId c) ""
  && String.eqb (ci_url c) "".

(** [query.Channel.findMany] with the nested, filtered [cartItems]. *)
Definition cartChannels (orderId : Id) (w : World)
  : list (Channel * list CartItem) :=
  map (fun ch =>
         (ch, filter (fun c => opt_eqb (ci_channel c) (ch_id ch)
                               && unplaced orderId c) (cartItems w)))
      (channels w).

Definition CartItem_count (orderId : Id) : M nat :=
  fun w => (w, Ok (List.length (filter (unplaced orderId) (cartItems w)))).

Definition cartItemsOf (orderId : Id) (w : World) : list CartItem :=
  filter (fun c => opt_eqb (ci_order c) orderId) (cartItems w).

Definition createChannelPurchase (A : Adapters) (ch : Channel)
    (items : list CartItem) (o : Order) : M PurchaseResult :=
  w <- get_world ;;
  emit (CreatePurchaseCall (ch_id ch) items) ;;
  outcome (createPurchaseFunction A (trace w) ch items o).

Definition addCartToPlatformOrder (A : Adapters) (updatedOrder : Order)
  : M unit :=
  w <- get_world ;;
  match o_shop updatedOrder with
  | None => throw (TypeError "Cannot read properties of null (reading 'platform')")
  | Some sid =>
      match find (fun s => Nat.eqb (sh_id s) sid) (shops w) with
      | None => throw (TypeError "Cannot read properties of null (reading 'platform')")
      | Some shop =>
          match sh_platform shop with
          | None =>
              throw (TypeError "Cannot read properties of null (reading 'addCartToPlatformOrderFunction')")
          | Some platform =>
              emit (AddCartToPlatformOrderCall (o_id updatedOrder)) ;;
              outcome (addCartToPlatformOrderFunction A (trace w) platform
                         updatedOrder (cartItemsOf (o_id updatedOrder) w))
          end
      end
  end.

Definition placementErrorDefault : string :=
  "Error on order placement. Order may have been placed.".

(** The two [if]s that follow a returned answer. *)
Definition recordOutcome (items : list CartItem)
    (orderPlacementRes : PurchaseResult) : M unit :=
  (if truthy (pr_error orderPlacementRes)
   then updateCartItems items ""
          ("ORDER_PLACEMENT_ERROR: " ++ pr_error orderPlacementRes) "" ;;
        ret tt
   else ret tt) ;;
  (if truthy (pr_purchaseId orderPlacementRes)
   then updateCartItems items (pr_url orderPlacementRes) ""
          (pr_purchaseId orderPlacementRes) ;;
        ret tt
   else ret tt).

(** The [try { ... } catch (error) { ... }] around the adapter call. *)
Definition attemptPurchase (A : Adapters) (ch : Channel)
    (items : list CartItem) (order : Order) : M unit :=
  try_catch
    (orderPlacementRes <- createChannelPurchase A ch items order ;;
     recordOutcome items orderPlacementRes)
    (fun error =>
       updateCartItems items ""
         ("ORDER_PLACEMENT_ERROR: " ++
          or_else (message error) placementErrorDefault) "" ;;
       ret tt).

(** The recount of the order's unplaced cart items and the status update
    that follows it. *)
Definition recountAndAdvance (A : Adapters) (orderId : Id)
    (processed : list Order) : M (list Order) :=
  cartCount <- CartItem_count orderId ;;
  if Nat.eqb cartCount 0
  then
    updatedOrder <- Order_updateOne orderId (set_status "AWAITING") ;;
    try_catch
      (addCartToPlatformOrder A updatedOrder)
      (fun error =>
         emit (ConsoleLog
                 ("Warning: Add cart to platform order function failed: "
                  ++ message error))) ;;
    ret (processed ++ [updatedOrder])
  else
    updatedOrder <- Order_updateOne orderId (set_status "PENDING") ;;
    ret (processed ++ [updatedOrder]).

(** One iteration of the loop over the channels that still hold unplaced
    cart items of the order. *)
Definition placeOnChannel (A : Adapters) (order : Order) (orderId : Id)
    (processed : list Order) (target : Channel * list CartItem)
  : M (list Order) :=
  let (ch, items) := target in
  match o_user order with
  | None => throw (TypeError "Cannot read properties of null (reading 'email')")
  | Some _ =>
  match ch_platform ch with
  | None =>
      throw (TypeError "Cannot read properties of null (reading 'createPurchaseFunction')")
  | Some _ =>
      attemptPurchase A ch items order ;;
      recountAndAdvance A orderId processed
  end
  end.

Definition targets (orderId : Id) (w : World)
  : list (Channel * list CartItem) :=
  filter (fun t => Nat.ltb 0 (List.length (snd t))) (cartChannels orderId w).

Definition placeOneOrder (A : Adapters) (processed : list Order)
    (orderId : Id) : M (list Order) :=
  found <- Order_findOne orderId ;;
  match found with
  | None =>
      throw (TypeError "Cannot destructure property 'firstName' of null")
  | Some order =>
      w <- get_world ;;
      for_of (targets orderId w) processed (placeOnChannel A order orderId)
  end.

Definition placeMultipleOrders (A : Adapters) (ids : list Id)
  : M (list Order) :=
  for_of ids [] (placeOneOrder A).

(** ** features/keystone/extendGraphqlSchema/mutations/cancelOrder.ts *)

Definition cancelOrder (orderId : Id) : M string :=
  try_catch
    (Order_updateOne orderId (set_status "CANCELLED") ;;
     w <- get_world ;;
     for_of (cartItemsOf orderId w) tt
       (fun _ cartItem =>
          CartItem_updateOne (ci_id cartItem) (set_ci_status "CANCELLED") ;;
          ret tt) ;;
     ret "Order cancelled successfully")
    (fun error => throw (Error ("Failed to cancel order: " ++ message error))).

(** ** Request context and access filters

    [context.sudo()] sees every row.  A session sees its own rows, and all
    rows of a list when its role carries the matching permission
    ([rules.canReadMatches], [rules.canReadOrders], [rules.canReadLinks]);
    without a session nothing is visible.  A session is that of a signed
    in user with a role; the fields after [itemId] are the permissions of
    the role. *)

Record Session := mkSession {
  itemId : Id;
  canSeeOtherMatches : bool;
  canSeeOtherOrders : bool;
  canSeeOtherLinks : bool;
  canManageMatches : bool;
  canCreateMatches : bool;
  canSeeOtherUsers : bool;
  canSeeOtherShops : bool;
  canSeeOtherChannels : bool;
  canManageOrders : bool;
  canManageLinks : bool;
  canCreateLinks : bool
}.

Record Context := mkContext {
  ctx_sudo : bool;
  ctx_session : option Session
}.

Definition sudo : Context := mkContext true None.

Definition visible (ctx : Context) (seeOther : Session -> bool)
    (owner : option Id) : bool :=
  if ctx_sudo ctx then true
  else match ctx_session ctx with
       | None => false
       | Some s => seeOther s || opt_eqb owner (itemId s)
       end.

Definition canReadMatches (ctx : Context) (owner : option Id) : bool :=
  visible ctx canSeeOtherMatches owner.

Definition canReadOrders (ctx : Context) (owner : option Id) : bool :=
  visible ctx canSeeOtherOrders owner.

Definition canReadLinks (ctx : Context) (owner : option Id) : bool :=
  visible ctx canSeeOtherLinks owner.

(** [rules.canReadPeople]: the filter is on the id of the user row. *)
Definition canReadPeople (ctx : Context) (user : Id) : bool :=
  visible ctx canSeeOtherUsers (Some user).

(** The update and delete filters [rules.canManageOrders],
    [rules.canManageMatches] and [rules.canManageLinks]. *)
Module rules.

Definition canManageOrders (ctx : Context) (owner : option Id) : bool :=
  visible ctx canManageOrders owner.

Definition canManageMatches (ctx : Context) (owner : option Id) : bool :=
  visible ctx canManageMatches owner.

Definition canManageLinks (ctx : Context) (owner : option Id) : bool :=
  visible ctx canManageLinks owner.

End rules.

(** Operation-level access ([permissions.canManageMatches] and the like):
    the permission of the session's role, or the privileged context. *)
Definition permitted (ctx : Context) (permission : Session -> bool) : bool :=
  if ctx_sudo ctx then true
  else match ctx_session ctx with
       | None => false
       | Some s => permission s
       end.

Definition sessionId (ctx : Context) : option Id :=
  match ctx_session ctx with Some s => Some (itemId s) | None => None end.

Definition isSome {A} (x : option A) : bool :=
  match x with Some _ => true | None => false end.

(** [isSignedIn] *)
Definition isSignedIn (ctx : Context) : bool :=
  ctx_sudo ctx || isSome (ctx_session ctx).

(** A relationship to one user, read through the context: [null] when
    there is none or when the user row is not visible.  The User table is
    not part of the world; a user id names a stored user. *)
Definition readUser (ctx : Context) (user : option Id) : option Id :=
  match user with
  | Some u => if canReadPeople ctx u then Some u else None
  | None => None
  end.

(** Channels and Shops can be queried only with the permissions
    [canSeeOtherChannels] and [canSeeOtherShops] (operation access), which
    also open the query filter. *)
Definition Channel_findOne_as (ctx : Context) (id : Id) (w : World)
  : option Channel :=
  if permitted ctx canSeeOtherChannels
  then find (fun c => Nat.eqb (ch_id c) id) (channels w)
  else None.

Definition Shop_findOne_as (ctx : Context) (id : Id) (w : World)
  : option Shop :=
  if permitted ctx canSeeOtherShops
  then find (fun s => Nat.eqb (sh_id s) id) (shops w)
  else None.

(** The first line of the errors that the entity store raises when a
    [connect] names a row the caller cannot read, when a field fails its
    validation, and when a variable does not fit its GraphQL type. *)
Definition relationshipError : Exn :=
  Error "An error occurred while resolving relationship fields.".

Definition validationError : Exn :=
  Error "You provided invalid data for this operation.".

Definition inputError : Exn :=
  Error "Variable got invalid value.".

(** A GraphQL [Int]. *)
Definition int32 (z : Z) : bool :=
  Z.leb (-2147483648) z && Z.leb z 2147483647.

(** [a || b] on optional ids. *)
Definition or_id (a b : option Id) : option Id :=
  match a with Some _ => a | None => b end.

Definition Order_findOne_as (ctx : Context) (id : Id) : M (option Order) :=
  fun w =>
    (w, Ok (find (fun o => Nat.eqb (o_id o) id
                           && canReadOrders ctx (o_user o)) (orders w))).

(** [updateOne] through a context: the row must pass the update filter
    [rules.canManageOrders]. *)
Definition Order_updateOne_as (ctx : Context) (id : Id) (f : Order -> Order)
  : M Order :=
  fun w =>
    match find (fun o => Nat.eqb (o_id o) id
                         && rules.canManageOrders ctx (o_user o))
               (orders w) with
    | Some o =>
        (set_orders w
           (map (fun o' => if Nat.eqb (o_id o') id then f o' else o')
                (orders w)),
         Ok (f o))
    | None => (w, Throw (accessDenied "Order"))
    end.

Definition lineItemsOf (orderId : Id) (w : World) : list LineItem :=
  filter (fun li => opt_eqb (li_order li) orderId) (lineItems w).

(** [order.lineItems] and [order.cartItems] read through a context: the
    rows that pass the query filter [rules.canReadOrders] of their
    list. *)
Definition lineItemsAs (ctx : Context) (orderId : Id) (w : World)
  : list LineItem :=
  filter (fun li => canReadOrders ctx (li_user li)) (lineItemsOf orderId w).

Definition cartItemsAs (ctx : Context) (orderId : Id) (w : World)
  : list CartItem :=
  filter (fun c => canReadOrders ctx (ci_user c)) (cartItemsOf orderId w).

(** The rows behind a Match's two relations. *)
Definition Match_input (w : World) (m : Match) : list ShopItem :=
  filter (fun si => existsb (Nat.eqb (si_id si)) (m_input m)) (shopItems w).

Definition Match_output (w : World) (m : Match) : list ChannelItem :=
  filter (fun ci => existsb (Nat.eqb (chi_id ci)) (m_output m))
         (channelItems w).

(** [match.input] and [match.output] read through a context: the rows
    that pass the query filter [rules.canReadMatches] of ShopItem and
    ChannelItem.  A [where] on the relation looks at all rows. *)
Definition Match_input_as (ctx : Context) (w : World) (m : Match)
  : list ShopItem :=
  filter (fun si => canReadMatches ctx (si_user si)) (Match_input w m).

Definition Match_output_as (ctx : Context) (w : World) (m : Match)
  : list ChannelItem :=
  filter (fun ci => canReadMatches ctx (chi_user ci)) (Match_output w m).

Definition inputCount (ctx : Context) (w : World) (m : Match) : nat :=
  List.length (Match_input_as ctx w m).

(** [{ productId: {equals}, variantId: {equals}, quantity: {equals} }] *)
Definition tuple_eqb (productId variantId : string) (quantity : Z)
    (si : ShopItem) : bool :=
  String.eqb (si_productId si) productId
  && String.eqb (si_variantId si) variantId
  && Z.eqb (si_quantity si) quantity.

Definition covers (li : LineItem) (si : ShopItem) : bool :=
  tuple_eqb (li_productId li) (li_variantId li) (li_quantity li) si.

(** ** features/keystone/extendGraphqlSchema/mutations/addMatchToCart.ts *)

(** [where: { user, AND: lineItems.map(input: { some: tuple }) }] *)
Definition allMatches (ctx : Context) (userId : Id) (lis : list LineItem)
    (w : World) : list Match :=
  filter (fun m =>
            canReadMatches ctx (m_user m)
            && opt_eqb (m_user m) userId
            && forallb (fun li => existsb (covers li) (Match_input w m)) lis)
         (matches w).

(** [where: { user, AND: [input: { every: tuple }] }] *)
Definition singleAllMatches (ctx : Context) (userId : Id) (li : LineItem)
    (w : World) : list Match :=
  filter (fun m =>
            canReadMatches ctx (m_user m)
            && opt_eqb (m_user m) userId
            && forallb (covers li) (Match_input w m))
         (matches w).

(** [allMatches.filter(({ inputCount }) => inputCount ===
    order.lineItems.length)] *)
Definition exactMatches (ctx : Context) (userId : Id) (lis : list LineItem)
    (w : World) : list Match :=
  filter (fun m => Nat.eqb (inputCount ctx w m) (List.length lis))
         (allMatches ctx userId lis w).

(** What [connect] asks of the rows a new CartItem names: the order and
    the channel are stored and visible to the caller, and so is the
    user. *)
Definition cartItemConnects (ctx : Context) (row : CartItem) (w : World)
  : bool :=
  match ci_order row with
  | Some oid =>
      existsb (fun o => Nat.eqb (o_id o) oid && canReadOrders ctx (o_user o))
              (orders w)
  | None => true
  end
  && match ci_channel row with
     | Some cid => isSome (Channel_findOne_as ctx cid w)
     | None => true
     end
  && match ci_user row with
     | Some u => canReadPeople ctx u
     | None => true
     end.

(** [CartItem.createOne] through a context.  The variables must fit the
    input type ([quantity] is an [Int]); creating asks for a signed-in
    caller; the connected rows must resolve; [name] is required; the
    list's [resolveInput] hook gives a row without user the caller's. *)
Definition CartItem_createOne_as (ctx : Context) (data : Id -> CartItem)
  : M CartItem :=
  fun w =>
    let given := data (nextId w) in
    let row := set_ci_user (or_id (ci_user given) (sessionId ctx)) given in
    if negb (int32 (ci_quantity given)) then (w, Throw inputError)
    else if negb (isSignedIn ctx)
    then (w, Throw (Error "Access denied: You cannot create that CartItem"))
    else if negb (cartItemConnects ctx given w)
    then (w, Throw relationshipError)
    else if negb (truthy (ci_name given)) then (w, Throw validationError)
    else
      (set_nextId (set_cartItems w (cartItems w ++ [row])) (S (nextId w)),
       Ok row).

Definition getChannelProduct (A : Adapters) (ch : Channel)
    (productId variantId : string) : M (option Product) :=
  w <- get_world ;;
  match ch_platform ch with
  | None =>
      throw (TypeError "Cannot read properties of undefined (reading 'startsWith')")
  | Some _ =>
      emit (GetProductCall (ch_id ch) productId variantId) ;;
      outcome (getProductFunction A (trace w) ch productId variantId)
  end.

Definition priceChange (saved current : string) : string :=
  "PRICE_CHANGE: Price changed: " ++ saved ++ " → " ++ current ++
  ". Verify before placing order.".

(** The body of the inner loop of [createCartItems]: one output
    ChannelItem of a match becomes one CartItem of the order.  The
    output's channel and user are [null] when the caller cannot read
    them. *)
Definition createCartItem (A : Adapters) (ctx : Context) (order : Order)
    (result : option CartItem) (out : ChannelItem) : M (option CartItem) :=
  w <- get_world ;;
  match chi_channel out with
  | None => throw (TypeError "Cannot read properties of null (reading 'platform')")
  | Some cid =>
  match Channel_findOne_as ctx cid w with
  | None => throw (TypeError "Cannot read properties of null (reading 'platform')")
  | Some channel =>
      productResult <- getChannelProduct A channel (chi_productId out)
                         (chi_variantId out) ;;
      match productResult with
      | None => throw (TypeError "Cannot read properties of undefined (reading 'price')")
      | Some product =>
          let currentPriceStr := p_price product in
          let savedPriceStr := chi_price out in
          let hasPriceChange := negb (String.eqb currentPriceStr savedPriceStr) in
          match readUser ctx (chi_user out) with
          | None => throw (TypeError "Cannot read properties of null (reading 'id')")
          | Some uid =>
              created <- CartItem_createOne_as ctx (fun id =>
                mkCartItem id (Some (o_id order)) (Some (ch_id channel))
                  (Some uid) (p_title product) (p_image product)
                  currentPriceStr (chi_quantity out) (chi_productId out)
                  (chi_variantId out) "" "" ""
                  (if hasPriceChange
                   then priceChange savedPriceStr currentPriceStr else "")
                  "" "PENDING") ;;
              ret (Some created)
          end
      end
  end
  end.

Definition createCartItems (A : Adapters) (ctx : Context) (order : Order)
    (found : list (option Match)) : M (option CartItem) :=
  if Nat.ltb 0 (List.length found)
  then
    for_of found None
      (fun result existingMatch =>
         match existingMatch with
         | None =>
             throw (TypeError "Cannot read properties of undefined (reading 'output')")
         | Some m =>
             w <- get_world ;;
             for_of (Match_output_as ctx w m) result
               (createCartItem A ctx order)
         end)
  else ret None.

Definition matchErrorSome : string := "MATCH_ERROR: Some lineItems not matched".
Definition matchErrorNone : string := "MATCH_ERROR: No matches found".

(** The callback mapped over the line items in the per-tuple fallback. *)
Definition singleMatch (ctx : Context) (orderId userId : Id)
    (output : list (option Match)) (li : LineItem)
  : M (list (option Match)) :=
  w <- get_world ;;
  match singleAllMatches ctx userId li w with
  | singleFilt :: _ => ret (output ++ [Some singleFilt])
  | [] =>
      Order_updateOne_as ctx orderId
        (fun o => set_status "PENDING" (set_error matchErrorSome o)) ;;
      ret (output ++ [None])
  end.

(** [order.user] is [null] when the order has no user or when the caller
    cannot read that user; [order.lineItems] holds the line items the
    caller can read. *)
Definition getMatches (A : Adapters) (ctx : Context) (orderId : Id)
  : M (option CartItem) :=
  found <- Order_findOne_as ctx orderId ;;
  match found with
  | None => throw (Error "Order not found")
  | Some order =>
      match readUser ctx (o_user order) with
      | None => throw (TypeError "Cannot read properties of null (reading 'id')")
      | Some userId =>
          w <- get_world ;;
          let lis := lineItemsAs ctx orderId w in
          match exactMatches ctx userId lis w with
          | filt :: _ => createCartItems A ctx order [Some filt]
          | [] =>
              if Nat.ltb 1 (List.length lis)
              then
                output <- for_of lis [] (singleMatch ctx orderId userId) ;;
                if Nat.ltb 0 (List.length (filter isSome output))
                then createCartItems A ctx order output
                else ret None
              else
                Order_updateOne_as ctx orderId (set_error matchErrorNone) ;;
                ret None
          end
      end
  end.

Definition addMatchToCart (A : Adapters) (ctx : Context) (orderId : Id)
  : M (option Order) :=
  match ctx_session ctx with
  | None => throw (Error "You must be logged in to do this!")
  | Some _ =>
      cartItemsFromMatch <- getMatches A ctx orderId ;;
      match cartItemsFromMatch with
      | Some _ => Order_findOne_as ctx orderId
      | None => throw (Error "No Matches found")
      end
  end.

(** ** features/keystone/models/Order.ts *)

(** The resolver of the virtual field [dynamicWhereClause] of Link
    (features/keystone/models/Link.ts): the same string for every link. *)
Definition Link_dynamicWhereClause (link : Link) : string :=
  "Generated where clause based on filters".

(** What stands under a key of a [where] object: a scalar, or an object
    of operators such as [{ equals: v }]. *)
Inductive WhereValue :=
| Scalar (v : string)
| Operators.

Definition WhereInput := list (string * WhereValue).

Definition showNat (n : nat) : string :=
  NilZero.string_of_uint (Nat.to_uint n).

(** [{ ...s }] for a string [s]: its characters under the keys 0, 1, ... *)
Fixpoint spreadString (i : nat) (s : string) : WhereInput :=
  match s with
  | EmptyString => []
  | String c rest =>
      (showNat i, Scalar (String c EmptyString)) :: spreadString (S i) rest
  end.

(** [OrderWhereUniqueInput] has the two fields [id] and [orderId], both
    scalars, and one of them must be given. *)
Definition fitsOrderWhereUnique (whereClause : WhereInput) : bool :=
  Nat.eqb (List.length whereClause) 1
  && forallb (fun kv =>
                (String.eqb (fst kv) "id" || String.eqb (fst kv) "orderId")
                && match snd kv with Scalar _ => true | Operators => false end)
             whereClause.

(** [context.query.Order.findOne({ where })] for a [where] built at run
    time: GraphQL refuses variables that do not fit the input type. *)
Definition Order_findOne_where (ctx : Context) (whereClause : WhereInput)
  : M (option Order) :=
  if fitsOrderWhereUnique whereClause
  then
    fun w =>
      (w, Ok (find (fun o =>
                      canReadOrders ctx (o_user o)
                      && forallb (fun kv =>
                                    match snd kv with
                                    | Scalar v =>
                                        if String.eqb (fst kv) "id"
                                        then String.eqb (showNat (o_id o)) v
                                        else String.eqb (o_orderId o) v
                                    | Operators => false
                                    end) whereClause)
                   (orders w)))
  else throw inputError.

Definition Link_findOne_as (ctx : Context) (id : Id) (w : World)
  : option Link :=
  find (fun l => Nat.eqb (l_id l) id && canReadLinks ctx (l_user l))
       (links w).

(** Evaluation of one link's predicate on the order.  The [LinkEvaluated]
    event records that the link was looked at. *)
Definition applyDynamicWhereClause (ctx : Context) (linkId orderId : Id)
  : M (option Order) :=
  emit (LinkEvaluated linkId) ;;
  w <- get_world ;;
  match Link_findOne_as ctx linkId w with
  | None => ret None
  | Some link =>
      if truthy (Link_dynamicWhereClause link)
      then
        let whereClause :=
          spreadString 0 (Link_dynamicWhereClause link)
          ++ [("id", Operators)] in
        Order_findOne_where ctx whereClause
      else ret None
  end.

(** [links.sort((a, b) => a.rank - b.rank)]: a stable sort by rank. *)
Fixpoint insertByRank (x : Link) (l : list Link) : list Link :=
  match l with
  | [] => [x]
  | y :: l' =>
      if Z.leb (l_rank x) (l_rank y) then x :: y :: l'
      else y :: insertByRank x l'
  end.

Fixpoint sortByRank (l : list Link) : list Link :=
  match l with
  | [] => []
  | x :: l' => insertByRank x (sortByRank l')
  end.

(** The sequential loop: push the first matching link and [break]. *)
Fixpoint sequentialLinks (ctx : Context) (orderId : Id) (ls : list Link)
  : M (list Link) :=
  match ls with
  | [] => ret []
  | link :: rest =>
      matchedOrder <- applyDynamicWhereClause ctx (l_id link) orderId ;;
      match matchedOrder with
      | Some _ => ret [link]
      | None => sequentialLinks ctx orderId rest
      end
  end.

Definition simultaneousLinks (ctx : Context) (orderId : Id) (ls : list Link)
  : M (list Link) :=
  for_of ls []
    (fun matchedLinks link =>
       matchedOrder <- applyDynamicWhereClause ctx (l_id link) orderId ;;
       match matchedOrder with
       | Some _ => ret (matchedLinks ++ [link])
       | None => ret matchedLinks
       end).

(** [{ ...c, channel, order, user }] for a line item [c] that carries no
    price. *)
Definition cartItemOfLineItem (c : LineItem) (channel : Id) (orderId : Id)
    (user : Id) (id : Id) : CartItem :=
  mkCartItem id (Some orderId) (Some channel) (Some user) (li_name c)
    (li_image c) "" (li_quantity c) (li_productId c) (li_variantId c)
    (li_sku c) (li_lineItemId c) "" "" "" "PENDING".

Definition CartItem_createMany (ctx : Context) (data : list (Id -> CartItem))
  : M unit :=
  for_of data tt (fun _ d => CartItem_createOne_as ctx d ;; ret tt).

(** [price] is a number on a LineItem and a [String] on the input of a
    CartItem, so the variables of [createMany] are refused as soon as one
    line item carries a price; a [connect] without an id is refused
    too. *)
Definition routeToLink (order : Order) (itemId : Id) (lis : list LineItem)
    (link : Link) : M unit :=
  match lis with
  | [] => ret tt
  | _ :: _ =>
      match l_channel link with
      | None => throw (TypeError "Cannot read properties of null (reading 'id')")
      | Some channel =>
          if existsb (fun c => isSome (li_price c)) lis
          then throw inputError
          else
            match o_user order with
            | None => throw inputError
            | Some user =>
                CartItem_createMany sudo
                  (map (fun c => cartItemOfLineItem c channel itemId user)
                       lis)
            end
      end
  end.

Definition shopOf (order : Order) (w : World) : option Shop :=
  match o_shop order with
  | None => None
  | Some sid => find (fun s => Nat.eqb (sh_id s) sid) (shops w)
  end.

Definition shopLinks (shop : Shop) (w : World) : list Link :=
  filter (fun l => opt_eqb (l_shop l) (sh_id shop)) (links w).

Definition noLinkError : string := "No matching link found for this order".

Definition linkBranch (A : Adapters) (item order : Order) (shop : Shop)
  : M unit :=
  w <- get_world ;;
  let ls := sortByRank (shopLinks shop w) in
  matchedLinks <-
    (if String.eqb (sh_linkMode shop) "sequential"
     then sequentialLinks sudo (o_id order) ls
     else if String.eqb (sh_linkMode shop) "simultaneous"
     then simultaneousLinks sudo (o_id order) ls
     else ret []) ;;
  if Nat.ltb 0 (List.length matchedLinks)
  then
    for_of matchedLinks tt
      (fun _ link =>
         routeToLink order (o_id item) (lineItemsOf (o_id order) w) link) ;;
    if o_processOrder item
    then placeMultipleOrders A [o_id item] ;; ret tt
    else ret tt
  else
    Order_updateOne (o_id item) (set_error noLinkError) ;; ret tt.

Definition matchBranch (A : Adapters) (item : Order) : M unit :=
  try_catch
    (getMatches A sudo (o_id item) ;;
     order2 <- Order_findOne_as sudo (o_id item) ;;
     if match order2 with Some o => truthy (o_error o) | None => false end
     then Order_updateOne (o_id item) (set_status "PENDING") ;; ret tt
     else if o_processOrder item
          then placeMultipleOrders A [o_id item] ;; ret tt
          else ret tt)
    (fun matchError =>
       emit (ConsoleLog "Error during match processing:") ;;
       Order_updateOne (o_id item)
         (fun o => set_status "PENDING"
                     (set_error ("Match processing failed: "
                                 ++ message matchError) o)) ;;
       ret tt).

Definition Order_afterOperation (A : Adapters) (operation : string)
    (item : Order) : M unit :=
  if String.eqb operation "create"
  then
    found <- Order_findOne_as sudo (o_id item) ;;
    w <- get_world ;;
    let linked :=
      match found with
      | Some order =>
          match shopOf order w with
          | Some shop =>
              if Nat.ltb 0 (List.length (shopLinks shop w))
              then Some (order, shop) else None
          | None => None
          end
      | None => None
      end in
    match o_linkOrder item, found, linked with
    | true, None, _ =>
        throw (TypeError "Cannot read properties of null (reading 'shop')")
    | true, Some _, Some (order, shop) => linkBranch A item order shop
    | _, _, _ =>
        if o_matchOrder item then matchBranch A item
        else
          match found with
          | None =>
              throw (TypeError "Cannot read properties of null (reading 'cartItemsCount')")
          | Some order =>
              if Nat.ltb 0 (List.length (cartItemsOf (o_id order) w))
                 && o_processOrder item
              then placeMultipleOrders A [o_id item] ;; ret tt
              else ret tt
          end
    end
  else ret tt.

(** ** features/keystone/models/TrackingDetail.ts *)









(** ** features/keystone/models/Link.ts *)

(** The [resolvedData] of a Link mutation; an absent field is [None]. *)
Record LinkData := mkLinkData {
  ld_shop : option Id;
  ld_channel : option Id;
  ld_user : option Id;
  ld_rank : option Z
}.

Definition ld_set_rank (r : Z) (d : LinkData) : LinkData :=
  mkLinkData (ld_shop d) (ld_channel d) (ld_user d) (Some r).

Definition ld_set_user (u : option Id) (d : LinkData) : LinkData :=
  mkLinkData (ld_shop d) (ld_channel d) u (ld_rank d).

(** [context.query.Link.findMany({ where: { shop: { id: { equals } } } })] *)
Definition existingLinks (ctx : Context) (shopId : Id) (w : World)
  : list Link :=
  filter (fun l => canReadLinks ctx (l_user l) && opt_eqb (l_shop l) shopId)
         (links w).

Definition Link_resolveInput_create (ctx : Context) (d : LinkData)
  : LinkData :=
  match ld_user d, sessionId ctx with
  | None, Some u => ld_set_user (Some u) d
  | _, _ => d
  end.

Definition Link_beforeOperation (ctx : Context) (operation : string)
    (resolvedData : LinkData) : M LinkData :=
  if String.eqb operation "create"
  then
    match ld_shop resolvedData with
    | None =>
        throw (TypeError "Cannot read properties of undefined (reading 'connect')")
    | Some shopId =>
        w <- get_world ;;
        let n := List.length (existingLinks ctx shopId w) in
        let nextRank := if Nat.ltb 0 n then (Z.of_nat n + 1)%Z else 1%Z in
        ret (ld_set_rank nextRank resolvedData)
    end
  else ret resolvedData.

Definition or_default {A} (x : option A) (d : A) : A :=
  match x with Some a => a | None => d end.

(** What [connect] asks of the rows the data names: the shop and the
    channel are stored and visible to the caller, and so is the user. *)
Definition linkConnects (ctx : Context) (d : LinkData) (w : World) : bool :=
  match ld_shop d with
  | Some sid => isSome (Shop_findOne_as ctx sid w)
  | None => true
  end
  && match ld_channel d with
     | Some cid => isSome (Channel_findOne_as ctx cid w)
     | None => true
     end
  && match ld_user d with
     | Some u => canReadPeople ctx u
     | None => true
     end.

(** [rank] is an [Int] of the input. *)
Definition rankFits (d : LinkData) : bool :=
  match ld_rank d with
  | Some r => int32 r
  | None => true
  end.

(** [Link.createOne]: the input is coerced, the operation asks for
    [permissions.canCreateLinks], the connected rows are resolved, then
    the hooks run and the row is stored. *)
Definition Link_createOne (ctx : Context) (data : LinkData) : M Link :=
  if rankFits data
  then
    if permitted ctx canCreateLinks
    then
      w0 <- get_world ;;
      if linkConnects ctx data w0
      then
        resolvedData <- Link_beforeOperation ctx "create"
                          (Link_resolveInput_create ctx data) ;;
        w <- get_world ;;
        let row := mkLink (nextId w) (ld_shop resolvedData)
                     (ld_channel resolvedData) (ld_user resolvedData)
                     (or_default (ld_rank resolvedData) 1%Z) in
        modify (fun w => set_nextId (set_links w (links w ++ [row]))
                           (S (nextId w))) ;;
        ret row
      else throw relationshipError
    else throw (Error "Access denied: You cannot create that Link")
  else throw inputError.

Definition applyLinkData (d : LinkData) (l : Link) : Link :=
  mkLink (l_id l)
    (or_id (ld_shop d) (l_shop l))
    (or_id (ld_channel d) (l_channel l))
    (or_id (ld_user d) (l_user l))
    (or_default (ld_rank d) (l_rank l)).

(** [Link.updateOne]: the row must pass the update filter
    [rules.canManageLinks]. *)
Definition Link_updateOne (ctx : Context) (id : Id) (data : LinkData)
  : M Link :=
  if rankFits data
  then
    w <- get_world ;;
    match find (fun l => Nat.eqb (l_id l) id
                         && rules.canManageLinks ctx (l_user l))
               (links w) with
    | None => throw (accessDenied "Link")
    | Some l =>
        if linkConnects ctx data w
        then
          resolvedData <- Link_beforeOperation ctx "update" data ;;
          modify (fun w =>
                    set_links w
                      (map (fun l' => if Nat.eqb (l_id l') id
                                      then applyLinkData resolvedData l'
                                      else l')
                           (links w))) ;;
          ret (applyLinkData resolvedData l)
        else throw relationshipError
    end
  else throw inputError.

(** [Link.deleteOne]: the operation asks for [permissions.canManageLinks],
    which also opens the delete filter. *)
Definition Link_deleteOne (ctx : Context) (id : Id) : M unit :=
  w <- get_world ;;
  if permitted ctx canManageLinks
     && existsb (fun l => Nat.eqb (l_id l) id) (links w)
  then modify (fun w =>
                 set_links w (filter (fun l => negb (Nat.eqb (l_id l) id))
                                     (links w)))
  else throw (Error "Access denied: You cannot delete that Link - it may not exist").

(** ** features/keystone/models/Match.ts *)

Record ShopItemData := mkShopItemData {
  sid_productId : string;
  sid_variantId : string;
  sid_quantity : Z;
  sid_shop : option Id;
  sid_user : option Id
}.

Record ChannelItemData := mkChannelItemData {
  cid_productId : string;
  cid_variantId : string;
  cid_quantity : Z;
  cid_price : string;
  cid_channel : option Id;
  cid_user : option Id
}.

(** A to-many relationship input: [{ create, connect, disconnect }]. *)
Record RelInput (D : Type) := mkRelInput {
  rel_create : option (list D);
  rel_connect : option (list Id);
  rel_disconnect : option (list Id)
}.

Record MatchData := mkMatchData {
  md_input : option (RelInput ShopItemData);
  md_output : option (RelInput ChannelItemData);
  md_user : option Id
}.

Definition ShopItem_createOne (ctx : Context) (data : Id -> ShopItem)
  : M ShopItem :=
  fun w =>
    let row := data (nextId w) in
    (set_nextId (set_shopItems w (shopItems w ++ [row])) (S (nextId w)),
     Ok row).

Definition ChannelItem_createOne (ctx : Context) (data : Id -> ChannelItem)
  : M ChannelItem :=
  fun w =>
    let row := data (nextId w) in
    (set_nextId (set_channelItems w (channelItems w ++ [row])) (S (nextId w)),
     Ok row).

(** The user filter [{ user: { id: { equals: u } } }]; when [u] is
    undefined the filter only asks for some user. *)
Definition user_is (u : option Id) (owner : option Id) : bool :=
  match u with
  | Some x => opt_eqb owner x
  | None => isSome owner
  end.

Definition ensureShopItems (ctx : Context) (create : option (list ShopItemData))
  : M (list Id) :=
  match create with
  | None => ret []
  | Some items =>
      for_of items []
        (fun processedItems item2 =>
           match sid_shop item2 with
           | None =>
               throw (TypeError "Cannot read properties of undefined (reading 'connect')")
           | Some shopId =>
               w <- get_world ;;
               let owner := or_id (sid_user item2) (sessionId ctx) in
               match filter (fun si =>
                               canReadMatches ctx (si_user si)
                               && tuple_eqb (sid_productId item2)
                                    (sid_variantId item2) (sid_quantity item2) si
                               && opt_eqb (si_shop si) shopId
                               && user_is owner (si_user si))
                            (shopItems w) with
               | existingItem :: _ =>
                   ret (processedItems ++ [si_id existingItem])
               | [] =>
                   created <- ShopItem_createOne ctx (fun id =>
                     mkShopItem id (sid_productId item2) (sid_variantId item2)
                       (sid_quantity item2) (Some shopId) owner) ;;
                   ret (processedItems ++ [si_id created])
               end
           end)
  end.

(** The hook looks a ChannelItem up with [findOne] and a [where] on
    [productId], [variantId], [quantity], [channel] and [user]:
    [ChannelItemWhereUniqueInput] has none of these fields, so GraphQL
    refuses the variables for the first item. *)
Definition ensureChannelItems (ctx : Context)
    (create : option (list ChannelItemData)) : M (list Id) :=
  match create with
  | None => ret []
  | Some items =>
      for_of items []
        (fun processedItems item2 =>
           match cid_channel item2 with
           | None =>
               throw (TypeError "Cannot read properties of undefined (reading 'connect')")
           | Some channelId => throw inputError
           end)
  end.

Definition includes (ids : list Id) (id : Id) : bool :=
  existsb (Nat.eqb id) ids.

(** [where: { input: { some: { id: { in: inputIds } } } }] *)
Definition existingMatchesSharing (ctx : Context) (inputIds : list Id)
    (w : World) : list Match :=
  filter (fun m =>
            canReadMatches ctx (m_user m)
            && existsb (fun si => includes inputIds (si_id si))
                       (Match_input w m))
         (matches w).

Definition checkForDuplicate (ctx : Context) (inputIds : list Id)
  : M bool :=
  w <- get_world ;;
  ret (existsb
         (fun m =>
            let matchInputIds := map si_id (Match_input_as ctx w m) in
            Nat.eqb (List.length matchInputIds) (List.length inputIds)
            && forallb (includes inputIds) matchInputIds)
         (existingMatchesSharing ctx inputIds w)).

Definition duplicateMatchError : Exn :=
  Error "A match with the same input combination already exists.".

Definition connected {D} (r : RelInput D) : list Id :=
  or_default (rel_connect r) [].

(** [input.connect = [...(input.connect || []), ...processed];
    delete input.create] *)
Definition absorbCreated {D} (r : RelInput D) (processed : list Id)
  : RelInput D :=
  mkRelInput None (Some (connected r ++ processed)) (rel_disconnect r).

Definition md_set_input (i : option (RelInput ShopItemData)) (d : MatchData)
  : MatchData := mkMatchData i (md_output d) (md_user d).

Definition md_set_output (o : option (RelInput ChannelItemData))
    (d : MatchData) : MatchData := mkMatchData (md_input d) o (md_user d).

Definition md_set_user (u : option Id) (d : MatchData) : MatchData :=
  mkMatchData (md_input d) (md_output d) u.

Definition resolveCreatedInput (ctx : Context) (d : MatchData) : M MatchData :=
  match md_input d with
  | Some input =>
      match rel_create input with
      | Some _ =>
          processedInput <- ensureShopItems ctx (rel_create input) ;;
          ret (md_set_input (Some (absorbCreated input processedInput)) d)
      | None => ret d
      end
  | None => ret d
  end.

Definition resolveCreatedOutput (ctx : Context) (d : MatchData)
  : M MatchData :=
  match md_output d with
  | Some output =>
      match rel_create output with
      | Some _ =>
          processedOutput <- ensureChannelItems ctx (rel_create output) ;;
          ret (md_set_output (Some (absorbCreated output processedOutput)) d)
      | None => ret d
      end
  | None => ret d
  end.

Definition Match_findOne (ctx : Context) (id : Id) (w : World)
  : option Match :=
  find (fun m => Nat.eqb (m_id m) id && canReadMatches ctx (m_user m))
       (matches w).

Definition ShopItem_findOne (ctx : Context) (id : Id) (w : World)
  : option ShopItem :=
  find (fun si => Nat.eqb (si_id si) id && canReadMatches ctx (si_user si))
       (shopItems w).

(** [combinedInputs.map(item => item.id)] where a connected ShopItem that
    was not found is [null]. *)
Fixpoint idsOf (l : list (option ShopItem)) : option (list Id) :=
  match l with
  | [] => Some []
  | None :: _ => None
  | Some si :: l' =>
      match idsOf l' with
      | Some ids => Some (si_id si :: ids)
      | None => None
      end
  end.

Definition duplicateCheckOnCreate (ctx : Context) (d : MatchData) : M unit :=
  match md_input d with
  | None =>
      throw (TypeError "Cannot read properties of undefined (reading 'connect')")
  | Some input =>
      match rel_connect input with
      | Some connect =>
          if Nat.ltb 0 (List.length connect)
          then
            isDuplicate <- checkForDuplicate ctx connect ;;
            if isDuplicate : bool then throw duplicateMatchError else ret tt
          else ret tt
      | None => ret tt
      end
  end.

(** The ids the update would leave connected: the current inputs that
    are not disconnected, followed by the newly connected ones. *)
Definition combinedInputIds (ctx : Context) (item : Match)
    (input : RelInput ShopItemData) (w : World) : Result (list Id) :=
  let matchToUpdate := Match_findOne ctx (m_id item) w in
  let newInputs :=
    match rel_connect input with
    | Some connect => map (fun id => ShopItem_findOne ctx id w) connect
    | None => []
    end in
  let disconnectedIds := or_default (rel_disconnect input) [] in
  match matchToUpdate with
  | None =>
      Throw (TypeError "Cannot read properties of null (reading 'input')")
  | Some current =>
      let remainingCurrentInputs :=
        filter (fun input2 => negb (includes disconnectedIds (si_id input2)))
               (Match_input_as ctx w current) in
      match idsOf (map Some remainingCurrentInputs ++ newInputs) with
      | None =>
          Throw (TypeError "Cannot read properties of null (reading 'id')")
      | Some inputIds => Ok inputIds
      end
  end.

Definition duplicateCheckOnUpdate (ctx : Context) (item : Match)
    (d : MatchData) : M unit :=
  match md_input d with
  | None => ret tt
  | Some input =>
      w <- get_world ;;
      match combinedInputIds ctx item input w with
      | Throw e => throw e
      | Ok inputIds =>
          isDuplicate <- checkForDuplicate ctx inputIds ;;
          if isDuplicate : bool then throw duplicateMatchError else ret tt
      end
  end.

(** The first two steps of the hook: rows named under [create] are looked
    up or created, and their ids join the [connect] lists. *)
Definition resolveCreated (ctx : Context) (d : MatchData) : M MatchData :=
  d1 <- resolveCreatedInput ctx d ;;
  resolveCreatedOutput ctx d1.

Definition Match_resolveInput (ctx : Context) (operation : string)
    (item : option Match) (resolvedData : MatchData) : M MatchData :=
  d2 <- resolveCreated ctx resolvedData ;;
  (if String.eqb operation "create"
   then duplicateCheckOnCreate ctx d2 else ret tt) ;;
  (if String.eqb operation "update"
   then match item with
        | Some it => duplicateCheckOnUpdate ctx it d2
        | None => ret tt
        end
   else ret tt) ;;
  match md_user d2, sessionId ctx with
  | None, Some u => ret (md_set_user (Some u) d2)
  | _, _ => ret d2
  end.

Definition relIds {D} (r : option (RelInput D)) : list Id :=
  match r with Some i => connected i | None => [] end.

Definition ChannelItem_findOne (ctx : Context) (id : Id) (w : World)
  : option ChannelItem :=
  find (fun ci => Nat.eqb (chi_id ci) id && canReadMatches ctx (chi_user ci))
       (channelItems w).

(** What [connect] and [disconnect] ask of the rows the data names: each
    ShopItem and ChannelItem is stored and visible to the caller, and so
    is the user. *)
Definition named {D} (r : option (RelInput D)) : list Id :=
  match r with
  | Some i => or_default (rel_connect i) [] ++ or_default (rel_disconnect i) []
  | None => []
  end.

Definition matchConnects (ctx : Context) (d : MatchData) (w : World) : bool :=
  forallb (fun id => isSome (ShopItem_findOne ctx id w)) (named (md_input d))
  && forallb (fun id => isSome (ChannelItem_findOne ctx id w))
             (named (md_output d))
  && match md_user d with
     | Some u => canReadPeople ctx u
     | None => true
     end.

(** [Match.createOne]: the operation asks for
    [permissions.canCreateMatches], the connected rows are resolved, then
    the hook runs and the row is stored.  The entity store resolves a
    nested [create] before the hook runs, so through [createOne] and
    [updateOne] the hook is handed [connect] lists; its branch for
    [create] is kept as the hook has it. *)
Definition Match_createOne (ctx : Context) (data : MatchData) : M Match :=
  if permitted ctx canCreateMatches
  then
    w0 <- get_world ;;
    if matchConnects ctx data w0
    then
      resolvedData <- Match_resolveInput ctx "create" None data ;;
      w <- get_world ;;
      let row := mkMatch (nextId w) (md_user resolvedData)
                   (relIds (md_input resolvedData))
                   (relIds (md_output resolvedData)) in
      modify (fun w => set_nextId (set_matches w (matches w ++ [row]))
                         (S (nextId w))) ;;
      ret row
    else throw relationshipError
  else throw (Error "Access denied: You cannot create that Match").

Definition applyRel {D} (r : option (RelInput D)) (current : list Id)
  : list Id :=
  match r with
  | None => current
  | Some i =>
      filter (fun id => negb (includes (or_default (rel_disconnect i) []) id))
             current
      ++ connected i
  end.

Definition applyMatchData (d : MatchData) (m : Match) : Match :=
  mkMatch (m_id m) (or_id (md_user d) (m_user m))
    (applyRel (md_input d) (m_input m))
    (applyRel (md_output d) (m_output m)).

(** [Match.updateOne]: the row must pass the update filter
    [rules.canManageMatches]. *)
Definition Match_updateOne (ctx : Context) (id : Id) (data : MatchData)
  : M Match :=
  w <- get_world ;;
  match find (fun m => Nat.eqb (m_id m) id
                       && rules.canManageMatches ctx (m_user m))
             (matches w) with
  | None => throw (accessDenied "Match")
  | Some item =>
      if matchConnects ctx data w
      then
        resolvedData <- Match_resolveInput ctx "update" (Some item) data ;;
        modify (fun w =>
                  set_matches w
                    (map (fun m => if Nat.eqb (m_id m) id
                                   then applyMatchData resolvedData m else m)
                         (matches w))) ;;
        ret (applyMatchData resolvedData item)
      else throw relationshipError
  end.

Definition Match_deleteOne (ctx : Context) (id : Id) : M unit :=
  w <- get_world ;;
  if permitted ctx canManageMatches
     && existsb (fun m => Nat.eqb (m_id m) id) (matches w)
  then modify (fun w =>
                 set_matches w
                   (filter (fun m => negb (Nat.eqb (m_id m) id)) (matches w)))
  else throw (Error "Access denied: You cannot delete that Match - it may not exist").

(** ** features/keystone/extendGraphqlSchema/mutations/matchOrder.ts *)

(** The body of the loop of [findShopItems]: look the ShopItem up, or
    create it. *)
Definition findShopItem (ctx : Context) (channelId userId : Id)
    (arr : list Id) (li : LineItem) : M (list Id) :=
  w <- get_world ;;
  match filter (fun si =>
                  canReadMatches ctx (si_user si)
                  && opt_eqb (si_shop si) channelId
                  && opt_eqb (si_user si) userId
                  && covers li si)
               (shopItems w) with
  | existingShopItem :: _ => ret (arr ++ [si_id existingShopItem])
  | [] =>
      createShopItem <- ShopItem_createOne ctx (fun id =>
        mkShopItem id (li_productId li) (li_variantId li)
          (li_quantity li) (Some channelId) (sessionId ctx)) ;;
      ret (arr ++ [si_id createShopItem])
  end.

Definition findShopItems (ctx : Context) (lis : list LineItem)
    (channelId userId : Id) : M (list Id) :=
  for_of lis [] (findShopItem ctx channelId userId).

(** The body of the loop of [findChannelItems]. *)
Definition findChannelItem (ctx : Context) (userId : Id)
    (arr : list Id) (entry : CartItem * Id) : M (list Id) :=
  let (c, channelId) := entry in
  w <- get_world ;;
  match filter (fun ci =>
                  canReadMatches ctx (chi_user ci)
                  && opt_eqb (chi_channel ci) channelId
                  && opt_eqb (chi_user ci) userId
                  && Z.eqb (chi_quantity ci) (ci_quantity c)
                  && String.eqb (chi_productId ci) (ci_productId c)
                  && String.eqb (chi_variantId ci) (ci_variantId c))
               (channelItems w) with
  | existingChannelItem :: _ => ret (arr ++ [chi_id existingChannelItem])
  | [] =>
      createChannelItem <- ChannelItem_createOne ctx (fun id =>
        mkChannelItem id (ci_productId c) (ci_variantId c)
          (ci_quantity c) (ci_price c) (Some channelId)
          (sessionId ctx)) ;;
      ret (arr ++ [chi_id createChannelItem])
  end.

Definition findChannelItems (ctx : Context) (cis : list (CartItem * Id))
    (userId : Id) : M (list Id) :=
  for_of cis [] (findChannelItem ctx userId).

(** [order.cartItems.map(({ channel, ...rest }) => ({ ...rest, channelId:
    channel.id }))]; [None] when the channel of some cart item is [null]:
    the item has none, or the caller cannot read it. *)
Fixpoint withChannelIds (ctx : Context) (w : World) (cis : list CartItem)
  : option (list (CartItem * Id)) :=
  match cis with
  | [] => Some []
  | c :: rest =>
      match match ci_channel c with
            | Some ch => Channel_findOne_as ctx ch w
            | None => None
            end,
            withChannelIds ctx w rest with
      | Some channel, Some l => Some ((c, ch_id channel) :: l)
      | _, _ => None
      end
  end.

Definition matchOrder (ctx : Context) (orderId : Id) : M Match :=
  match ctx_session ctx with
  | None => throw (TypeError "Cannot read properties of undefined (reading 'itemId')")
  | Some sesh =>
      found <- Order_findOne_as ctx orderId ;;
      match found with
      | None => throw (TypeError "Cannot read properties of null (reading 'lineItems')")
      | Some order =>
          w <- get_world ;;
          let lis := lineItemsAs ctx orderId w in
          let shop :=
            match o_shop order with
            | Some shopId => Shop_findOne_as ctx shopId w
            | None => None
            end in
          shopItemConnect <-
            match lis, shop with
            | [], _ => ret []
            | _ :: _, None =>
                throw (TypeError "Cannot read properties of null (reading 'id')")
            | _ :: _, Some sh => findShopItems ctx lis (sh_id sh) (itemId sesh)
            end ;;
          channelItemConnect <-
            match withChannelIds ctx w (cartItemsAs ctx orderId w) with
            | None =>
                throw (TypeError "Cannot read properties of null (reading 'id')")
            | Some cis => findChannelItems ctx cis (itemId sesh)
            end ;;
          w1 <- get_world ;;
          match exactMatches ctx (itemId sesh) lis w1 with
          | existingMatch :: _ => Match_deleteOne ctx (m_id existingMatch)
          | [] => ret tt
          end ;;
          Match_createOne ctx
            (mkMatchData
               (Some (mkRelInput None (Some shopItemConnect) None))
               (Some (mkRelInput None (Some channelItemConnect) None))
               (Some (itemId sesh)))
      end
  end.

(** ** Sample worlds and adapters *)

Definition noShopPlatform : ShopPlatform := mkShopPlatform "shopify" "shopify".

Definition sampleChannelPlatform : ChannelPlatform :=
  mkChannelPlatform "shopify" "shopify".

(** A platform that accepts every purchase. *)
Definition acceptingAdapters : Adapters :=
  mkAdapters
    (fun _ _ _ _ => Returned (mkPurchaseResult "" "P-1" "https://channel/orders/P-1"))
    (fun _ _ _ _ => Returned tt)
    (fun _ _ _ _ => Returned (Some (mkProduct "10.00" "img" "Widget")))
    (fun _ _ _ _ _ => Returned tt).

(** A platform whose create-purchase answer carries neither a purchase id
    nor an error, for instance the JSON body [{}] of an HTTP adapter. *)
Definition silentAdapters : Adapters :=
  mkAdapters
    (fun _ _ _ _ => Returned (mkPurchaseResult "" "" ""))
    (fun _ _ _ _ => Returned tt)
    (fun _ _ _ _ => Returned (Some (mkProduct "10.00" "img" "Widget")))
    (fun _ _ _ _ _ => Returned tt).

(** A platform that rejects every purchase and whose storefront call
    fails. *)
Definition failingAdapters : Adapters :=
  mkAdapters
    (fun _ _ _ _ => Returned (mkPurchaseResult "out of stock" "" ""))
    (fun _ _ _ _ => Threw "storefront unreachable")
    (fun _ _ _ _ => Threw "product lookup failed")
    (fun _ _ _ _ _ => Threw "tracking rejected").

(** Purchases are accepted, but the storefront cannot be reached. *)
Definition storefrontDownAdapters : Adapters :=
  mkAdapters
    (fun _ _ _ _ => Returned (mkPurchaseResult "" "P-1" "https://channel/orders/P-1"))
    (fun _ _ _ _ => Threw "storefront unreachable")
    (fun _ _ _ _ => Returned (Some (mkProduct "10.00" "img" "Widget")))
    (fun _ _ _ _ _ => Returned tt).

Definition sampleOrder (status : string) : Order :=
  mkOrder 1 (Some 9) (Some 5) "SO-1" status "" true true true.

Definition sampleCartItem (id channel : Id) (url purchaseId status : string)
  : CartItem :=
  mkCartItem id (Some 1) (Some channel) (Some 9) "Widget" "img" "10.00" 1
    "p1" "v1" "" "" url "" purchaseId status.

(** One order with one unplaced cart item on channel 7. *)
Definition oneItemWorld : World :=
  mkWorld [sampleOrder "PENDING"] []
    [sampleCartItem 10 7 "" "" "PENDING"] [] [] [] [] []
    [mkShop 5 "sequential" (Some noShopPlatform)]
    [mkChannel 7 "channel.example" (Some sampleChannelPlatform)]
    100 [].

(** One order with a placed item on channel 7 and an unplaced one on
    channel 8. *)
Definition twoItemWorld : World :=
  mkWorld [sampleOrder "PENDING"] []
    [sampleCartItem 10 7 "https://channel/orders/P-0" "P-0" "PENDING";
     sampleCartItem 11 8 "" "" "PENDING"] [] [] [] [] []
    [mkShop 5 "sequential" (Some noShopPlatform)]
    [mkChannel 7 "channel.example" (Some sampleChannelPlatform);
     mkChannel 8 "other.example" (Some sampleChannelPlatform)]
    100 [].

Definition statusOf (orderId : Id) (w : World) : option string :=
  option_map o_status (find (fun o => Nat.eqb (o_id o) orderId) (orders w)).

Definition cancelledThenPlaced : World :=
  fst (placeMultipleOrders acceptingAdapters [1]
         (fst (cancelOrder 1 oneItemWorld))).

(** ** Vocabulary of the statements *)

(** A computation is stable for a relation on worlds when every run,
    returning or throwing, ends in a related world. *)
Definition stable (R : World -> World -> Prop) {A} (c : M A) : Prop :=
  forall w, R w (fst (c w)).

(** Neither [purchaseId] nor [url] is set. *)
Definition blank (c : CartItem) : bool :=
  String.eqb (ci_purchaseId c) "" && String.eqb (ci_url c) "".

Definition sameIdAnd (P : CartItem -> CartItem -> Prop) (c c' : CartItem)
  : Prop := ci_id c = ci_id c' /\ P c c'.

(** Only cart items whose id is in [S] are rewritten, and only they are
    handed to the create-purchase adapter. *)
Definition touchesOnly (S : list Id) (w w' : World) : Prop :=
  Forall2 (sameIdAnd (fun c c' => ~ In (ci_id c) S -> c' = c))
          (cartItems w) (cartItems w')
  /\ exists evs,
       trace w' = trace w ++ evs
       /\ forall ch items x,
            In (CreatePurchaseCall ch items) evs -> In x items ->
            In (ci_id x) S.

(** Cart items that are not blank stay as they are, and no create-purchase
    call lists an item that carries the id of one of them. *)
Definition sparesPlaced (w w' : World) : Prop :=
  Forall2 (sameIdAnd (fun c c' => blank c = false -> c' = c))
          (cartItems w) (cartItems w')
  /\ exists evs,
       trace w' = trace w ++ evs
       /\ forall ch items x c,
            In (CreatePurchaseCall ch items) evs -> In x items ->
            In c (cartItems w) -> blank c = false ->
            ci_id x <> ci_id c.

(** Primary keys of the CartItem table. *)
Definition uniqueIds (w : World) : Prop := NoDup (map ci_id (cartItems w)).

Definition sparesPlacedIfUnique (w w' : World) : Prop :=
  uniqueIds w -> sparesPlaced w w'.

Definition orderRow (orderId : Id) (w : World) : option Order :=
  find (fun o => Nat.eqb (o_id o) orderId) (orders w).

(** What is left of the order's cart after a run: the recount. *)
Definition remaining (orderId : Id) (w : World) : nat :=
  List.length (filter (unplaced orderId) (cartItems w)).

(** The CartItem ids and the Order and Shop tables are the same. *)
Definition sameRows (w w' : World) : Prop :=
  map ci_id (cartItems w') = map ci_id (cartItems w)
  /\ orders w' = orders w
  /\ shops w' = shops w.

Definition addCartWarning (msg : string) : Event :=
  ConsoleLog ("Warning: Add cart to platform order function failed: " ++ msg).

(** An order still PENDING whose only cart item is already placed. *)
Definition placedPendingWorld : World :=
  mkWorld [sampleOrder "PENDING"] []
    [sampleCartItem 10 7 "https://channel/orders/P-0" "P-0" "PENDING"]
    [] [] [] [] []
    [mkShop 5 "sequential" (Some noShopPlatform)]
    [mkChannel 7 "channel.example" (Some sampleChannelPlatform)]
    100 [].

(** The storefront's add-to-platform-order operation throws whatever it
    is asked. *)
Definition alwaysFails (A : Adapters) (msg : string) : Prop :=
  forall t p o cs, addCartToPlatformOrderFunction A t p o cs = Threw msg.





(** The spec's reading of the next rank: one more than the largest rank
    among the given links, and 1 when there are none. *)
Definition maxRankPlusOne (ls : list Link) : Z :=
  (fold_right Z.max 0 (map l_rank ls) + 1)%Z.

(** A signed-in user who owns what they create and holds the Match
    permissions of the default role. *)
Definition aliceSession : Session :=
  mkSession 9 false false false true true false false false false false false.

Definition alice : Context := mkContext false (Some aliceSession).

(** The same user with a role that may also query shops and channels and
    create and manage links. *)
Definition merchantSession : Session :=
  mkSession 9 false false false true true false true true false true true.

Definition merchant : Context := mkContext false (Some merchantSession).

Definition linkTo (channel : Id) : LinkData :=
  mkLinkData (Some 5) (Some channel) None None.

(** Shop 5 and the channels 7, 8 and 9, without any link. *)
Definition linkBase : World :=
  mkWorld [] [] [] [] [] [] [] []
    [mkShop 5 "sequential" (Some noShopPlatform)]
    [mkChannel 7 "a.example" (Some sampleChannelPlatform);
     mkChannel 8 "b.example" (Some sampleChannelPlatform);
     mkChannel 9 "c.example" (Some sampleChannelPlatform)]
    100 [].

(** Three links are created on shop 5 and the second one is deleted. *)
Definition linksAfterDelete : World :=
  fst ((Link_createOne merchant (linkTo 7) ;;
        second <- Link_createOne merchant (linkTo 8) ;;
        Link_createOne merchant (linkTo 9) ;;
        Link_deleteOne merchant (l_id second)) linkBase).

(** ** Vocabulary for the link resolver *)

Definition sampleLineItem (id : Id) (productId : string) : LineItem :=
  mkLineItem id (Some 1) (Some 9) "Widget" "img" (Some 10%float) 1 productId
    "v1" "" "".

(** The storefront of the spec's example in link mode [mode]: the
    links A (rank 1, to channel 7), B (rank 2, to channel 8) and C (rank 3,
    to channel 9), stored out of rank order, and order 1 with two line
    items. *)
Definition linkWorld (mode : string) : World :=
  mkWorld [sampleOrder "PENDING"]
    [sampleLineItem 20 "p1"; sampleLineItem 21 "p2"] [] [] [] []
    [mkLink 33 (Some 5) (Some 9) (Some 9) 3;
     mkLink 31 (Some 5) (Some 7) (Some 9) 1;
     mkLink 32 (Some 5) (Some 8) (Some 9) 2]
    []
    [mkShop 5 mode (Some noShopPlatform)]
    [mkChannel 7 "a.example" (Some sampleChannelPlatform);
     mkChannel 8 "b.example" (Some sampleChannelPlatform);
     mkChannel 9 "c.example" (Some sampleChannelPlatform)]
    100 [].

(** ** Vocabulary for the match resolver *)

(** The ids of the ShopItems behind a Match's input, as the caller reads
    them. *)
Definition inputIds (ctx : Context) (w : World) (m : Match) : list Id :=
  map si_id (Match_input_as ctx w m).

Definition sameIds (a b : list Id) : Prop :=
  forall id, In id a <-> In id b.

Definition connectOnly (ids : list Id) : MatchData :=
  mkMatchData (Some (mkRelInput None (Some ids) None))
              (Some (mkRelInput None (Some []) None)) None.

(** Alice owns ShopItem 40 (p1, v1, 1) of shop 5 and two Matches: 50 on
    that item and 51 with no input at all. *)
Definition matchWorld : World :=
  mkWorld [] [] []
    [mkShopItem 40 "p1" "v1" 1 (Some 5) (Some 9);
     mkShopItem 41 "p2" "v1" 1 (Some 5) (Some 9)]
    [] [mkMatch 50 (Some 9) [40] []; mkMatch 51 (Some 9) [] []]
    [] [] [] [] 100 [].

(** Some Match that the caller can read has exactly the ids [ids] as its
    input. *)
Definition duplicates (ctx : Context) (w : World) (ids : list Id) : Prop :=
  exists m,
    In m (matches w)
    /\ canReadMatches ctx (m_user m) = true
    /\ NoDup (inputIds ctx w m)
    /\ sameIds (inputIds ctx w m) ids.

(** The relations of the data carry no [create]. *)
Definition connectsOnly (d : MatchData) : Prop :=
  (forall input, md_input d = Some input -> rel_create input = None)
  /\ (forall output, md_output d = Some output -> rel_create output = None).

(** The first Match found for a line item on its own. *)
Definition firstSingle (ctx : Context) (userId : Id) (w : World)
    (li : LineItem) : option Match :=
  match singleAllMatches ctx userId li w with
  | m :: _ => Some m
  | [] => None
  end.


(** The Order, Match and ShopItem tables are the same. *)
Definition sameOrders (w w' : World) : Prop := orders w' = orders w.



(** Order 1 of shop 5 has the line item p1.  Alice owns two Matches for
    (p1, v1, 1): Match 52 on ShopItem 42 of shop 6, stored first, and
    Match 50 on ShopItem 40 of shop 5. *)
Definition twoRecipesWorld : World :=
  mkWorld [sampleOrder "PENDING"] [sampleLineItem 20 "p1"]
    [sampleCartItem 10 7 "" "" "PENDING"]
    [mkShopItem 42 "p1" "v1" 1 (Some 6) (Some 9);
     mkShopItem 40 "p1" "v1" 1 (Some 5) (Some 9)]
    [mkChannelItem 60 "p1" "v1" 1 "10.00" (Some 7) (Some 9)]
    [mkMatch 52 (Some 9) [42] [60]; mkMatch 50 (Some 9) [40] [60]]
    [] []
    [mkShop 5 "sequential" (Some noShopPlatform)]
    [mkChannel 7 "channel.example" (Some sampleChannelPlatform)]
    100 [].

(** The same store with Match 50 alone. *)
Definition oneRecipeWorld : World :=
  mkWorld [sampleOrder "PENDING"] [sampleLineItem 20 "p1"]
    [sampleCartItem 10 7 "" "" "PENDING"]
    [mkShopItem 40 "p1" "v1" 1 (Some 5) (Some 9)]
    [mkChannelItem 60 "p1" "v1" 1 "10.00" (Some 7) (Some 9)]
    [mkMatch 50 (Some 9) [40] [60]]
    [] []
    [mkShop 5 "sequential" (Some noShopPlatform)]
    [mkChannel 7 "channel.example" (Some sampleChannelPlatform)]
    100 [].

(** The rows of [items] get the outcome [url], [error], [purchaseId]. *)
Definition withOutcome (items : list CartItem) (url error purchaseId : string)
    (c : CartItem) : CartItem :=
  if includes (map ci_id items) (ci_id c)
  then set_outcome url error purchaseId c else c.

(** The two states the spec allows for an attempted cart item. *)
Definition settled (c : CartItem) : Prop :=
  (truthy (ci_purchaseId c) = true /\ ci_error c = "")
  \/ (ci_purchaseId c = ""
      /\ exists detail : string,
           ci_error c = ("ORDER_PLACEMENT_ERROR: " ++ detail)%string).

(** ** features/keystone/extendGraphqlSchema/mutations/cancelPurchase.ts

    As [cancelOrder], the mutation is given a handle that reads and
    updates every row. *)

Definition cancelPurchase (purchaseId : string) : M string :=
  try_catch
    (w <- get_world ;;
     for_of (filter (fun c => String.eqb (ci_purchaseId c) purchaseId)
                    (cartItems w)) tt
       (fun _ cartItem =>
          CartItem_updateOne (ci_id cartItem) (set_ci_status "CANCELLED") ;;
          ret tt) ;;
     ret "Purchase cancelled successfully")
    (fun error =>
       throw (Error ("Failed to cancel purchase: " ++ message error))).

(** ** Vocabulary for cancellation and for batches of orders *)

(** The rows selected by [p] are CANCELLED, the others are as they were. *)
Definition cancelWhere (p : CartItem -> bool) (l : list CartItem)
  : list CartItem :=
  map (fun c => if p c then set_ci_status "CANCELLED" c else c) l.

(** The order [orderId] carries the status [s]. *)
Definition withOrderStatus (orderId : Id) (s : string) (l : list Order)
  : list Order :=
  map (fun o => if Nat.eqb (o_id o) orderId then set_status s o else o) l.

(** The cart item belongs to one of the orders [ids]. *)
Definition inOrders (ids : list Id) (c : CartItem) : bool :=
  existsb (opt_eqb (ci_order c)) ids.

(** The Order table holds the same ids, in the same positions. *)
Definition sameOrderIds (w w' : World) : Prop :=
  map o_id (orders w') = map o_id (orders w).

(** Orders whose id is not in [ids] are as they were. *)
Definition sparesOrdersOutside (ids : list Id) (w w' : World) : Prop :=
  Forall2 (fun o o' => o_id o = o_id o' /\ (~ In (o_id o) ids -> o' = o))
          (orders w) (orders w').

(** Two orders, each with one unplaced cart item on channel 7. *)
Definition twoOrderWorld : World :=
  mkWorld [sampleOrder "PENDING";
           mkOrder 2 (Some 9) (Some 5) "SO-2" "PENDING" "" true true true] []
    [sampleCartItem 10 7 "" "" "PENDING";
     mkCartItem 12 (Some 2) (Some 7) (Some 9) "Gadget" "img" "5.00" 2
       "p2" "v1" "" "" "" "" "" "PENDING"] [] [] [] [] []
    [mkShop 5 "sequential" (Some noShopPlatform)]
    [mkChannel 7 "channel.example" (Some sampleChannelPlatform)]
    100 [].

(** Cart items selected by [keep] stay as they are, and no create-purchase
    call lists an item that carries the id of one of them. *)
Definition sparesWhere (keep : CartItem -> bool) (w w' : World) : Prop :=
  Forall2 (sameIdAnd (fun c c' => keep c = true -> c' = c))
          (cartItems w) (cartItems w')
  /\ exists evs,
       trace w' = trace w ++ evs
       /\ forall ch items x c,
            In (CreatePurchaseCall ch items) evs -> In x items ->
            In c (cartItems w) -> keep c = true ->
            ci_id x <> ci_id c.

Definition sparesWhereIfUnique (keep : CartItem -> bool) (w w' : World)
  : Prop := uniqueIds w -> sparesWhere keep w w'.

(** ** Vocabulary for the link resolver: misses *)

(** The order [orderId] carries the error [e]. *)
Definition withOrderError (orderId : Id) (e : string) (l : list Order)
  : list Order :=
  map (fun o => if Nat.eqb (o_id o) orderId then set_error e o else o) l.

(** ** Vocabulary for the match resolver: what a run adds to the cart *)

(** A cart item as the match resolver creates it for the order: not
    placed, PENDING, and with either no error or the note that the price
    it carries differs from the saved one. *)
Definition freshFor (orderId : Id) (c : CartItem) : Prop :=
  ci_order c = Some orderId
  /\ blank c = true
  /\ ci_status c = "PENDING"
  /\ (ci_error c = ""
      \/ exists saved : string,
           saved <> ci_price c
           /\ ci_error c = priceChange saved (ci_price c)).

(** The cart only grew, by items that are fresh for the order. *)
Definition appendsCart (orderId : Id) (w w' : World) : Prop :=
  exists new,
    cartItems w' = cartItems w ++ new /\ Forall (freshFor orderId) new.

(** The order [orderId] was rewritten by [f]. *)
Definition updatedOrders (orderId : Id) (f : Order -> Order) (l : list Order)
  : list Order :=
  map (fun o => if Nat.eqb (o_id o) orderId then f o else o) l.

(** What the hook writes on the order when match processing threw. *)
Definition matchFailure (e : Exn) (o : Order) : Order :=
  set_status "PENDING"
    (set_error ("Match processing failed: " ++ message e) o).

(** Order 1 with the single line item p1, and no Match in the store. *)
Definition loneItemWorld : World :=
  mkWorld [sampleOrder "PENDING"] [sampleLineItem 20 "p1"] [] [] [] [] [] []
    [mkShop 5 "sequential" (Some noShopPlatform)]
    [mkChannel 7 "channel.example" (Some sampleChannelPlatform)]
    100 [].

(** Order 1 as its create hook sees it when linking is switched off. *)
Definition unlinkedOrder : Order :=
  mkOrder 1 (Some 9) (Some 5) "SO-1" "PENDING" "" false true true.

(** ** features/keystone/extendGraphqlSchema/mutations/addToCart.ts *)

(** A number inside a template literal. *)
Definition showZ (z : Z) : string := NilZero.string_of_int (Z.to_int z).

(** The [where] of the lookup: the open line of this product on this
    order, channel and user. *)
Definition sameLine (orderId channelId userId : Id)
    (productId variantId : string) (c : CartItem) : bool :=
  opt_eqb (ci_order c) orderId
  && opt_eqb (ci_channel c) channelId
  && opt_eqb (ci_user c) userId
  && String.eqb (ci_productId c) productId
  && String.eqb (ci_variantId c) variantId
  && negb (String.eqb (ci_status c) "CANCELLED")
  && String.eqb (ci_purchaseId c) ""
  && String.eqb (ci_url c) "".

Definition set_quantity (q : Z) (c : CartItem) : CartItem :=
  mkCartItem (ci_id c) (ci_order c) (ci_channel c) (ci_user c) (ci_name c)
    (ci_image c) (ci_price c) q (ci_productId c) (ci_variantId c) (ci_sku c)
    (ci_lineItemId c) (ci_url c) (ci_error c) (ci_purchaseId c) (ci_status c).

(** [quantity] is what [parseInt(quantity, 10)] yields: an integer, or
    [None] for [NaN].  The rows the lookup returns belong to the caller,
    so the CartItem query and update filters let them through.  The new
    quantity is an [Int] of the update's input: GraphQL refuses [NaN] and
    a number outside the 32-bit range. *)
Definition addToCart (ctx : Context) (channelId : Id)
    (image name price productId variantId : string) (quantity : option Z)
    (orderId : Id) : M (option Order) :=
  match ctx_session ctx with
  | None => throw (Error "You must be logged in to do this!")
  | Some session =>
      w <- get_world ;;
      match filter (sameLine orderId channelId (itemId session)
                      productId variantId) (cartItems w) with
      | existingCartItem :: _ =>
          emit (ConsoleLog ("There are already "
                            ++ showZ (ci_quantity existingCartItem)
                            ++ ", increment by 1!")) ;;
          match quantity with
          | None => throw inputError
          | Some q =>
              if int32 (ci_quantity existingCartItem + q)
              then
                CartItem_updateOne (ci_id existingCartItem)
                  (set_quantity (ci_quantity existingCartItem + q)) ;;
                Order_findOne_as ctx orderId
              else throw inputError
          end
      | [] =>
          match quantity with
          | None => throw inputError
          | Some q =>
              CartItem_createOne_as ctx (fun id =>
                mkCartItem id (Some orderId) (Some channelId)
                  (Some (itemId session)) name image price q productId
                  variantId "" "" "" "" "" "PENDING") ;;
              Order_findOne_as ctx orderId
          end
      end
  end.

(** ** Vocabulary for tracking and for the cart *)



(** Every id of the CartItem table was handed out by the store. *)
Definition cartIdsBelowNext (w : World) : Prop :=
  forall c, In c (cartItems w) -> ci_id c < nextId w.

(** ** features/keystone/lib/api-key-scopes.ts and [hasPermission] of
    features/keystone/access.ts

    These functions are pure; an exception is the [Throw] of [Result]. *)

Definition SCOPE_TO_PERMISSIONS : list (string * list string) :=
  [("read_orders", ["canSeeOtherOrders"]);
   ("write_orders", ["canSeeOtherOrders"; "canManageOrders"; "canProcessOrders"]);
   ("read_products", []);
   ("write_products", []);
   ("read_shops", ["canSeeOtherShops"]);
   ("write_shops", ["canSeeOtherShops"; "canManageShops"; "canCreateShops"]);
   ("read_channels", ["canSeeOtherChannels"]);
   ("write_channels",
    ["canSeeOtherChannels"; "canManageChannels"; "canCreateChannels"]);
   ("read_matches", ["canSeeOtherMatches"]);
   ("write_matches",
    ["canSeeOtherMatches"; "canManageMatches"; "canCreateMatches"]);
   ("read_links", ["canSeeOtherLinks"]);
   ("write_links", ["canSeeOtherLinks"; "canManageLinks"; "canCreateLinks"]);
   ("read_platforms", ["canViewPlatformMetrics"]);
   ("write_platforms", ["canViewPlatformMetrics"; "canManagePlatforms"]);
   ("read_webhooks", ["canManageWebhooks"]);
   ("write_webhooks", ["canManageWebhooks"]);
   ("read_analytics", ["canAccessAnalytics"; "canExportData"]);
   ("read_users", ["canSeeOtherUsers"]);
   ("write_users",
    ["canSeeOtherUsers"; "canEditOtherUsers"; "canManageUsers";
     "canManageRoles"])].

(** The properties an object literal inherits from [Object.prototype].
    Each is a function or an object, so it is truthy and has no
    [forEach]. *)
Definition inheritedProperties : list string :=
  ["constructor"; "hasOwnProperty"; "isPrototypeOf"; "propertyIsEnumerable";
   "toLocaleString"; "toString"; "valueOf"; "__defineGetter__";
   "__defineSetter__"; "__lookupGetter__"; "__lookupSetter__"; "__proto__"].

Inductive Property :=
| OwnValue (permissions : list string)
| InheritedValue
| Undefined.

(** [SCOPE_TO_PERMISSIONS[scope]] *)
Definition scopeProperty (scope : string) : Property :=
  match find (fun entry => String.eqb (fst entry) scope) SCOPE_TO_PERMISSIONS with
  | Some entry => OwnValue (snd entry)
  | None =>
      if existsb (String.eqb scope) inheritedProperties
      then InheritedValue else Undefined
  end.

(** [Set.prototype.add] on a set kept in insertion order. *)
Definition set_add (permissions6 : list string) (permission : string)
  : list string :=
  if existsb (String.eqb permission) permissions6
  then permissions6 else permissions6 ++ [permission].

Fixpoint forEachScope (scopes5 : list string) (permissions6 : list string)
  : Result (list string) :=
  match scopes5 with
  | [] => Ok permissions6
  | scope :: rest =>
      match scopeProperty scope with
      | OwnValue scopePermissions =>
          forEachScope rest (fold_left set_add scopePermissions permissions6)
      | InheritedValue =>
          Throw (TypeError "scopePermissions.forEach is not a function")
      | Undefined => forEachScope rest permissions6
      end
  end.

Definition getPermissionsForApiKeyScopes (scopes5 : list string)
  : Result (list string) :=
  forEachScope scopes5 [].

Definition hasApiKeyPermission (scopes5 : list string) (permission : string)
  : Result bool :=
  match getPermissionsForApiKeyScopes scopes5 with
  | Ok permissions6 => Ok (existsb (String.eqb permission) permissions6)
  | Throw e => Throw e
  end.

(** What the permission checks read of a session: the scopes of the API
    key it came from, if any, and the flags of the user's role. *)
Record KeySession := mkKeySession {
  apiKeyScopes : option (list string);
  role : option (string -> bool)
}.

Definition checkApiKeyPermission (session : option KeySession)
    (permission : string) : Result bool :=
  match session with
  | Some s =>
      match apiKeyScopes s with
      | Some scopes5 => hasApiKeyPermission scopes5 permission
      | None => Ok false
      end
  | None => Ok false
  end.

Definition hasPermission (session : option KeySession) (permission : string)
  : Result bool :=
  match session with
  | Some s =>
      match apiKeyScopes s with
      | Some _ => checkApiKeyPermission session permission
      | None =>
          Ok (match role s with Some r => r permission | None => false end)
      end
  | None => Ok false
  end.

(** Some scope of the list is a key of the table and lists the
    permission. *)
Definition grantedBy (scopes5 : list string) (permission : string) : Prop :=
  exists scope scopePermissions,
    In scope scopes5
    /\ scopeProperty scope = OwnValue scopePermissions
    /\ In permission scopePermissions.

(** A session of an administrator reached through an API key. *)
Definition adminKeySession (scopes5 : list string) : KeySession :=
  mkKeySession (Some scopes5) (Some (fun _ => true)).

(** ** Vocabulary for the lookup of ShopItems *)



(** ** Vocabulary for the calls a placement run makes *)

(** The create-purchase calls of a trace, in order: the channel and the
    cart items handed over. *)
Fixpoint purchaseCalls (t : list Event) : list (Id * list CartItem) :=
  match t with
  | [] => []
  | CreatePurchaseCall ch items :: t' => (ch, items) :: purchaseCalls t'
  | _ :: t' => purchaseCalls t'
  end.

(** No create-purchase call was made. *)
Definition sameCalls (w w' : World) : Prop :=
  purchaseCalls (trace w') = purchaseCalls (trace w).

(** The call that placing on a target channel makes. *)
Definition callOf (target : Channel * list CartItem) : Id * list CartItem :=
  (ch_id (fst target), snd target).

(** ** features/integrations/lib/salesforce/common.ts: the PKCE verifier
    store and the escaping of search terms

    The module-level Maps [pkceStore] and [pkceAliases] are the state.  A
    Map is taken as the partial function from keys to values that it
    denotes: these functions never observe the order of its entries.
    [Date.now()] is the argument [now].  Console output is not
    modelled. *)

Definition StringMap (V : Type) : Type := string -> option V.

Definition map_empty {V} : StringMap V := fun _ => None.

Definition map_get {V} (m : StringMap V) (key : string) : option V := m key.

Definition map_set {V} (m : StringMap V) (key : string) (v : V)
  : StringMap V :=
  fun k => if String.eqb k key then Some v else m k.

Definition map_delete {V} (m : StringMap V) (key : string) : StringMap V :=
  fun k => if String.eqb k key then None else m k.

(** [for (const [k, v] of m.entries()) if (drop(k, v)) m.delete(k)] *)
Definition map_deleteWhere {V} (m : StringMap V) (drop : string -> V -> bool)
  : StringMap V :=
  fun k =>
    match m k with
    | Some v => if drop k v then None else Some v
    | None => None
    end.

Record PkceStoreEntry := mkPkceStoreEntry {
  pe_verifier : string;
  pe_expiresAt : Z
}.

Record PkceState := mkPkceState {
  pkceStore : StringMap PkceStoreEntry;
  pkceAliases : StringMap string
}.

Definition PKCE_STORE_TTL_MS : Z := 5 * 60 * 1000.

Definition storePkceVerifier (now : Z) (key : option string)
    (verifier : string) (ttlMs : option Z) (alias : option string)
    (s : PkceState) : PkceState :=
  match key with
  | Some k =>
      if negb (truthy k) || negb (truthy verifier) then s
      else
        let store :=
          map_set (pkceStore s) k
            (mkPkceStoreEntry verifier
               (now + or_default ttlMs PKCE_STORE_TTL_MS)) in
        match alias with
        | Some a =>
            if truthy a && negb (String.eqb a k)
            then mkPkceState store (map_set (pkceAliases s) a k)
            else mkPkceState store (pkceAliases s)
        | None => mkPkceState store (pkceAliases s)
        end
  | None => s
  end.

(** The key under which the entry is stored, and the entry: looked up
    directly first, then through the alias table. *)
Definition resolvePkceEntry (key : string) (s : PkceState)
  : string * option PkceStoreEntry :=
  match map_get (pkceStore s) key with
  | Some entry => (key, Some entry)
  | None =>
      match map_get (pkceAliases s) key with
      | Some aliasTarget =>
          if truthy aliasTarget
          then (aliasTarget, map_get (pkceStore s) aliasTarget)
          else (key, None)
      | None => (key, None)
      end
  end.

Definition consumePkceVerifier (now : Z) (key : option string)
    (s : PkceState) : PkceState * option string :=
  match key with
  | None => (s, None)
  | Some k =>
      if negb (truthy k) then (s, None)
      else
        match resolvePkceEntry k s with
        | (_, None) => (s, None)
        | (entryKey, Some entry) =>
            let s' :=
              mkPkceState
                (map_delete (pkceStore s) entryKey)
                (map_deleteWhere (pkceAliases s)
                   (fun alias target =>
                      String.eqb target entryKey
                      || String.eqb alias entryKey)) in
            if Z.leb (pe_expiresAt entry) now
            then (s', None)
            else (s', Some (pe_verifier entry))
        end
  end.

Definition backslash : Ascii.ascii := "\"%char.

Definition isSoqlSpecial (c : Ascii.ascii) : bool :=
  Ascii.eqb c backslash || Ascii.eqb c "'"%char || Ascii.eqb c "_"%char
  || Ascii.eqb c "%"%char.

(** [term.replace(/[\\'_%]/g, (char) => "\\" + char)] *)
Fixpoint escapeSoqlLike (term : string) : string :=
  match term with
  | EmptyString => EmptyString
  | String c rest =>
      if isSoqlSpecial c
      then String backslash (String c (escapeSoqlLike rest))
      else String c (escapeSoqlLike rest)
  end.

Definition buildLike (term : string) : string :=
  "%" ++ escapeSoqlLike term ++ "%".

(** A string made of plain characters and of pairs of a backslash and
    one of the four special characters. *)
Fixpoint escapedOnly (s : string) : bool :=
  match s with
  | EmptyString => true
  | String c rest =>
      if Ascii.eqb c backslash
      then match rest with
           | String d rest' => isSoqlSpecial d && escapedOnly rest'
           | EmptyString => false
           end
      else negb (isSoqlSpecial c) && escapedOnly rest
  end.

Definition emptyPkceState : PkceState := mkPkceState map_empty map_empty.

(** ** Vocabulary for the cart items of a Match *)

(** The cart item is the output ChannelItem put on the order: same
    channel, product, variant, quantity and user. *)
Definition fromOutput (orderId : Id) (out : ChannelItem) (c : CartItem)
  : Prop :=
  ci_order c = Some orderId
  /\ ci_channel c = chi_channel out
  /\ ci_user c = chi_user out
  /\ ci_productId c = chi_productId out
  /\ ci_variantId c = chi_variantId out
  /\ ci_quantity c = chi_quantity out.

(** The output ChannelItem sits on a channel that the caller can read
    and that has a platform, it belongs to a user that the caller can
    read, and its quantity fits an [Int]. *)
Definition purchasable (ctx : Context) (w : World) (out : ChannelItem)
  : Prop :=
  exists cid channel uid,
    chi_channel out = Some cid
    /\ Channel_findOne_as ctx cid w = Some channel
    /\ ch_platform channel <> None
    /\ chi_user out = Some uid
    /\ canReadPeople ctx uid = true
    /\ int32 (chi_quantity out) = true.

(** The channels answer every product lookup with a product that has a
    title. *)
Definition productsFound (A : Adapters) : Prop :=
  forall t ch productId variantId,
    exists product,
      getProductFunction A t ch productId variantId = Returned (Some product)
      /\ truthy (p_title product) = true.

(** Linking does not apply to the order: it is switched off, or the
    order's storefront, if it has one, has no link. *)
Definition notLinked (item order : Order) (w : World) : Prop :=
  o_linkOrder item = false
  \/ forall shop, shopOf order w = Some shop -> shopLinks shop w = [].

(** The three outcome fields of a cart item. *)
Definition outcomeOf (c : CartItem) : string * string * string :=
  (ci_url c, ci_error c, ci_purchaseId c).

(** The outputs of the first Match found for a line item on its own. *)
Definition singleOutputs (ctx : Context) (userId : Id) (w : World)
    (li : LineItem) : list ChannelItem :=
  match firstSingle ctx userId w li with
  | Some m => Match_output_as ctx w m
  | None => []
  end.

(** Order 1 has the line items p1 and p2; alice has one Match for each on
    its own and none for the two together. *)
Definition twoSinglesWorld : World :=
  mkWorld [sampleOrder "PENDING"]
    [sampleLineItem 20 "p1"; sampleLineItem 21 "p2"] []
    [mkShopItem 40 "p1" "v1" 1 (Some 5) (Some 9);
     mkShopItem 41 "p2" "v1" 1 (Some 5) (Some 9)]
    [mkChannelItem 60 "c1" "w1" 1 "10.00" (Some 7) (Some 9);
     mkChannelItem 61 "c2" "w1" 3 "10.00" (Some 7) (Some 9)]
    [mkMatch 50 (Some 9) [40] [60]; mkMatch 51 (Some 9) [41] [61]]
    [] []
    [mkShop 5 "sequential" (Some noShopPlatform)]
    [mkChannel 7 "channel.example" (Some sampleChannelPlatform)]
    100 [].

(** ** features/keystone/extendGraphqlSchema/mutations/upsertMatch.ts *)

(** The test of [existingMatches.find]: the Match has exactly the input
    ids [inputIds]. *)
Definition sameInputs (ctx : Context) (w : World) (inputIds : list Id)
    (m : Match) : bool :=
  let matchInputIds := map si_id (Match_input_as ctx w m) in
  Nat.eqb (List.length matchInputIds) (List.length inputIds)
  && forallb (includes inputIds) matchInputIds.

(** The mutation's own [ensureChannelItems]: unlike the hook's it takes
    the first row of a [findMany]. *)
Definition upsert_ensureChannelItems (ctx : Context)
    (items : list ChannelItemData) : M (list Id) :=
  for_of items []
    (fun processedItems item =>
       match cid_channel item with
       | None =>
           throw (TypeError "Cannot read properties of undefined (reading 'connect')")
       | Some channelId =>
           w <- get_world ;;
           let owner := or_id (cid_user item) (sessionId ctx) in
           match find (fun ci =>
                         canReadMatches ctx (chi_user ci)
                         && String.eqb (chi_productId ci) (cid_productId item)
                         && String.eqb (chi_variantId ci) (cid_variantId item)
                         && Z.eqb (chi_quantity ci) (cid_quantity item)
                         && opt_eqb (chi_channel ci) channelId
                         && user_is owner (chi_user ci))
                      (channelItems w) with
           | Some existingItem =>
               ret (processedItems ++ [chi_id existingItem])
           | None =>
               created <- ChannelItem_createOne ctx (fun id =>
                 mkChannelItem id (cid_productId item)
                   (cid_variantId item) (cid_quantity item)
                   (cid_price item) (Some channelId) owner) ;;
               ret (processedItems ++ [chi_id created])
           end
       end).

(** The mutation's own [ensureShopItems] runs the loop of the Match hook
    on [input.create]. *)
Definition upsertMatch (ctx : Context) (data : MatchData) : M Match :=
  match md_input data with
  | None =>
      throw (TypeError "Cannot read properties of undefined (reading 'create')")
  | Some input =>
      match rel_create input with
      | None => throw (TypeError "items is not iterable")
      | Some _ =>
          inputIds <- ensureShopItems ctx (rel_create input) ;;
          match md_output data with
          | None =>
              throw (TypeError "Cannot read properties of undefined (reading 'create')")
          | Some output =>
              match rel_create output with
              | None => throw (TypeError "items is not iterable")
              | Some items =>
                  outputIds <- upsert_ensureChannelItems ctx items ;;
                  w <- get_world ;;
                  match find (sameInputs ctx w inputIds)
                             (existingMatchesSharing ctx inputIds w) with
                  | Some duplicateMatch =>
                      Match_updateOne ctx (m_id duplicateMatch)
                        (mkMatchData None
                           (Some (mkRelInput None (Some outputIds)
                                    (Some (map chi_id
                                             (Match_output_as ctx w
                                                duplicateMatch)))))
                           None) ;;
                      ret duplicateMatch
                  | None =>
                      Match_createOne ctx
                        (mkMatchData
                           (Some (mkRelInput None (Some inputIds) None))
                           (Some (mkRelInput None (Some outputIds) None))
                           None)
                  end
              end
          end
      end
  end.

(** Every exception the computation can throw satisfies [P]. *)
Definition throwsOnly (P : Exn -> Prop) {A} (c : M A) : Prop :=
  forall w, match snd (c w) with Throw e => P e | Ok _ => True end.

Definition notDuplicateError (e : Exn) : Prop := e <> duplicateMatchError.

(** Bob (user 3) may see and manage the Matches of other users. *)
Definition bobSession : Session :=
  mkSession 3 true false false true true false false false false false false.

Definition bob : Context := mkContext false (Some bobSession).

(** [data: { output: { connect: [...] } }]: an update that names outputs
    and nothing else. *)
Definition outputOnly (ids : list Id) : MatchData :=
  mkMatchData None (Some (mkRelInput None (Some ids) None)) None.

(** * Properties *)

Unset Implicit Arguments.

(** ** Placement: two concrete runs *)

(** C2 (the code departs from the claim).  Order 1 holds one unplaced cart
    item.  After [cancelOrder] the order and the item are CANCELLED, yet a
    later placement run still selects the item, hands it to the
    create-purchase adapter, records the purchase on it and moves the
    order from CANCELLED to AWAITING: the selection filters on
    [purchaseId] and [url] only. *)
Theorem cancelled_item_is_still_placed :
  cartItems (fst (cancelOrder 1 oneItemWorld))
    = [sampleCartItem 10 7 "" "" "CANCELLED"]
  /\ statusOf 1 (fst (cancelOrder 1 oneItemWorld)) = Some "CANCELLED"
  /\ In (CreatePurchaseCall 7 [sampleCartItem 10 7 "" "" "CANCELLED"])
        (trace cancelledThenPlaced)
  /\ cartItems cancelledThenPlaced
       = [sampleCartItem 10 7 "https://channel/orders/P-1" "P-1" "CANCELLED"]
  /\ statusOf 1 cancelledThenPlaced = Some "AWAITING".
Proof.
  vm_compute. repeat split; auto.
Qed.

(** C3 (the code departs from the claim).  When the adapter's answer has
    neither [error] nor [purchaseId], neither branch of the pipeline
    writes: the attempted item keeps an empty [purchaseId] and an empty
    [error]. *)
Theorem silent_answer_leaves_both_empty :
  let w := fst (placeMultipleOrders silentAdapters [1] oneItemWorld) in
  trace w = [CreatePurchaseCall 7 [sampleCartItem 10 7 "" "" "PENDING"]]
  /\ map ci_purchaseId (cartItems w) = [""]
  /\ map ci_error (cartItems w) = [""]
  /\ statusOf 1 w = Some "PENDING".
Proof.
  vm_compute. repeat split.
Qed.

(** ** Stability under the combinators of the monad *)

Section Stable.
Variable R : World -> World -> Prop.
Hypothesis R_refl : forall w, R w w.
Hypothesis R_trans : forall a b c, R a b -> R b c -> R a c.

Lemma stable_ret A (a : A) : stable R (ret a).
Proof. intro w. apply R_refl. Qed.

Lemma stable_throw A (e : Exn) : stable R (@throw A e).
Proof. intro w. apply R_refl. Qed.

Lemma stable_get_world : stable R get_world.
Proof. intro w. apply R_refl. Qed.

Lemma stable_outcome A (o : Outcome A) : stable R (outcome o).
Proof. destruct o; intro w; apply R_refl. Qed.

Lemma stable_bind A B (c : M A) (k : A -> M B) :
  stable R c -> (forall a, stable R (k a)) -> stable R (bind c k).
Proof.
  intros Hc Hk w. unfold bind.
  specialize (Hc w). destruct (c w) as [w1 [a|e]]; simpl in *.
  - eapply R_trans; [exact Hc | apply Hk].
  - exact Hc.
Qed.

Lemma stable_try_catch A (c : M A) (h : Exn -> M A) :
  stable R c -> (forall e, stable R (h e)) -> stable R (try_catch c h).
Proof.
  intros Hc Hh w. unfold try_catch.
  specialize (Hc w). destruct (c w) as [w1 [a|e]]; simpl in *.
  - exact Hc.
  - eapply R_trans; [exact Hc | apply Hh].
Qed.

Lemma stable_for_of A S (l : list A) (body : S -> A -> M S) :
  (forall acc x, In x l -> stable R (body acc x)) ->
  forall acc, stable R (for_of l acc body).
Proof.
  induction l as [|x l IH]; intros Hb acc; simpl.
  - apply stable_ret.
  - apply stable_bind.
    + apply Hb. now left.
    + intro acc'. apply IH. intros a y Hy. apply Hb. now right.
Qed.

Lemma stable_if A (b : bool) (c1 c2 : M A) :
  stable R c1 -> stable R c2 -> stable R (if b then c1 else c2).
Proof. destruct b; auto. Qed.
End Stable.

(** ** Lists related position by position *)

Lemma Forall2_same A (P : A -> A -> Prop) (l : list A) :
  (forall a, P a a) -> Forall2 P l l.
Proof. intro H. induction l; constructor; auto. Qed.

Lemma Forall2_compose A (P Q T : A -> A -> Prop) (l1 l2 l3 : list A) :
  (forall a b c, P a b -> Q b c -> T a c) ->
  Forall2 P l1 l2 -> Forall2 Q l2 l3 -> Forall2 T l1 l3.
Proof.
  intros H H12. revert l3.
  induction H12; intros l3 H23; inversion H23; subst; constructor; eauto.
Qed.

Lemma Forall2_weaken_In A (P Q : A -> A -> Prop) (l l' : list A) :
  (forall a b, In a l -> P a b -> Q a b) ->
  Forall2 P l l' -> Forall2 Q l l'.
Proof.
  intros H H2. induction H2; constructor.
  - apply H; [now left | assumption].
  - apply IHForall2. intros a b Ha. apply H. now right.
Qed.

Lemma Forall2_In_left A B (P : A -> B -> Prop) (l : list A) (l' : list B) a :
  Forall2 P l l' -> In a l -> exists b, In b l' /\ P a b.
Proof.
  intros H2. induction H2; intros Ha; [contradiction|].
  destruct Ha as [->|Ha].
  - exists y. split; [now left | assumption].
  - destruct (IHForall2 Ha) as [b [Hb Pb]]. exists b. split; [now right | assumption].
Qed.

Lemma Forall2_In_right A B (P : A -> B -> Prop) (l : list A) (l' : list B) b :
  Forall2 P l l' -> In b l' -> exists a, In a l /\ P a b.
Proof.
  intros H2. induction H2; intros Hb; [contradiction|].
  destruct Hb as [->|Hb].
  - exists x. split; [now left | assumption].
  - destruct (IHForall2 Hb) as [a [Ha Pa]]. exists a. split; [now right | assumption].
Qed.

Lemma Forall2_map_ids (P : CartItem -> CartItem -> Prop) l l' :
  Forall2 (sameIdAnd P) l l' -> map ci_id l' = map ci_id l.
Proof.
  intro H. induction H; simpl; [reflexivity|].
  destruct H as [Hid _]. now rewrite Hid, IHForall2.
Qed.

Lemma NoDup_map_injective_on A B (f : A -> B) (l : list A) a b :
  NoDup (map f l) -> In a l -> In b l -> f a = f b -> a = b.
Proof.
  induction l as [|x l IH]; simpl; intros Hnd Ha Hb Hf; [contradiction|].
  inversion Hnd as [|? ? Hnotin Hnd']; subst.
  destruct Ha as [->|Ha], Hb as [->|Hb]; auto.
  - exfalso. apply Hnotin. rewrite Hf. now apply in_map.
  - exfalso. apply Hnotin. rewrite <- Hf. now apply in_map.
Qed.

(** ** [touchesOnly] and [sparesPlaced] are preorders *)

Lemma touchesOnly_refl S w : touchesOnly S w w.
Proof.
  split.
  - apply Forall2_same. intro a. split; auto.
  - exists []. split; [now rewrite app_nil_r | intros ? ? ? []].
Qed.

Lemma touchesOnly_trans S a b c :
  touchesOnly S a b -> touchesOnly S b c -> touchesOnly S a c.
Proof.
  intros [Hab [e1 [T1 E1]]] [Hbc [e2 [T2 E2]]]. split.
  - eapply Forall2_compose; [| exact Hab | exact Hbc].
    intros x y z [Ixy Pxy] [Iyz Pyz]. split; [congruence|].
    intro Hn. rewrite Pyz; [now apply Pxy | now rewrite <- Ixy].
  - exists (e1 ++ e2). split.
    + now rewrite T2, T1, app_assoc.
    + intros ch items x Hin Hx. apply in_app_or in Hin.
      destruct Hin; [eapply E1 | eapply E2]; eauto.
Qed.

Lemma sparesPlaced_refl w : sparesPlaced w w.
Proof.
  split.
  - apply Forall2_same. intro a. split; auto.
  - exists []. split; [now rewrite app_nil_r | intros ? ? ? ? []].
Qed.

Lemma sparesPlaced_trans a b c :
  sparesPlaced a b -> sparesPlaced b c -> sparesPlaced a c.
Proof.
  intros [Hab [e1 [T1 E1]]] [Hbc [e2 [T2 E2]]]. split.
  - eapply Forall2_compose; [| exact Hab | exact Hbc].
    intros x y z [Ixy Pxy] [Iyz Pyz]. split; [congruence|].
    intro Hn. rewrite Pyz; [now apply Pxy | now rewrite (Pxy Hn)].
  - exists (e1 ++ e2). split.
    + now rewrite T2, T1, app_assoc.
    + intros ch items x r Hin Hx Hr Hb. apply in_app_or in Hin.
      destruct Hin as [Hin|Hin]; [eapply E1; eauto|].
      destruct (@Forall2_In_left _ _ _ _ _ _ Hab Hr) as [r' [Hr' [_ Pr]]].
      rewrite (Pr Hb) in Hr'. eapply E2; eauto.
Qed.

Lemma sparesPlaced_uniqueIds w w' :
  sparesPlaced w w' -> uniqueIds w -> uniqueIds w'.
Proof.
  intros [H _] U. unfold uniqueIds. now rewrite (Forall2_map_ids _ _ _ H).
Qed.

Lemma sparesPlacedIfUnique_refl w : sparesPlacedIfUnique w w.
Proof. intros _. apply sparesPlaced_refl. Qed.

Lemma sparesPlacedIfUnique_trans a b c :
  sparesPlacedIfUnique a b -> sparesPlacedIfUnique b c ->
  sparesPlacedIfUnique a c.
Proof.
  intros Hab Hbc U. eapply sparesPlaced_trans; [now apply Hab|].
  apply Hbc. eapply sparesPlaced_uniqueIds; [now apply Hab | assumption].
Qed.

(** ** The placement pipeline only touches the items it selected *)

Lemma touchesOnly_same S w w' :
  cartItems w' = cartItems w -> trace w' = trace w -> touchesOnly S w w'.
Proof.
  intros Hc Ht. split.
  - rewrite Hc. apply Forall2_same. intro a. split; auto.
  - exists []. split; [now rewrite app_nil_r | intros ? ? ? []].
Qed.

Lemma CartItem_updateOne_touches S id f :
  (forall c, ci_id (f c) = ci_id c) -> In id S ->
  stable (touchesOnly S) (CartItem_updateOne id f).
Proof.
  intros Hf Hid w. unfold CartItem_updateOne.
  destruct (find _ (cartItems w)); simpl; [|apply touchesOnly_refl].
  split; simpl.
  - induction (cartItems w) as [|row l IH]; simpl; constructor; auto.
    destruct (Nat.eqb (ci_id row) id) eqn:E; split; auto.
    intro Hn. apply Nat.eqb_eq in E. subst. contradiction.
  - exists []. split; [now rewrite app_nil_r | intros ? ? ? []].
Qed.

Lemma set_outcome_id url e p c : ci_id (set_outcome url e p c) = ci_id c.
Proof. reflexivity. Qed.

Lemma updateCartItems_touches S items url e p :
  (forall x, In x items -> In (ci_id x) S) ->
  stable (touchesOnly S) (updateCartItems items url e p).
Proof.
  intro H. unfold updateCartItems.
  apply stable_for_of; [apply touchesOnly_refl | apply touchesOnly_trans |].
  intros acc x Hx.
  apply stable_bind; [apply touchesOnly_trans | |].
  - apply CartItem_updateOne_touches; [apply set_outcome_id | now apply H].
  - intro a. apply stable_ret, touchesOnly_refl.
Qed.

Lemma emit_touches S e :
  (forall ch items x, e = CreatePurchaseCall ch items -> In x items ->
                      In (ci_id x) S) ->
  stable (touchesOnly S) (emit e).
Proof.
  intros H w. split; simpl.
  - apply Forall2_same. intro a. split; auto.
  - exists [e]. split; [reflexivity|].
    intros ch items x [->|[]] Hx. eapply H; eauto.
Qed.

Lemma Order_updateOne_touches S id f :
  stable (touchesOnly S) (Order_updateOne id f).
Proof.
  intro w. unfold Order_updateOne.
  destruct (find _ (orders w)); simpl; [|apply touchesOnly_refl].
  now apply touchesOnly_same.
Qed.

Ltac stable_step S :=
  first
    [ apply stable_ret; apply touchesOnly_refl
    | apply stable_throw; apply touchesOnly_refl
    | apply stable_get_world; apply touchesOnly_refl
    | apply stable_outcome; apply touchesOnly_refl
    | apply Order_updateOne_touches
    | apply stable_bind; [apply touchesOnly_trans | | intro]
    | apply stable_try_catch; [apply touchesOnly_trans | | intro]
    | apply stable_if ].

Lemma addCartToPlatformOrder_touches S A o :
  stable (touchesOnly S) (addCartToPlatformOrder A o).
Proof.
  unfold addCartToPlatformOrder.
  stable_step S; [stable_step S|].
  destruct (o_shop o); [|stable_step S].
  destruct (find _ (shops a)); [|stable_step S].
  destruct (sh_platform s); [|stable_step S].
  stable_step S; [|stable_step S].
  apply emit_touches. intros; discriminate.
Qed.

Lemma createChannelPurchase_touches S A ch items o :
  (forall x, In x items -> In (ci_id x) S) ->
  stable (touchesOnly S) (createChannelPurchase A ch items o).
Proof.
  intro H. unfold createChannelPurchase.
  stable_step S; [stable_step S|].
  stable_step S; [|stable_step S].
  apply emit_touches. intros c' i' x Heq Hx. inversion Heq; subst. auto.
Qed.

Lemma CartItem_count_touches S orderId :
  stable (touchesOnly S) (CartItem_count orderId).
Proof. intro w. now apply touchesOnly_same. Qed.

Lemma placeOnChannel_touches S A order orderId processed ch items :
  (forall x, In x items -> In (ci_id x) S) ->
  stable (touchesOnly S) (placeOnChannel A order orderId processed (ch, items)).
Proof.
  intro H. unfold placeOnChannel.
  destruct (o_user order); [|stable_step S].
  destruct (ch_platform ch); [|stable_step S].
  unfold attemptPurchase, recordOutcome, recountAndAdvance.
  repeat first
    [ apply createChannelPurchase_touches; assumption
    | apply updateCartItems_touches; assumption
    | apply CartItem_count_touches
    | apply addCartToPlatformOrder_touches
    | apply emit_touches; intros; discriminate
    | stable_step S ].
Qed.

Lemma targets_items orderId w ch items x :
  In (ch, items) (targets orderId w) -> In x items ->
  In x (cartItems w) /\ blank x = true.
Proof.
  unfold targets, cartChannels. intros Ht Hx.
  apply filter_In in Ht. destruct Ht as [Ht _].
  apply in_map_iff in Ht. destruct Ht as [c [Heq _]].
  inversion Heq; subst. apply filter_In in Hx. destruct Hx as [Hx Hb].
  split; [assumption|].
  unfold unplaced in Hb. unfold blank.
  apply andb_true_iff in Hb. destruct Hb as [_ Hb].
  apply andb_true_iff in Hb. destruct Hb as [Hb1 Hb2].
  apply andb_true_iff in Hb1. destruct Hb1 as [_ Hb1].
  now rewrite Hb1, Hb2.
Qed.

Lemma touchesOnly_blank_spares w w' :
  uniqueIds w ->
  touchesOnly (map ci_id (filter blank (cartItems w))) w w' ->
  sparesPlaced w w'.
Proof.
  intros U [HF [evs [HT HE]]].
  assert (Hout : forall c, In c (cartItems w) -> blank c = false ->
                   ~ In (ci_id c) (map ci_id (filter blank (cartItems w)))).
  { intros c Hc Hb Hin. apply in_map_iff in Hin.
    destruct Hin as [c2 [Hid Hc2]]. apply filter_In in Hc2.
    destruct Hc2 as [Hc2 Hb2].
    assert (c2 = c) by (eapply NoDup_map_injective_on; eauto).
    subst. congruence. }
  split.
  - eapply Forall2_weaken_In; [|exact HF].
    intros a b Ha [Hid P]. split; [assumption|]. intro Hb. apply P. auto.
  - exists evs. split; [assumption|].
    intros ch items x c Hev Hx Hc Hb Heq.
    apply (Hout c Hc Hb). rewrite <- Heq. eapply HE; eauto.
Qed.

Lemma placeOneOrder_spares A processed orderId :
  stable sparesPlacedIfUnique (placeOneOrder A processed orderId).
Proof.
  intros w U. apply touchesOnly_blank_spares; [assumption|].
  set (S := map ci_id (filter blank (cartItems w))).
  unfold placeOneOrder, bind, Order_findOne. simpl.
  destruct (find _ (orders w)) as [order|]; simpl; [|apply touchesOnly_refl].
  apply stable_for_of; [apply touchesOnly_refl | apply touchesOnly_trans |].
  intros acc [ch items] Ht. apply placeOnChannel_touches.
  intros x Hx. destruct (targets_items _ _ _ _ _ Ht Hx) as [Hin Hb].
  unfold S. apply in_map. apply filter_In. auto.
Qed.

Lemma placeMultipleOrders_spares A ids :
  stable sparesPlacedIfUnique (placeMultipleOrders A ids).
Proof.
  unfold placeMultipleOrders.
  apply stable_for_of;
    [apply sparesPlacedIfUnique_refl | apply sparesPlacedIfUnique_trans |].
  intros acc x _. apply placeOneOrder_spares.
Qed.

Lemma truthy_not_blank c :
  truthy (ci_purchaseId c) = true -> blank c = false.
Proof.
  unfold truthy, blank. intro H. apply negb_true_iff in H. now rewrite H.
Qed.

(** C4.  A second run of the placement pipeline lists no cart item that
    the first run left placed in any create-purchase call, and the row of
    such an item (so its [url], [purchaseId] and [error]) is the same
    after the second run. *)
Theorem placement_rerun_spares_placed_items
    (A : Adapters) (ids : list Id) (w : World) (c : CartItem) :
  uniqueIds w ->
  let w1 := fst (placeMultipleOrders A ids w) in
  let w2 := fst (placeMultipleOrders A ids w1) in
  In c (cartItems w1) ->
  truthy (ci_purchaseId c) = true ->
  truthy (ci_url c) = true ->
  (exists evs,
     trace w2 = trace w1 ++ evs
     /\ forall ch items x,
          In (CreatePurchaseCall ch items) evs -> In x items ->
          ci_id x <> ci_id c)
  /\ In c (cartItems w2)
  /\ forall c', In c' (cartItems w2) -> ci_id c' = ci_id c -> c' = c.
Proof.
  intros U w1 w2 Hc Hp _.
  pose proof (placeMultipleOrders_spares A ids) as HS.
  unfold stable, sparesPlacedIfUnique in HS.
  assert (U1 : uniqueIds w1).
  { eapply sparesPlaced_uniqueIds; [|exact U]. now apply HS. }
  destruct (HS w1 U1) as [HF [evs [HT HE]]].
  fold w2 in HF, HT. pose proof (truthy_not_blank c Hp) as Hb.
  repeat split.
  - exists evs. split; [assumption|]. intros ch items x Hev Hx.
    eapply HE; eauto.
  - destruct (@Forall2_In_left _ _ _ _ _ _ HF Hc) as [b [Hb' [_ P]]].
    now rewrite (P Hb) in Hb'.
  - intros c' Hc' Hid.
    destruct (@Forall2_In_right _ _ _ _ _ _ HF Hc') as [a [Ha [Hida P]]].
    assert (a = c).
    { eapply NoDup_map_injective_on; [exact U1 | assumption | assumption |].
      congruence. }
    subst a. now apply P.
Qed.

Lemma placement_rerun_spares_placed_items_witness :
  uniqueIds twoItemWorld
  /\ let c := sampleCartItem 11 8 "https://channel/orders/P-1" "P-1" "PENDING" in
     let w1 := fst (placeMultipleOrders acceptingAdapters [1] twoItemWorld) in
     let w2 := fst (placeMultipleOrders acceptingAdapters [1] w1) in
     (exists evs,
        trace w2 = trace w1 ++ evs
        /\ forall ch items x,
             In (CreatePurchaseCall ch items) evs -> In x items ->
             ci_id x <> ci_id c)
     /\ In c (cartItems w2)
     /\ forall c', In c' (cartItems w2) -> ci_id c' = ci_id c -> c' = c.
Proof.
  assert (U : uniqueIds twoItemWorld).
  { unfold uniqueIds. simpl. repeat constructor; simpl; intuition discriminate. }
  split; [exact U|].
  apply (@placement_rerun_spares_placed_items acceptingAdapters [1]
           twoItemWorld
           (sampleCartItem 11 8 "https://channel/orders/P-1" "P-1" "PENDING") U).
  - vm_compute. right. left. reflexivity.
  - reflexivity.
  - reflexivity.
Defined.

(** ** Placement runs to completion *)

Lemma sameRows_refl w : sameRows w w.
Proof. repeat split. Qed.

Lemma sameRows_trans a b c : sameRows a b -> sameRows b c -> sameRows a c.
Proof.
  intros [H1 [H2 H3]] [K1 [K2 K3]]. repeat split; congruence.
Qed.

Lemma bind_run A B (c : M A) (k : A -> M B) w w1 a :
  c w = (w1, Ok a) -> bind c k w = k a w1.
Proof. intro E. unfold bind. now rewrite E. Qed.

Lemma find_by_id_in A (key : A -> Id) (l : list A) id :
  In id (map key l) -> exists a, find (fun x => Nat.eqb (key x) id) l = Some a.
Proof.
  induction l as [|x l IH]; simpl; [contradiction|].
  intros [H|H].
  - rewrite H, Nat.eqb_refl. eauto.
  - destruct (Nat.eqb (key x) id); eauto.
Qed.

Lemma map_update_ids (f : CartItem -> CartItem) id l :
  (forall c, ci_id (f c) = ci_id c) ->
  map ci_id (map (fun c' => if Nat.eqb (ci_id c') id then f c' else c') l)
  = map ci_id l.
Proof.
  intro Hf. rewrite map_map. apply map_ext. intro c.
  destruct (Nat.eqb (ci_id c) id); auto.
Qed.

Lemma CartItem_updateOne_sameRows id f :
  (forall c, ci_id (f c) = ci_id c) ->
  stable sameRows (CartItem_updateOne id f).
Proof.
  intros Hf w. unfold CartItem_updateOne.
  destruct (find _ (cartItems w)); simpl; [|apply sameRows_refl].
  repeat split; simpl. now apply map_update_ids.
Qed.

Lemma updateCartItems_sameRows items url e p :
  stable sameRows (updateCartItems items url e p).
Proof.
  unfold updateCartItems.
  apply stable_for_of; [apply sameRows_refl | apply sameRows_trans |].
  intros acc x _.
  apply stable_bind; [apply sameRows_trans | |].
  - apply CartItem_updateOne_sameRows. apply set_outcome_id.
  - intro a. apply stable_ret, sameRows_refl.
Qed.

Lemma updateLoop_runs (f : CartItem -> CartItem) items :
  (forall c, ci_id (f c) = ci_id c) ->
  forall w acc,
    (forall x, In x items -> In (ci_id x) (map ci_id (cartItems w))) ->
    exists w' res,
      for_of items acc
        (fun update c =>
           res <- CartItem_updateOne (ci_id c) f ;; ret (update ++ [res])) w
      = (w', Ok res).
Proof.
  intro Hf. induction items as [|x items IH]; intros w acc H; simpl.
  - unfold ret. eauto.
  - destruct (find_by_id_in _ ci_id (cartItems w) (ci_id x)) as [row E].
    { apply H. now left. }
    unfold bind at 1. unfold bind at 1. unfold CartItem_updateOne at 1.
    rewrite E. simpl. apply IH. intros y Hy. simpl.
    rewrite map_update_ids by assumption. apply H. now right.
Qed.

Lemma updateCartItems_runs items url e p w :
  (forall x, In x items -> In (ci_id x) (map ci_id (cartItems w))) ->
  exists w' res, updateCartItems items url e p w = (w', Ok res).
Proof.
  intro H. unfold updateCartItems. apply updateLoop_runs; auto.
Qed.

Lemma run_fst A (c : M A) w w' r : c w = (w', r) -> fst (c w) = w'.
Proof. intro E. now rewrite E. Qed.

Lemma recordOutcome_runs items r w :
  (forall x, In x items -> In (ci_id x) (map ci_id (cartItems w))) ->
  exists w', recordOutcome items r w = (w', Ok tt).
Proof.
  intro H. unfold recordOutcome.
  assert (H1 : exists w1,
             (if truthy (pr_error r)
              then updateCartItems items ""
                     ("ORDER_PLACEMENT_ERROR: " ++ pr_error r) "" ;; ret tt
              else ret tt) w = (w1, Ok tt)
             /\ map ci_id (cartItems w1) = map ci_id (cartItems w)).
  { destruct (truthy (pr_error r)).
    - destruct (updateCartItems_runs items "" ("ORDER_PLACEMENT_ERROR: " ++ pr_error r) "" w H)
        as [w1 [res E]].
      exists w1. split; [now rewrite (bind_run _ _ _ _ _ _ _ E)|].
      pose proof (updateCartItems_sameRows items "" ("ORDER_PLACEMENT_ERROR: " ++ pr_error r) "" w) as S.
      rewrite (run_fst _ _ _ _ _ E) in S. apply S.
    - exists w. split; reflexivity. }
  destruct H1 as [w1 [E1 I1]]. rewrite (bind_run _ _ _ _ _ _ _ E1).
  destruct (truthy (pr_purchaseId r)).
  - destruct (updateCartItems_runs items (pr_url r) "" (pr_purchaseId r) w1)
      as [w2 [res E]].
    { intros x Hx. rewrite I1. now apply H. }
    exists w2. now rewrite (bind_run _ _ _ _ _ _ _ E).
  - exists w1. reflexivity.
Qed.

Lemma attemptPurchase_runs A ch items order w :
  (forall x, In x items -> In (ci_id x) (map ci_id (cartItems w))) ->
  exists w', attemptPurchase A ch items order w = (w', Ok tt).
Proof.
  intro H. unfold attemptPurchase, try_catch, createChannelPurchase.
  unfold bind at 1. unfold bind at 1. unfold get_world at 1.
  unfold bind at 1. unfold emit, modify.
  set (w0 := set_trace w (trace w ++ [CreatePurchaseCall (ch_id ch) items])).
  assert (H0 : forall x, In x items -> In (ci_id x) (map ci_id (cartItems w0)))
    by exact H.
  destruct (createPurchaseFunction A (trace w) ch items order) as [r|msg]; simpl.
  - destruct (recordOutcome_runs items r w0 H0) as [w1 E]. rewrite E. eauto.
  - match goal with
    | |- context [updateCartItems items ?u ?e ?p] =>
        destruct (updateCartItems_runs items u e p w0 H0) as [w1 [res E]]
    end.
    rewrite (bind_run _ _ _ _ _ _ _ E). unfold ret. eauto.
Qed.

Lemma attemptPurchase_sameRows A ch items order :
  stable sameRows (attemptPurchase A ch items order).
Proof.
  unfold attemptPurchase, recordOutcome, createChannelPurchase.
  repeat first
    [ apply updateCartItems_sameRows
    | apply stable_ret; apply sameRows_refl
    | apply stable_get_world; apply sameRows_refl
    | apply stable_outcome; apply sameRows_refl
    | apply stable_bind; [apply sameRows_trans | | intro]
    | apply stable_try_catch; [apply sameRows_trans | | intro]
    | apply stable_if
    | (intro w; repeat split) ].
Qed.

Lemma find_update_order id (f : Order -> Order) l :
  (forall o, o_id (f o) = o_id o) ->
  find (fun o => Nat.eqb (o_id o) id)
       (map (fun o' => if Nat.eqb (o_id o') id then f o' else o') l)
  = option_map f (find (fun o => Nat.eqb (o_id o) id) l).
Proof.
  intro Hf. induction l as [|a l IH]; simpl; [reflexivity|].
  destruct (Nat.eqb (o_id a) id) eqn:E; simpl.
  - now rewrite Hf, E.
  - now rewrite E.
Qed.

Lemma orderRow_id orderId w o : orderRow orderId w = Some o -> o_id o = orderId.
Proof.
  unfold orderRow. intro H. apply find_some in H.
  now apply Nat.eqb_eq.
Qed.

Lemma Order_updateOne_runs orderId f w o :
  orderRow orderId w = Some o ->
  Order_updateOne orderId f w
  = (set_orders w
       (map (fun o' => if Nat.eqb (o_id o') orderId then f o' else o')
            (orders w)),
     Ok (f o)).
Proof. unfold orderRow, Order_updateOne. now intros ->. Qed.

Lemma addCart_attempt_runs A o w :
  exists w',
    try_catch (addCartToPlatformOrder A o)
      (fun error =>
         emit (ConsoleLog
                 ("Warning: Add cart to platform order function failed: "
                  ++ message error))) w = (w', Ok tt)
    /\ cartItems w' = cartItems w
    /\ orders w' = orders w
    /\ shops w' = shops w
    /\ forall shop p,
         shopOf o w = Some shop -> sh_platform shop = Some p ->
         In (AddCartToPlatformOrderCall (o_id o)) (trace w')
         /\ forall msg, alwaysFails A msg -> In (addCartWarning msg) (trace w').
Proof.
  unfold try_catch, addCartToPlatformOrder, shopOf.
  unfold bind at 1. unfold get_world at 1.
  destruct (o_shop o) as [sid|]; simpl.
  2:{ eexists. do 4 (split; [reflexivity|]). intros; congruence. }
  destruct (find _ (shops w)) as [shop|]; simpl.
  2:{ eexists. do 4 (split; [reflexivity|]). intros; congruence. }
  destruct (sh_platform shop) as [p|] eqn:Ep; simpl.
  2:{ eexists. do 4 (split; [reflexivity|]). intros s' p' Hs Hp.
      inversion Hs; subst; congruence. }
  unfold bind, emit, modify, outcome. simpl.
  destruct (addCartToPlatformOrderFunction A (trace w) p o
              (cartItemsOf (o_id o) w)) as [[]|msg] eqn:Ea; simpl.
  - eexists. do 4 (split; [reflexivity|]). intros s' p' _ _. simpl. split.
    + apply in_or_app. right. now left.
    + intros m Hm. rewrite Hm in Ea. discriminate.
  - eexists. do 4 (split; [reflexivity|]). intros s' p' _ _. simpl. split.
    + apply in_or_app. left. apply in_or_app. right. now left.
    + intros m Hm. rewrite Hm in Ea. inversion Ea; subst.
      apply in_or_app. right. now left.
Qed.

Lemma recountAndAdvance_runs A orderId processed w o :
  orderRow orderId w = Some o ->
  exists w' o',
    recountAndAdvance A orderId processed w = (w', Ok (processed ++ [o']))
    /\ cartItems w' = cartItems w
    /\ shops w' = shops w
    /\ orderRow orderId w' = Some o'
    /\ o_shop o' = o_shop o
    /\ o_status o' = (if Nat.eqb (remaining orderId w') 0
                      then "AWAITING" else "PENDING")
    /\ (remaining orderId w' = 0 ->
        forall shop p,
          shopOf o w = Some shop -> sh_platform shop = Some p ->
          In (AddCartToPlatformOrderCall orderId) (trace w')
          /\ forall msg, alwaysFails A msg ->
                         In (addCartWarning msg) (trace w')).
Proof.
  intro Ho. pose proof (orderRow_id _ _ _ Ho) as Hid.
  unfold recountAndAdvance. unfold bind at 1. unfold CartItem_count.
  fold (remaining orderId w).
  destruct (Nat.eqb (remaining orderId w) 0) eqn:Ec.
  - rewrite (bind_run _ _ _ _ _ _ _ (@Order_updateOne_runs orderId (set_status "AWAITING") w o Ho)).
    set (w1 := set_orders w _).
    destruct (addCart_attempt_runs A (set_status "AWAITING" o) w1)
      as [w2 [E [Hc [Hor [Hs Hev]]]]].
    rewrite (bind_run _ _ _ _ _ _ _ E). unfold ret.
    exists w2, (set_status "AWAITING" o).
    assert (Hrem : remaining orderId w2 = remaining orderId w)
      by (unfold remaining; now rewrite Hc).
    split; [reflexivity|]. split; [exact Hc|]. split; [exact Hs|].
    split.
    { unfold orderRow. rewrite Hor. unfold w1. simpl.
      rewrite find_update_order by reflexivity.
      unfold orderRow in Ho. now rewrite Ho. }
    split; [reflexivity|]. split.
    { now rewrite Hrem, Ec. }
    intros _ shop p Hshop Hp.
    destruct (Hev shop p Hshop Hp) as [H1 H2]. simpl in H1.
    rewrite Hid in H1. split; assumption.
  - rewrite (bind_run _ _ _ _ _ _ _ (@Order_updateOne_runs orderId (set_status "PENDING") w o Ho)).
    unfold ret. eexists. exists (set_status "PENDING" o).
    split; [reflexivity|]. split; [reflexivity|]. split; [reflexivity|].
    split.
    { unfold orderRow. simpl. rewrite find_update_order by reflexivity.
      unfold orderRow in Ho. now rewrite Ho. }
    split; [reflexivity|].
    assert (Hrem : remaining orderId
                     (set_orders w
                        (map (fun o' => if Nat.eqb (o_id o') orderId
                                        then set_status "PENDING" o' else o')
                             (orders w)))
                   = remaining orderId w) by reflexivity.
    rewrite Hrem, Ec. split; [reflexivity|].
    intro H0. rewrite H0 in Ec. discriminate.
Qed.

Lemma shopOf_same o o' w w' :
  o_shop o' = o_shop o -> shops w' = shops w -> shopOf o' w' = shopOf o w.
Proof. unfold shopOf. now intros -> ->. Qed.

Lemma placeLoop_runs A order orderId :
  o_user order <> None ->
  forall ts w processed o,
    (forall ch items,
       In (ch, items) ts ->
       ch_platform ch <> None
       /\ forall x, In x items -> In (ci_id x) (map ci_id (cartItems w))) ->
    orderRow orderId w = Some o ->
    exists w' processed',
      for_of ts processed (placeOnChannel A order orderId) w
      = (w', Ok processed')
      /\ shops w' = shops w
      /\ (ts = [] -> w' = w)
      /\ (ts <> [] ->
          exists o',
            orderRow orderId w' = Some o'
            /\ o_status o' = (if Nat.eqb (remaining orderId w') 0
                              then "AWAITING" else "PENDING")
            /\ (remaining orderId w' = 0 ->
                forall shop p,
                  shopOf o w = Some shop -> sh_platform shop = Some p ->
                  In (AddCartToPlatformOrderCall orderId) (trace w')
                  /\ forall msg, alwaysFails A msg ->
                                 In (addCartWarning msg) (trace w'))).
Proof.
  intro Hu. induction ts as [|[ch items] ts IH]; intros w processed o Hts Ho.
  - simpl. unfold ret. exists w, processed.
    split; [reflexivity|]. split; [reflexivity|]. split; [reflexivity|].
    intro H. now contradiction H.
  - destruct (Hts ch items (or_introl eq_refl)) as [Hp Hitems].
    destruct (o_user order) as [u|] eqn:Eu; [|now contradiction Hu].
    destruct (ch_platform ch) as [pl|] eqn:Epl; [|now contradiction Hp].
    destruct (attemptPurchase_runs A ch items order w Hitems) as [w1 E1].
    pose proof (attemptPurchase_sameRows A ch items order w) as S1.
    rewrite (run_fst _ _ _ _ _ E1) in S1. destruct S1 as [I1 [O1 S1]].
    assert (Ho1 : orderRow orderId w1 = Some o)
      by (unfold orderRow; now rewrite O1).
    destruct (recountAndAdvance_runs A orderId processed w1 o Ho1)
      as [w2 [o' [E2 [C2 [S2 [Ho2 [Hshop [Hst Hev]]]]]]]].
    assert (Hstep : placeOnChannel A order orderId processed (ch, items) w
                    = (w2, Ok (processed ++ [o']))).
    { unfold placeOnChannel. rewrite Eu, Epl. unfold bind. now rewrite E1, E2. }
    simpl for_of. rewrite (bind_run _ _ _ _ _ _ _ Hstep).
    destruct (IH w2 (processed ++ [o']) o') as [w' [p' [E [S [Hnil Hcons]]]]].
    + intros ch' items' Hin.
      destruct (Hts ch' items' (or_intror Hin)) as [Hp' Hi'].
      split; [assumption|]. intros x Hx. rewrite C2, I1. now apply Hi'.
    + exact Ho2.
    + exists w', p'. split; [exact E|]. split; [congruence|].
      split; [discriminate|]. intros _.
      destruct ts as [|t ts].
      * rewrite (Hnil eq_refl). exists o'. split; [exact Ho2|].
        split; [exact Hst|]. intros Hz shop p Hs Hpl.
        apply (Hev Hz shop p); [|exact Hpl].
        rewrite <- Hs. now apply shopOf_same.
      * destruct Hcons as [o'' [Ho'' [Hst'' Hev'']]]; [discriminate|].
        exists o''. split; [exact Ho''|]. split; [exact Hst''|].
        intros Hz shop p Hs Hpl. apply (Hev'' Hz shop p); [|exact Hpl].
        rewrite <- Hs. apply shopOf_same; [assumption | congruence].
Qed.

(** C7, as the code has it.  For an order that exists, has a user, and
    whose targets all have a platform, a placement run returns normally
    whatever the adapters do.  If no target holds an unplaced cart item
    the run changes nothing.  Otherwise the order's status after the run
    is AWAITING when the recount of unplaced cart items is zero and
    PENDING when it is not; in the AWAITING case, when the storefront has
    a platform, the add-to-platform-order operation is called, and when
    that operation fails the failure is logged as a warning. *)
Theorem placement_status_follows_recount
    (A : Adapters) (orderId : Id) (w : World) (order : Order) :
  orderRow orderId w = Some order ->
  o_user order <> None ->
  (forall ch items, In (ch, items) (targets orderId w) ->
                    ch_platform ch <> None) ->
  let run := placeMultipleOrders A [orderId] w in
  let w' := fst run in
  (exists processed, snd run = Ok processed)
  /\ (targets orderId w = [] -> w' = w)
  /\ (targets orderId w <> [] ->
      statusOf orderId w'
      = Some (if Nat.eqb (remaining orderId w') 0
              then "AWAITING" else "PENDING")
      /\ (remaining orderId w' = 0 ->
          forall shop platform,
            shopOf order w = Some shop -> sh_platform shop = Some platform ->
            In (AddCartToPlatformOrderCall orderId) (trace w')
            /\ forall msg, alwaysFails A msg ->
                           In (addCartWarning msg) (trace w'))).
Proof.
  intros Ho Hu Hp run w'.
  destruct (@placeLoop_runs A order orderId Hu (targets orderId w) w [] order)
    as [w1 [p1 [E [_ [Hnil Hcons]]]]].
  - intros ch items Hin. split; [eapply Hp; eauto|].
    intros x Hx. apply in_map. eapply targets_items; eauto.
  - exact Ho.
  - assert (Hrun : run = (w1, Ok p1)).
    { unfold run, placeMultipleOrders. simpl for_of.
      unfold placeOneOrder, Order_findOne, bind, get_world, ret.
      unfold orderRow in Ho. rewrite Ho. simpl. now rewrite E. }
    unfold w'. rewrite Hrun. simpl.
    split; [eauto|]. split; [exact Hnil|].
    intro Hne. destruct (Hcons Hne) as [o' [Ho' [Hst Hev]]].
    split; [|exact Hev].
    unfold statusOf. unfold orderRow in Ho'. rewrite Ho'. simpl. now rewrite Hst.
Qed.

Lemma placement_status_follows_recount_witness :
  let run := placeMultipleOrders storefrontDownAdapters [1] oneItemWorld in
  orderRow 1 oneItemWorld = Some (sampleOrder "PENDING")
  /\ (exists processed, snd run = Ok processed)
  /\ statusOf 1 (fst run) = Some "AWAITING"
  /\ In (AddCartToPlatformOrderCall 1) (trace (fst run))
  /\ In (addCartWarning "storefront unreachable") (trace (fst run)).
Proof.
  destruct (placement_status_follows_recount storefrontDownAdapters 1
              oneItemWorld (sampleOrder "PENDING"))
    as [Hret [_ Hst]].
  - reflexivity.
  - discriminate.
  - intros ch items Hin. vm_compute in Hin.
    destruct Hin as [Heq|[]]. inversion Heq. discriminate.
  - split; [reflexivity|]. split; [exact Hret|].
    destruct Hst as [Hst Hev]; [discriminate|].
    split; [exact Hst|].
    destruct (Hev eq_refl (mkShop 5 "sequential" (Some noShopPlatform))
                noShopPlatform eq_refl eq_refl) as [Hcall Hwarn].
    split; [exact Hcall|]. apply Hwarn. intros t p o cs. reflexivity.
Defined.

(** C7 as stated fails when no target holds an unplaced cart item: the
    recount is zero, yet the run never reaches the status update and the
    order stays PENDING. *)
Lemma placement_without_targets_keeps_pending :
  let w' := fst (placeMultipleOrders acceptingAdapters [1] placedPendingWorld) in
  remaining 1 w' = 0
  /\ statusOf 1 w' = Some "PENDING"
  /\ statusOf 1 w' <> Some "AWAITING"
  /\ trace w' = [].
Proof.
  vm_compute. repeat split. discriminate.
Qed.

(** ** Tracking and completion *)

Lemma includes_In ids id : existsb (Nat.eqb id) ids = true <-> In id ids.
Proof.
  rewrite existsb_exists. split.
  - intros [x [Hx E]]. apply Nat.eqb_eq in E. now subst.
  - intro H. exists id. split; [assumption | apply Nat.eqb_refl].
Qed.













(** ** Link ranks *)

Lemma Link_resolveInput_create_shop ctx d :
  ld_shop (Link_resolveInput_create ctx d) = ld_shop d.
Proof.
  unfold Link_resolveInput_create.
  destruct (ld_user d), (sessionId ctx); reflexivity.
Qed.

Lemma Link_createOne_run ctx data w w' row :
  Link_createOne ctx data w = (w', Ok row) ->
  exists shopId,
    ld_shop data = Some shopId
    /\ row = mkLink (nextId w) (Some shopId) (ld_channel data)
               (or_id (ld_user data) (sessionId ctx))
               (Z.of_nat (List.length (existingLinks ctx shopId w)) + 1)%Z
    /\ w' = set_nextId (set_links w (links w ++ [row])) (S (nextId w)).
Proof.
  unfold Link_createOne.
  destruct (rankFits data); [|discriminate].
  destruct (permitted ctx canCreateLinks); [|discriminate].
  unfold bind at 1. unfold get_world at 1.
  destruct (linkConnects ctx data w); [|discriminate].
  unfold Link_beforeOperation. rewrite String.eqb_refl.
  rewrite Link_resolveInput_create_shop.
  destruct (ld_shop data) as [shopId|] eqn:Hs; [|discriminate].
  unfold bind, get_world, ret, modify, Link_resolveInput_create. simpl.
  intro H. exists shopId. split; [reflexivity|].
  assert (Hrank : (if Nat.ltb 0 (List.length (existingLinks ctx shopId w))
                   then (Z.of_nat (List.length (existingLinks ctx shopId w)) + 1)%Z
                   else 1%Z)
                  = (Z.of_nat (List.length (existingLinks ctx shopId w)) + 1)%Z)
    by (destruct (List.length (existingLinks ctx shopId w)); reflexivity).
  destruct (ld_user data) eqn:Eu; destruct (sessionId ctx) eqn:Es;
    simpl in H; rewrite ?Hs, ?Eu, ?Hrank in H; inversion H; subst;
    split; reflexivity.
Qed.

(** C9, as the code has it.  A Link that is created gets the number of
    the storefront's Links that the caller can see, plus one (so 1 when
    there is none), whatever rank the caller submitted.  On any other
    operation the hook hands the submitted data back untouched, so an
    update that submits a rank stores it. *)
Theorem link_rank_counts_existing_links
    (ctx : Context) (data : LinkData) (w w' : World) (row : Link) :
  Link_createOne ctx data w = (w', Ok row) ->
  (exists shopId,
     ld_shop data = Some shopId
     /\ l_rank row
        = (Z.of_nat (List.length (existingLinks ctx shopId w)) + 1)%Z)
  /\ In row (links w')
  /\ (forall operation d w0,
        operation <> "create" ->
        Link_beforeOperation ctx operation d w0 = (w0, Ok d))
  /\ (forall id d r w0 w1 l,
        ld_rank d = Some r ->
        Link_updateOne ctx id d w0 = (w1, Ok l) ->
        l_rank l = r /\ In l (links w1)).
Proof.
  intro Hrun.
  destruct (Link_createOne_run ctx data w w' row Hrun)
    as [shopId [Hs [Hrow Hw]]].
  split; [|split; [|split]].
  - exists shopId. split; [exact Hs|]. now rewrite Hrow.
  - rewrite Hw. simpl. apply in_or_app. right. now left.
  - intros operation d w0 Hop. unfold Link_beforeOperation.
    apply String.eqb_neq in Hop. now rewrite Hop.
  - intros id d r w0 w1 l Hr. unfold Link_updateOne.
    destruct (rankFits d); [|discriminate].
    unfold bind at 1. unfold get_world at 1.
    destruct (find _ (links w0)) as [item|] eqn:Hf; [|discriminate].
    destruct (linkConnects ctx d w0); [|discriminate].
    unfold Link_beforeOperation.
    change (String.eqb "update" "create") with false. cbv iota.
    unfold bind, ret, modify. intro H. inversion H; subst; clear H.
    split.
    + unfold applyLinkData. simpl. now rewrite Hr.
    + simpl. apply find_some in Hf. destruct Hf as [Hin Hid].
      apply andb_true_iff in Hid. destruct Hid as [Hid _].
      apply in_map_iff. exists item. split; [|exact Hin]. now rewrite Hid.
Qed.

Lemma link_rank_counts_existing_links_witness :
  let run := Link_createOne merchant (linkTo 7) linkBase in
  let rerank := mkLinkData None None None (Some 7%Z) in
  let update := Link_updateOne merchant 100 rerank (fst run) in
  snd run = Ok (mkLink 100 (Some 5) (Some 7) (Some 9) 1)
  /\ In (mkLink 100 (Some 5) (Some 7) (Some 9) 1) (links (fst run))
  /\ Link_beforeOperation merchant "update" rerank linksAfterDelete
     = (linksAfterDelete, Ok rerank)
  /\ snd update = Ok (mkLink 100 (Some 5) (Some 7) (Some 9) 7)
  /\ In (mkLink 100 (Some 5) (Some 7) (Some 9) 7) (links (fst update)).
Proof.
  cbv zeta.
  destruct (link_rank_counts_existing_links merchant (linkTo 7) linkBase
              (fst (Link_createOne merchant (linkTo 7) linkBase))
              (mkLink 100 (Some 5) (Some 7) (Some 9) 1) eq_refl)
    as [_ [Hin [Hother Hupdate]]].
  split; [reflexivity|]. split; [exact Hin|].
  split; [apply Hother; discriminate|].
  split; [reflexivity|].
  exact (proj2 (Hupdate 100 (mkLinkData None None None (Some 7%Z)) 7%Z
                  (fst (Link_createOne merchant (linkTo 7) linkBase))
                  (fst (Link_updateOne merchant 100
                          (mkLinkData None None None (Some 7%Z))
                          (fst (Link_createOne merchant (linkTo 7)
                                  linkBase))))
                  (mkLink 100 (Some 5) (Some 7) (Some 9) 7)
                  eq_refl eq_refl)).
Defined.

(** C9 as stated fails once a Link has been deleted: with ranks 1 and 3
    left on the storefront, the next Link gets rank 3 (two Links plus
    one), not 4, and two Links share a rank. *)
Lemma link_rank_is_not_max_plus_one :
  map l_rank (links linksAfterDelete) = [1%Z; 3%Z]
  /\ maxRankPlusOne (existingLinks merchant 5 linksAfterDelete) = 4%Z
  /\ option_map l_rank
       (match snd (Link_createOne merchant (linkTo 7) linksAfterDelete) with
        | Ok row => Some row
        | Throw _ => None
        end) = Some 3%Z.
Proof.
  vm_compute. repeat split.
Qed.

(** ** The link resolver *)

Lemma insertByRank_perm x l : Permutation (insertByRank x l) (x :: l).
Proof.
  induction l as [|y l IH]; simpl; [reflexivity|].
  destruct (Z.leb (l_rank x) (l_rank y)); [reflexivity|].
  rewrite IH. apply perm_swap.
Qed.

Lemma sortByRank_perm l : Permutation (sortByRank l) l.
Proof.
  induction l as [|x l IH]; simpl; [reflexivity|].
  rewrite insertByRank_perm. now constructor.
Qed.

Lemma find_ext_bool A (f g : A -> bool) l :
  (forall x, f x = g x) -> find f l = find g l.
Proof.
  intro H. induction l as [|a l IH]; simpl; [reflexivity|].
  now rewrite H, IH.
Qed.

Lemma Order_findOne_as_sudo id w :
  Order_findOne_as sudo id w = (w, Ok (orderRow id w)).
Proof.
  unfold Order_findOne_as, orderRow. do 2 f_equal.
  apply find_ext_bool. intro o. apply andb_true_r.
Qed.

Lemma find_some_in A (p : A -> bool) l x :
  In x l -> p x = true -> exists y, find p l = Some y.
Proof.
  induction l as [|a l IH]; intros Hin Hp; [contradiction|].
  simpl. destruct (p a) eqn:Ea; [now exists a|].
  destruct Hin as [->|Hin]; [congruence|]. now apply IH.
Qed.

(** Whatever link is looked at, the [where] that is built from its
    [dynamicWhereClause] does not fit the input type. *)
Lemma applyDynamicWhereClause_throws link orderId w :
  In link (links w) ->
  applyDynamicWhereClause sudo (l_id link) orderId w
  = (set_trace w (trace w ++ [LinkEvaluated (l_id link)]), Throw inputError).
Proof.
  intro Hin. unfold applyDynamicWhereClause, emit, modify.
  unfold bind at 1. unfold bind at 1. unfold get_world at 1.
  destruct (find_some_in _ (fun l => Nat.eqb (l_id l) (l_id link)
                                     && canReadLinks sudo (l_user l))
              (links w) link Hin) as [found Hf].
  { now rewrite Nat.eqb_refl. }
  unfold Link_findOne_as.
  change (links (set_trace w (trace w ++ [LinkEvaluated (l_id link)])))
    with (links w).
  rewrite Hf. reflexivity.
Qed.

Lemma afterCreate_is_linkBranch A item order shop w :
  o_linkOrder item = true ->
  orderRow (o_id item) w = Some order ->
  shopOf order w = Some shop ->
  shopLinks shop w <> [] ->
  Order_afterOperation A "create" item w = linkBranch A item order shop w.
Proof.
  intros Hlink Ho Hshop Hne.
  unfold Order_afterOperation. rewrite String.eqb_refl.
  unfold bind at 1. rewrite Order_findOne_as_sudo, Ho.
  unfold bind at 1. unfold get_world at 1. rewrite Hshop, Hlink.
  destruct (shopLinks shop w); [now contradiction Hne | reflexivity].
Qed.

Lemma sorted_links_head shop w :
  shopLinks shop w <> [] ->
  exists link rest,
    sortByRank (shopLinks shop w) = link :: rest /\ In link (links w).
Proof.
  intro Hne.
  destruct (sortByRank (shopLinks shop w)) as [|link rest] eqn:E.
  - pose proof (sortByRank_perm (shopLinks shop w)) as P. rewrite E in P.
    apply Permutation_nil in P. now contradiction Hne.
  - exists link, rest. split; [reflexivity|].
    assert (Hin : In link (shopLinks shop w)).
    { apply (Permutation_in link (sortByRank_perm (shopLinks shop w))).
      rewrite E. now left. }
    unfold shopLinks in Hin. now apply filter_In in Hin.
Qed.

Lemma linkBranch_throws A item order shop w link rest :
  sortByRank (shopLinks shop w) = link :: rest ->
  In link (links w) ->
  sh_linkMode shop = "sequential" \/ sh_linkMode shop = "simultaneous" ->
  linkBranch A item order shop w
  = (set_trace w (trace w ++ [LinkEvaluated (l_id link)]), Throw inputError).
Proof.
  intros Hsort Hin Hmode. unfold linkBranch.
  unfold bind at 1. unfold get_world at 1. rewrite Hsort.
  pose proof (applyDynamicWhereClause_throws link (o_id order) w Hin) as E.
  destruct Hmode as [-> | ->].
  - rewrite String.eqb_refl. unfold bind at 1. simpl sequentialLinks.
    unfold bind at 1. now rewrite E.
  - change (String.eqb "simultaneous" "sequential") with false.
    rewrite String.eqb_refl. cbv iota.
    unfold bind at 1. unfold simultaneousLinks. simpl for_of.
    unfold bind at 1. unfold bind at 1. now rewrite E.
Qed.

(** C8 (the code departs from the claim).  An order is created with
    [linkOrder] on a storefront in sequential mode that has at least one
    link.  The hook looks at the link of lowest rank and throws there:
    the [where] built from the link's [dynamicWhereClause] is refused.
    No cart item is created, no later link is looked at, and the order
    row is as it was. *)
Theorem sequential_links_throw_at_first_link
    (A : Adapters) (item order : Order) (shop : Shop) (w : World) :
  o_linkOrder item = true ->
  orderRow (o_id item) w = Some order ->
  shopOf order w = Some shop ->
  shopLinks shop w <> [] ->
  sh_linkMode shop = "sequential" ->
  exists link rest,
    sortByRank (shopLinks shop w) = link :: rest
    /\ Order_afterOperation A "create" item w
       = (set_trace w (trace w ++ [LinkEvaluated (l_id link)]),
          Throw inputError).
Proof.
  intros Hlink Ho Hshop Hne Hmode.
  destruct (sorted_links_head shop w Hne) as [link [rest [Hsort Hin]]].
  exists link, rest. split; [exact Hsort|].
  rewrite (afterCreate_is_linkBranch A item order shop w) by assumption.
  apply (linkBranch_throws A item order shop w link rest Hsort Hin).
  now left.
Qed.

Lemma sequential_links_throw_at_first_link_witness :
  let w := linkWorld "sequential" in
  let run := Order_afterOperation acceptingAdapters "create"
               (sampleOrder "PENDING") w in
  orderRow 1 w = Some (sampleOrder "PENDING")
  /\ snd run = Throw inputError
  /\ cartItems (fst run) = []
  /\ orders (fst run) = orders w
  /\ trace (fst run) = [LinkEvaluated 31].
Proof.
  cbv zeta.
  destruct (sequential_links_throw_at_first_link acceptingAdapters
              (sampleOrder "PENDING") (sampleOrder "PENDING")
              (mkShop 5 "sequential" (Some noShopPlatform))
              (linkWorld "sequential") eq_refl eq_refl eq_refl)
    as [link [rest [Hsort E]]].
  - vm_compute. discriminate.
  - reflexivity.
  - split; [reflexivity|]. rewrite E.
    vm_compute in Hsort. inversion Hsort; subst.
    repeat split.
Defined.

(** ** Match uniqueness *)

Lemma checkForDuplicate_detects ctx ids w :
  ids <> [] -> NoDup ids -> duplicates ctx w ids ->
  checkForDuplicate ctx ids w = (w, Ok true).
Proof.
  intros Hne Hnd [m [Hin [Hvis [Hndm Hsame]]]].
  unfold checkForDuplicate, bind, get_world, ret. do 2 f_equal.
  apply existsb_exists. exists m. split.
  - unfold existingMatchesSharing. apply filter_In. split; [assumption|].
    rewrite Hvis. simpl. apply existsb_exists.
    destruct ids as [|id0 ids]; [now contradiction Hne|].
    assert (H0 : In id0 (inputIds ctx w m)) by (apply Hsame; now left).
    unfold inputIds in H0. apply in_map_iff in H0.
    destruct H0 as [si [Hid Hsi]]. exists si. split.
    + unfold Match_input_as in Hsi. now apply filter_In in Hsi.
    + unfold includes. apply includes_In. rewrite Hid. now left.
  - fold (inputIds ctx w m). apply andb_true_iff. split.
    + apply Nat.eqb_eq. apply Permutation_length.
      apply NoDup_Permutation; assumption.
    + apply forallb_forall. intros x Hx. unfold includes.
      apply includes_In. now apply Hsame.
Qed.

Lemma resolveCreated_connectsOnly ctx d w :
  connectsOnly d -> resolveCreated ctx d w = (w, Ok d).
Proof.
  intros [Hi Ho]. unfold resolveCreated, resolveCreatedInput,
    resolveCreatedOutput, bind.
  destruct (md_input d) as [input|] eqn:Ei.
  - rewrite (Hi input eq_refl). unfold ret.
    destruct (md_output d) as [output|] eqn:Eo; [|reflexivity].
    now rewrite (Ho output eq_refl).
  - unfold ret. destruct (md_output d) as [output|] eqn:Eo; [|reflexivity].
    now rewrite (Ho output eq_refl).
Qed.

(** C5, as the code has it.  The data connects rows and creates none,
    the rows it names are stored and visible to the caller, and [ids] is
    a non-empty list without repetition.  If a Match that the caller can
    read has, as the caller reads it, exactly these ids as its input,
    then creating a Match that connects [ids], and updating a Match that
    the caller may update so that its inputs become [ids], both throw
    the duplicate error, and nothing is stored. *)
Theorem duplicate_input_is_rejected
    (ctx : Context) (data : MatchData) (w : World)
    (input : RelInput ShopItemData) (ids : list Id) :
  connectsOnly data ->
  md_input data = Some input ->
  matchConnects ctx data w = true ->
  ids <> [] ->
  NoDup ids ->
  duplicates ctx w ids ->
  (permitted ctx canCreateMatches = true ->
   rel_connect input = Some ids ->
   Match_createOne ctx data w = (w, Throw duplicateMatchError))
  /\ (forall id item,
        find (fun m => Nat.eqb (m_id m) id
                       && rules.canManageMatches ctx (m_user m))
             (matches w) = Some item ->
        combinedInputIds ctx item input w = Ok ids ->
        Match_updateOne ctx id data w = (w, Throw duplicateMatchError)).
Proof.
  intros Hco Hin Hconn Hne Hnd Hdup.
  pose proof (resolveCreated_connectsOnly ctx data w Hco) as Hres.
  pose proof (checkForDuplicate_detects ctx ids w Hne Hnd Hdup) as Hchk.
  split.
  - intros Hperm Hc.
    unfold Match_createOne. rewrite Hperm.
    unfold bind at 1. unfold get_world at 1. rewrite Hconn.
    unfold bind at 1. unfold Match_resolveInput.
    rewrite (bind_run _ _ _ _ _ _ _ Hres).
    rewrite String.eqb_refl. unfold duplicateCheckOnCreate.
    rewrite Hin, Hc.
    destruct ids as [|id0 ids']; [now contradiction Hne|].
    change (Nat.ltb 0 (List.length (id0 :: ids'))) with true. cbv iota.
    unfold bind at 1. unfold bind at 1. now rewrite Hchk.
  - intros id item Hfind Hcomb.
    unfold Match_updateOne. unfold bind at 1. unfold get_world at 1.
    rewrite Hfind, Hconn. unfold bind at 1. unfold Match_resolveInput.
    rewrite (bind_run _ _ _ _ _ _ _ Hres).
    change (String.eqb "update" "create") with false.
    rewrite String.eqb_refl. cbv iota.
    unfold bind at 1. unfold bind at 1. unfold ret at 1.
    unfold duplicateCheckOnUpdate. rewrite Hin.
    unfold bind at 1. unfold bind at 1. unfold get_world at 1.
    rewrite Hcomb. unfold bind at 1. now rewrite Hchk.
Qed.

Lemma duplicate_input_is_rejected_witness :
  duplicates alice matchWorld [40]
  /\ Match_createOne alice (connectOnly [40]) matchWorld
     = (matchWorld, Throw duplicateMatchError)
  /\ Match_updateOne alice 51 (connectOnly [40]) matchWorld
     = (matchWorld, Throw duplicateMatchError).
Proof.
  assert (D : duplicates alice matchWorld [40]).
  { exists (mkMatch 50 (Some 9) [40] []).
    split; [now left|]. split; [reflexivity|].
    split; [repeat constructor; intros []|].
    intro id. reflexivity. }
  assert (N : NoDup [40]) by (repeat constructor; intros []).
  assert (Hne : [40] <> []) by discriminate.
  assert (C : connectsOnly (connectOnly [40])).
  { split; intros r H; inversion H; reflexivity. }
  destruct (duplicate_input_is_rejected alice (connectOnly [40]) matchWorld
              (mkRelInput None (Some [40]) None) [40]
              C eq_refl eq_refl Hne N D) as [Hc Hu].
  split; [exact D|]. split.
  - exact (Hc eq_refl eq_refl).
  - exact (Hu 51 (mkMatch 51 (Some 9) [] []) eq_refl eq_refl).
Defined.

(** C5 as stated fails for the empty input set: the check is skipped when
    the connect list is empty, so a second Match without input is stored
    next to Match 51. *)
Lemma empty_input_is_not_rejected :
  let run := Match_createOne alice (connectOnly []) matchWorld in
  snd run = Ok (mkMatch 100 (Some 9) [] [])
  /\ In (mkMatch 51 (Some 9) [] []) (matches (fst run))
  /\ In (mkMatch 100 (Some 9) [] []) (matches (fst run))
  /\ inputIds alice (fst run) (mkMatch 51 (Some 9) [] []) = []
  /\ inputIds alice (fst run) (mkMatch 100 (Some 9) [] []) = [].
Proof.
  vm_compute. repeat split; auto.
Qed.

(** ** Match resolution for an order *)


Lemma Order_findOne_as_run ctx id w o :
  orderRow id w = Some o -> canReadOrders ctx (o_user o) = true ->
  Order_findOne_as ctx id w = (w, Ok (Some o)).
Proof.
  unfold orderRow, Order_findOne_as. intros Hf Hr. do 2 f_equal.
  induction (orders w) as [|a l IH]; simpl in *; [discriminate|].
  destruct (Nat.eqb (o_id a) id); simpl.
  - inversion Hf; subst. now rewrite Hr.
  - now apply IH.
Qed.



Lemma Order_updateOne_as_run ctx orderId f w o :
  orderRow orderId w = Some o ->
  rules.canManageOrders ctx (o_user o) = true ->
  Order_updateOne_as ctx orderId f w = Order_updateOne orderId f w.
Proof.
  intros Ho Hm. unfold Order_updateOne_as, Order_updateOne.
  unfold orderRow in Ho. rewrite Ho.
  assert (Hf : find (fun o0 => Nat.eqb (o_id o0) orderId
                               && rules.canManageOrders ctx (o_user o0))
                    (orders w) = Some o).
  { induction (orders w) as [|a l IH]; simpl in *; [discriminate|].
    destruct (Nat.eqb (o_id a) orderId); simpl.
    - inversion Ho; subst. now rewrite Hm.
    - now apply IH. }
  now rewrite Hf.
Qed.



Lemma sameOrders_refl w : sameOrders w w.
Proof. reflexivity. Qed.

Lemma sameOrders_trans a b c :
  sameOrders a b -> sameOrders b c -> sameOrders a c.
Proof. unfold sameOrders. congruence. Qed.

Lemma CartItem_createOne_as_cases ctx data w :
  (exists e, CartItem_createOne_as ctx data w = (w, Throw e))
  \/ (let row := set_ci_user (or_id (ci_user (data (nextId w)))
                                    (sessionId ctx))
                   (data (nextId w)) in
      CartItem_createOne_as ctx data w
      = (set_nextId (set_cartItems w (cartItems w ++ [row])) (S (nextId w)),
         Ok row)).
Proof.
  unfold CartItem_createOne_as. cbv zeta.
  destruct (negb (int32 _)); [left; eexists; reflexivity|].
  destruct (negb (isSignedIn ctx)); [left; eexists; reflexivity|].
  destruct (negb (cartItemConnects _ _ _)); [left; eexists; reflexivity|].
  destruct (negb (truthy _)); [left; eexists; reflexivity|].
  now right.
Qed.

Lemma CartItem_createOne_as_sameOrders ctx data :
  stable sameOrders (CartItem_createOne_as ctx data).
Proof.
  intro w.
  destruct (CartItem_createOne_as_cases ctx data w) as [[e E]|E];
    rewrite E; reflexivity.
Qed.

Lemma createCartItems_sameOrders A ctx order found :
  stable sameOrders (createCartItems A ctx order found).
Proof.
  unfold createCartItems, createCartItem, getChannelProduct.
  repeat first
    [ apply stable_ret; apply sameOrders_refl
    | apply CartItem_createOne_as_sameOrders
    | apply stable_throw; apply sameOrders_refl
    | apply stable_get_world; apply sameOrders_refl
    | apply stable_outcome; apply sameOrders_refl
    | apply stable_bind; [apply sameOrders_trans | | intro]
    | apply stable_if
    | apply stable_for_of;
        [apply sameOrders_refl | apply sameOrders_trans | intros ? ? _]
    | match goal with
      | |- stable _ (match ?x with Some _ => _ | None => _ end) => destruct x
      end
    | (intro w; reflexivity) ].
Qed.



Lemma readUser_Some ctx u :
  canReadPeople ctx u = true -> readUser ctx (Some u) = Some u.
Proof. intro H. unfold readUser. now rewrite H. Qed.



(** ** Replacing a Match from an order *)

(** C10 (the code departs from the claim).  The caller owns two Matches
    that cover the tuple of the order's line item: Match 52 on a ShopItem
    of another storefront, found first, and Match 50 on the ShopItem of
    the order's storefront.  [matchOrder] deletes Match 52, leaves Match
    50, and the creation of the new Match is rejected as a duplicate of
    Match 50. *)
Theorem matchOrder_deletes_first_and_rejects :
  let run := matchOrder merchant 1 twoRecipesWorld in
  exactMatches merchant 9 (lineItemsAs merchant 1 twoRecipesWorld)
    twoRecipesWorld
    = [mkMatch 52 (Some 9) [42] [60]; mkMatch 50 (Some 9) [40] [60]]
  /\ snd run = Throw duplicateMatchError
  /\ matches (fst run) = [mkMatch 50 (Some 9) [40] [60]].
Proof.
  vm_compute. repeat split.
Qed.

Lemma duplicateCheckOnCreate_passes ctx d ids input w :
  md_input d = Some input -> rel_connect input = Some ids ->
  (ids <> [] -> checkForDuplicate ctx ids w = (w, Ok false)) ->
  duplicateCheckOnCreate ctx d w = (w, Ok tt).
Proof.
  intros Hi Hc Hchk. unfold duplicateCheckOnCreate. rewrite Hi, Hc.
  destruct ids as [|id0 ids']; [reflexivity|].
  change (Nat.ltb 0 (List.length (id0 :: ids'))) with true. cbv iota.
  unfold bind. rewrite Hchk by discriminate. reflexivity.
Qed.

(** ** What an attempted placement records *)

Lemma updateLoop_sets items url e p :
  forall acc w,
    (forall x, In x items -> In (ci_id x) (map ci_id (cartItems w))) ->
    exists w' res,
      for_of items acc
        (fun update c =>
           res <- CartItem_updateOne (ci_id c) (set_outcome url e p) ;;
           ret (update ++ [res])) w
      = (w', Ok res)
      /\ cartItems w' = map (withOutcome items url e p) (cartItems w)
      /\ trace w' = trace w.
Proof.
  induction items as [|x items IH]; intros acc w H.
  - exists w, acc. split; [reflexivity|]. split; [|reflexivity].
    unfold withOutcome. simpl. now rewrite map_id.
  - destruct (find_by_id_in _ ci_id (cartItems w) (ci_id x)) as [row E].
    { apply H. now left. }
    simpl for_of. unfold bind at 1. unfold bind at 1.
    unfold CartItem_updateOne at 1. rewrite E. unfold ret at 1.
    set (w1 := set_cartItems w _).
    destruct (IH (acc ++ [set_outcome url e p row]) w1) as [w' [res [E' [C' T']]]].
    { intros y Hy. unfold w1. simpl. rewrite map_update_ids by reflexivity.
      apply H. now right. }
    exists w', res. split; [exact E'|]. split; [|exact T'].
    rewrite C'. unfold w1. simpl. rewrite map_map. apply map_ext.
    intro c. unfold withOutcome, includes. simpl.
    destruct (Nat.eqb (ci_id c) (ci_id x)) eqn:Ex; simpl; [|reflexivity].
    now destruct (existsb (Nat.eqb (ci_id c)) (map ci_id items)).
Qed.

Lemma updateCartItems_sets items url e p w :
  (forall x, In x items -> In (ci_id x) (map ci_id (cartItems w))) ->
  exists w' res,
    updateCartItems items url e p w = (w', Ok res)
    /\ cartItems w' = map (withOutcome items url e p) (cartItems w)
    /\ trace w' = trace w.
Proof. apply updateLoop_sets. Qed.

Lemma In_withOutcome items url e p l c :
  In c (map (withOutcome items url e p) l) ->
  In (ci_id c) (map ci_id items) ->
  exists c0, c = set_outcome url e p c0.
Proof.
  intros Hin Hid. apply in_map_iff in Hin. destruct Hin as [c0 [Hc _]].
  exists c0. unfold withOutcome in Hc.
  destruct (includes (map ci_id items) (ci_id c0)) eqn:E; [now symmetry|].
  subst c. apply includes_In in Hid. unfold includes in E. congruence.
Qed.

Lemma withOutcome_ids items url e p l :
  map ci_id (map (withOutcome items url e p) l) = map ci_id l.
Proof.
  rewrite map_map. apply map_ext. intro c. unfold withOutcome.
  now destruct (includes (map ci_id items) (ci_id c)).
Qed.

Lemma recordOutcome_sets items r w :
  (forall x, In x items -> In (ci_id x) (map ci_id (cartItems w))) ->
  exists w1,
    recordOutcome items r w = (w1, Ok tt)
    /\ cartItems w1
       = (if truthy (pr_purchaseId r)
          then map (withOutcome items (pr_url r) "" (pr_purchaseId r))
          else fun l => l)
           ((if truthy (pr_error r)
             then map (withOutcome items ""
                         ("ORDER_PLACEMENT_ERROR: " ++ pr_error r) "")
             else fun l => l) (cartItems w)).
Proof.
  intro H. unfold recordOutcome.
  assert (H1 : exists w1,
             (if truthy (pr_error r)
              then updateCartItems items ""
                     ("ORDER_PLACEMENT_ERROR: " ++ pr_error r) "" ;; ret tt
              else ret tt) w = (w1, Ok tt)
             /\ cartItems w1
                = (if truthy (pr_error r)
                   then map (withOutcome items ""
                               ("ORDER_PLACEMENT_ERROR: " ++ pr_error r) "")
                   else fun l => l) (cartItems w)).
  { destruct (truthy (pr_error r)).
    - destruct (updateCartItems_sets items ""
                  ("ORDER_PLACEMENT_ERROR: " ++ pr_error r) "" w H)
        as [w1 [res [E [C _]]]].
      exists w1. split; [now rewrite (bind_run _ _ _ _ _ _ _ E) | exact C].
    - exists w. split; reflexivity. }
  destruct H1 as [w1 [E1 C1]]. rewrite (bind_run _ _ _ _ _ _ _ E1).
  assert (I1 : forall x, In x items ->
                         In (ci_id x) (map ci_id (cartItems w1))).
  { intros x Hx. rewrite C1.
    destruct (truthy (pr_error r)); [rewrite withOutcome_ids|]; now apply H. }
  destruct (truthy (pr_purchaseId r)).
  - destruct (updateCartItems_sets items (pr_url r) "" (pr_purchaseId r) w1 I1)
      as [w2 [res [E [C _]]]].
    exists w2. split; [now rewrite (bind_run _ _ _ _ _ _ _ E)|].
    now rewrite C, C1.
  - exists w1. split; [reflexivity | exact C1].
Qed.

Lemma attemptPurchase_cases A ch items order w :
  attemptPurchase A ch items order w
  = let w0 := set_trace w (trace w ++ [CreatePurchaseCall (ch_id ch) items]) in
    match createPurchaseFunction A (trace w) ch items order with
    | Returned r =>
        match recordOutcome items r w0 with
        | (w1, Ok a) => (w1, Ok a)
        | (w1, Throw error) =>
            (updateCartItems items ""
               ("ORDER_PLACEMENT_ERROR: " ++
                or_else (message error) placementErrorDefault) "" ;;
             ret tt) w1
        end
    | Threw msg =>
        (updateCartItems items ""
           ("ORDER_PLACEMENT_ERROR: " ++ or_else msg placementErrorDefault) "" ;;
         ret tt) w0
    end.
Proof.
  unfold attemptPurchase, try_catch, createChannelPurchase, bind, get_world,
    emit, modify, outcome.
  destruct (createPurchaseFunction A (trace w) ch items order); reflexivity.
Qed.

(** Unless the adapter's answer carries neither an error nor a purchase
    id, every cart item of the attempt ends in one of the two states of
    the spec; in that one case the attempt writes nothing. *)
Lemma attempt_records_outcome A ch items order w :
  (forall x, In x items -> In (ci_id x) (map ci_id (cartItems w))) ->
  let w' := fst (attemptPurchase A ch items order w) in
  match createPurchaseFunction A (trace w) ch items order with
  | Returned r =>
      if truthy (pr_error r) || truthy (pr_purchaseId r)
      then forall c, In c (cartItems w') -> In (ci_id c) (map ci_id items) ->
                     settled c
      else cartItems w' = cartItems w
  | Threw _ =>
      forall c, In c (cartItems w') -> In (ci_id c) (map ci_id items) ->
                settled c
  end.
Proof.
  intros H w'. unfold w'. rewrite attemptPurchase_cases. cbv zeta.
  set (w0 := set_trace w (trace w ++ [CreatePurchaseCall (ch_id ch) items])).
  assert (H0 : forall x, In x items -> In (ci_id x) (map ci_id (cartItems w0)))
    by exact H.
  destruct (createPurchaseFunction A (trace w) ch items order) as [r|msg].
  - destruct (recordOutcome_sets items r w0 H0) as [w1 [E C]].
    rewrite E. simpl fst. rewrite C.
    destruct (truthy (pr_purchaseId r)) eqn:Ep.
    + rewrite orb_true_r. intros c Hc Hid.
      destruct (In_withOutcome _ _ _ _ _ _ Hc Hid) as [c0 ->].
      left. simpl. split; [exact Ep | reflexivity].
    + rewrite orb_false_r. destruct (truthy (pr_error r)); [|reflexivity].
      intros c Hc Hid.
      destruct (In_withOutcome _ _ _ _ _ _ Hc Hid) as [c0 ->].
      right. simpl. split; [reflexivity|]. eauto.
  - match goal with
    | |- context [updateCartItems items ?u ?e ?p] =>
        destruct (updateCartItems_sets items u e p w0 H0)
          as [w1 [res1 [E1 [C1 _]]]]
    end.
    unfold bind. rewrite E1. simpl. intros c Hc Hid. rewrite C1 in Hc.
    destruct (In_withOutcome _ _ _ _ _ _ Hc Hid) as [c0 ->].
    right. simpl. split; [reflexivity|]. eauto.
Qed.

Example rejected_purchase_is_recorded :
  let w := fst (placeMultipleOrders failingAdapters [1] oneItemWorld) in
  map ci_error (cartItems w) = ["ORDER_PLACEMENT_ERROR: out of stock"]
  /\ map ci_purchaseId (cartItems w) = [""]
  /\ statusOf 1 w = Some "PENDING".
Proof. vm_compute. repeat split. Qed.

(** ** Cancelling an order or a purchase *)

Lemma includes_filter_unique (p : CartItem -> bool) l c :
  NoDup (map ci_id l) -> In c l ->
  includes (map ci_id (filter p l)) (ci_id c) = p c.
Proof.
  intros U Hc. destruct (p c) eqn:E.
  - unfold includes. apply includes_In. apply in_map. apply filter_In. auto.
  - destruct (includes (map ci_id (filter p l)) (ci_id c)) eqn:I; [|reflexivity].
    unfold includes in I. apply includes_In in I. apply in_map_iff in I.
    destruct I as [c2 [Hid Hc2]]. apply filter_In in Hc2.
    destruct Hc2 as [Hc2 Hp].
    assert (c2 = c) by (eapply NoDup_map_injective_on; eauto).
    subst. congruence.
Qed.

(** A loop of [updateOne] calls over rows of the store rewrites exactly
    the rows that carry one of their ids. *)
Lemma rewriteLoop_sets (f : CartItem -> CartItem) items :
  (forall c, ci_id (f c) = ci_id c) -> (forall c, f (f c) = f c) ->
  forall w,
    (forall x, In x items -> In (ci_id x) (map ci_id (cartItems w))) ->
    for_of items tt (fun _ c => CartItem_updateOne (ci_id c) f ;; ret tt) w
    = (set_cartItems w
         (map (fun c => if includes (map ci_id items) (ci_id c)
                        then f c else c) (cartItems w)),
       Ok tt).
Proof.
  intros Hid Hff. induction items as [|x items IH]; intros w H.
  - destruct w. unfold set_cartItems. simpl. now rewrite map_id.
  - destruct (find_by_id_in _ ci_id (cartItems w) (ci_id x)) as [row E].
    { apply H. now left. }
    simpl for_of. unfold bind at 1. unfold bind at 1.
    unfold CartItem_updateOne at 1. rewrite E. unfold ret at 1.
    rewrite IH.
    + f_equal. unfold set_cartItems. simpl. f_equal.
      rewrite map_map. apply map_ext. intro c. unfold includes. simpl.
      destruct (Nat.eqb (ci_id c) (ci_id x)); simpl.
      * rewrite Hid, Hff.
        now destruct (existsb (Nat.eqb (ci_id c)) (map ci_id items)).
      * reflexivity.
    + intros y Hy. simpl. rewrite map_update_ids by exact Hid.
      apply H. now right.
Qed.

Lemma rewriteLoop_filter (f : CartItem -> CartItem) (p : CartItem -> bool) w w0 :
  (forall c, ci_id (f c) = ci_id c) -> (forall c, f (f c) = f c) ->
  cartItems w0 = cartItems w -> uniqueIds w ->
  for_of (filter p (cartItems w)) tt
    (fun _ c => CartItem_updateOne (ci_id c) f ;; ret tt) w0
  = (set_cartItems w0 (map (fun c => if p c then f c else c) (cartItems w)),
     Ok tt).
Proof.
  intros Hid Hff Hc U. rewrite rewriteLoop_sets; try assumption.
  - f_equal. f_equal. rewrite Hc. apply map_ext_in. intros c Hin.
    now rewrite includes_filter_unique.
  - intros x Hx. rewrite Hc. apply in_map. apply filter_In in Hx. tauto.
Qed.

(** X1.  [cancelOrder] on an order of the store marks the order and
    every cart item of the order CANCELLED and changes nothing else: the
    cart items of other orders, the other orders and the trace of outside
    calls are as they were.  On an id that is not in the store it fails
    with [Failed to cancel order: ...] and changes nothing. *)
Theorem cancelOrder_cancels_order_and_cart (orderId : Id) (w : World) :
  (orderRow orderId w = None ->
   cancelOrder orderId w
   = (w, Throw (Error ("Failed to cancel order: "
                       ++ message (accessDenied "Order")))))
  /\ (forall order,
        orderRow orderId w = Some order ->
        uniqueIds w ->
        cancelOrder orderId w
        = (set_cartItems
             (set_orders w (withOrderStatus orderId "CANCELLED" (orders w)))
             (cancelWhere (fun c => opt_eqb (ci_order c) orderId)
                          (cartItems w)),
           Ok "Order cancelled successfully")).
Proof.
  split.
  - intro H. unfold cancelOrder, try_catch, bind, Order_updateOne.
    unfold orderRow in H. now rewrite H.
  - intros order H U. unfold cancelOrder, try_catch.
    rewrite (bind_run _ _ _ _ _ _ _
               (Order_updateOne_runs orderId (set_status "CANCELLED") w order H)).
    set (w1 := set_orders w _).
    rewrite (bind_run _ _ _ _ _ _ _ (eq_refl : get_world w1 = (w1, Ok w1))).
    unfold cartItemsOf.
    rewrite (bind_run _ _ _ _ _ _ _
               (rewriteLoop_filter (set_ci_status "CANCELLED")
                  (fun c => opt_eqb (ci_order c) orderId) w w1
                  (fun c => eq_refl) (fun c => eq_refl) eq_refl U)).
    reflexivity.
Qed.

Lemma cancelOrder_cancels_order_and_cart_witness :
  orderRow 1 twoOrderWorld = Some (sampleOrder "PENDING")
  /\ uniqueIds twoOrderWorld
  /\ map o_status (orders (fst (cancelOrder 1 twoOrderWorld)))
     = ["CANCELLED"; "PENDING"]
  /\ map ci_status (cartItems (fst (cancelOrder 1 twoOrderWorld)))
     = ["CANCELLED"; "PENDING"].
Proof.
  assert (U : uniqueIds twoOrderWorld).
  { unfold uniqueIds. simpl. repeat constructor; simpl; intuition discriminate. }
  split; [reflexivity|]. split; [exact U|].
  rewrite (proj2 (cancelOrder_cancels_order_and_cart 1 twoOrderWorld)
             (sampleOrder "PENDING") eq_refl U).
  split; reflexivity.
Defined.

(** X2.  [cancelPurchase] never fails: it marks CANCELLED exactly the
    cart items that carry the purchase id, whatever order they belong to,
    and changes nothing else.  In particular no order changes status. *)
Theorem cancelPurchase_cancels_exactly_the_purchase
    (purchaseId : string) (w : World) :
  uniqueIds w ->
  cancelPurchase purchaseId w
  = (set_cartItems w
       (cancelWhere (fun c => String.eqb (ci_purchaseId c) purchaseId)
                    (cartItems w)),
     Ok "Purchase cancelled successfully").
Proof.
  intro U. unfold cancelPurchase, try_catch.
  rewrite (bind_run _ _ _ _ _ _ _ (eq_refl : get_world w = (w, Ok w))).
  rewrite (bind_run _ _ _ _ _ _ _
             (rewriteLoop_filter (set_ci_status "CANCELLED")
                (fun c => String.eqb (ci_purchaseId c) purchaseId) w w
                (fun c => eq_refl) (fun c => eq_refl) eq_refl U)).
  reflexivity.
Qed.

Lemma cancelPurchase_cancels_exactly_the_purchase_witness :
  uniqueIds twoItemWorld
  /\ map ci_status (cartItems (fst (cancelPurchase "P-0" twoItemWorld)))
     = ["CANCELLED"; "PENDING"]
  /\ orders (fst (cancelPurchase "P-0" twoItemWorld)) = orders twoItemWorld.
Proof.
  assert (U : uniqueIds twoItemWorld).
  { unfold uniqueIds. simpl. repeat constructor; simpl; intuition discriminate. }
  split; [exact U|].
  rewrite (cancelPurchase_cancels_exactly_the_purchase "P-0" twoItemWorld U).
  split; reflexivity.
Defined.

(** ** A batch of orders *)

Lemma for_of_app A S (l1 l2 : list A) (body : S -> A -> M S) :
  forall acc w,
    for_of (l1 ++ l2) acc body w
    = match for_of l1 acc body w with
      | (w1, Ok acc1) => for_of l2 acc1 body w1
      | (w1, Throw e) => (w1, Throw e)
      end.
Proof.
  induction l1 as [|x l1 IH]; intros acc w; simpl; [reflexivity|].
  unfold bind. destruct (body acc x w) as [w1 [acc1|e]]; [apply IH | reflexivity].
Qed.

Lemma sparesOrdersOutside_refl ids w : sparesOrdersOutside ids w w.
Proof. apply Forall2_same. intro o. split; auto. Qed.

Lemma sparesOrdersOutside_trans ids a b c :
  sparesOrdersOutside ids a b -> sparesOrdersOutside ids b c ->
  sparesOrdersOutside ids a c.
Proof.
  apply Forall2_compose. intros x y z [H1 P1] [H2 P2]. split; [congruence|].
  intro Hn. rewrite <- (P1 Hn). apply P2. rewrite <- H1. exact Hn.
Qed.

Lemma sparesOrdersOutside_same ids w w' :
  orders w' = orders w -> sparesOrdersOutside ids w w'.
Proof.
  intro H. unfold sparesOrdersOutside. rewrite H. apply sparesOrdersOutside_refl.
Qed.

Lemma Order_updateOne_sparesOutside ids id f :
  In id ids -> (forall o, o_id (f o) = o_id o) ->
  stable (sparesOrdersOutside ids) (Order_updateOne id f).
Proof.
  intros Hin Hf w. unfold Order_updateOne.
  destruct (find _ (orders w)); simpl; [|apply sparesOrdersOutside_refl].
  unfold sparesOrdersOutside. simpl.
  induction (orders w) as [|row l IH]; simpl; constructor; auto.
  destruct (Nat.eqb (o_id row) id) eqn:E; split; auto.
  intro Hn. apply Nat.eqb_eq in E. subst. contradiction.
Qed.

Lemma sparesOrdersOutside_orderRow ids w w' id :
  sparesOrdersOutside ids w w' -> ~ In id ids ->
  orderRow id w' = orderRow id w.
Proof.
  unfold sparesOrdersOutside, orderRow. intros H Hn.
  induction H as [|o o' l l' [Hid P] _ IH]; simpl; [reflexivity|].
  rewrite <- Hid. destruct (Nat.eqb (o_id o) id) eqn:E; [|exact IH].
  apply Nat.eqb_eq in E. rewrite P; [reflexivity|]. now rewrite E.
Qed.

Lemma sparesOrdersOutside_ids ids w w' :
  sparesOrdersOutside ids w w' -> sameOrderIds w w'.
Proof.
  unfold sparesOrdersOutside, sameOrderIds. intro H.
  induction H as [|o o' l l' [Hid _] _ IH]; simpl; [reflexivity|].
  now rewrite IH, Hid.
Qed.

Lemma orderRow_None id w :
  orderRow id w = None <-> ~ In id (map o_id (orders w)).
Proof.
  unfold orderRow. split.
  - intros H Hin. destruct (find_by_id_in _ o_id (orders w) id Hin) as [o E].
    congruence.
  - intro Hn. destruct (find _ (orders w)) as [o|] eqn:E; [|reflexivity].
    exfalso. apply Hn. apply find_some in E. destruct E as [Hin Heq].
    apply Nat.eqb_eq in Heq. rewrite <- Heq. now apply in_map.
Qed.

Ltac orders_step ids :=
  first
    [ apply stable_ret; apply sparesOrdersOutside_refl
    | apply stable_throw; apply sparesOrdersOutside_refl
    | apply stable_get_world; apply sparesOrdersOutside_refl
    | apply stable_outcome; apply sparesOrdersOutside_refl
    | apply stable_bind; [apply sparesOrdersOutside_trans | | intro]
    | apply stable_try_catch; [apply sparesOrdersOutside_trans | | intro]
    | apply stable_if
    | apply stable_for_of;
        [apply sparesOrdersOutside_refl | apply sparesOrdersOutside_trans
        | intros ? ? _]
    | match goal with
      | |- stable _ (match ?x with Some _ => _ | None => _ end) => destruct x
      end
    | (let w := fresh "w" in
       intro w; unfold CartItem_updateOne;
       destruct (find _ (cartItems w));
       apply sparesOrdersOutside_same; reflexivity)
    | (intro; apply sparesOrdersOutside_same; reflexivity) ].

Lemma placeOneOrder_sparesOutside A ids processed orderId :
  In orderId ids ->
  stable (sparesOrdersOutside ids) (placeOneOrder A processed orderId).
Proof.
  intro Hin. unfold placeOneOrder.
  orders_step ids; [orders_step ids|].
  destruct a as [order|]; [|orders_step ids].
  orders_step ids; [orders_step ids|].
  apply stable_for_of;
    [apply sparesOrdersOutside_refl | apply sparesOrdersOutside_trans |].
  intros acc [ch items] _. unfold placeOnChannel.
  destruct (o_user order); [|orders_step ids].
  destruct (ch_platform ch); [|orders_step ids].
  unfold attemptPurchase, recordOutcome, recountAndAdvance, updateCartItems,
    createChannelPurchase, addCartToPlatformOrder.
  repeat first
    [ apply Order_updateOne_sparesOutside; [exact Hin | reflexivity]
    | orders_step ids ].
Qed.

Lemma placeMultipleOrders_sparesOutside A ids ids' :
  incl ids' ids ->
  stable (sparesOrdersOutside ids) (placeMultipleOrders A ids').
Proof.
  intro H. unfold placeMultipleOrders.
  apply stable_for_of;
    [apply sparesOrdersOutside_refl | apply sparesOrdersOutside_trans |].
  intros acc x Hx. apply placeOneOrder_sparesOutside. now apply H.
Qed.

(** X3.  A batch stops at the first id that is not in the store: the
    call throws, the ids after it are not looked at, and what the run did
    for the ids before it stays in the store. *)
Theorem placement_stops_at_unknown_order
    (A : Adapters) (ids : list Id) (bad : Id) (rest : list Id) (w : World)
    (processed : list Order) :
  orderRow bad w = None ->
  snd (placeMultipleOrders A ids w) = Ok processed ->
  exists msg,
    placeMultipleOrders A (ids ++ bad :: rest) w
    = (fst (placeMultipleOrders A ids w), Throw (TypeError msg)).
Proof.
  intros Hbad Hrun. eexists. unfold placeMultipleOrders at 1.
  rewrite for_of_app.
  fold (placeMultipleOrders A ids).
  pose proof (placeMultipleOrders_sparesOutside A ids ids (incl_refl ids) w)
    as HS.
  apply sparesOrdersOutside_ids in HS. unfold sameOrderIds in HS.
  destruct (placeMultipleOrders A ids w) as [w1 r]. simpl in *. subst r.
  assert (Hbad1 : orderRow bad w1 = None).
  { apply orderRow_None. rewrite HS. now apply orderRow_None. }
  simpl for_of. unfold bind, placeOneOrder at 1, Order_findOne.
  unfold orderRow in Hbad1. unfold bind. now rewrite Hbad1.
Qed.

Lemma placement_stops_at_unknown_order_witness :
  let run := placeMultipleOrders acceptingAdapters [1; 3; 2] twoOrderWorld in
  orderRow 3 twoOrderWorld = None
  /\ (exists msg, snd run = Throw (TypeError msg))
  /\ map o_status (orders (fst run)) = ["AWAITING"; "PENDING"]
  /\ map ci_purchaseId (cartItems (fst run)) = ["P-1"; ""].
Proof.
  assert (H : exists msg,
              placeMultipleOrders acceptingAdapters [1; 3; 2] twoOrderWorld
              = (fst (placeMultipleOrders acceptingAdapters [1] twoOrderWorld),
                 Throw (TypeError msg))).
  { exact (placement_stops_at_unknown_order acceptingAdapters [1] 3 [2]
             twoOrderWorld [set_status "AWAITING" (sampleOrder "PENDING")]
             eq_refl eq_refl). }
  destruct H as [msg H]. cbv zeta. rewrite H.
  split; [reflexivity|]. split; [now exists msg|]. split; reflexivity.
Defined.

(** ** Placement keeps to the orders it was given *)

Lemma sparesWhere_refl keep w : sparesWhere keep w w.
Proof.
  split.
  - apply Forall2_same. intro a. split; auto.
  - exists []. split; [now rewrite app_nil_r | intros ? ? ? ? []].
Qed.

Lemma sparesWhere_trans keep a b c :
  sparesWhere keep a b -> sparesWhere keep b c -> sparesWhere keep a c.
Proof.
  intros [F1 [e1 [T1 E1]]] [F2 [e2 [T2 E2]]]. split.
  - eapply Forall2_compose; [|exact F1|exact F2].
    intros x y z [I1 P1] [I2 P2]. split; [congruence|].
    intro Hk. rewrite <- (P1 Hk). apply P2. now rewrite (P1 Hk).
  - exists (e1 ++ e2). split; [now rewrite T2, T1, app_assoc|].
    intros ch items x row Hev Hx Hrow Hk. apply in_app_or in Hev.
    destruct Hev as [Hev|Hev]; [eapply E1; eauto|].
    destruct (@Forall2_In_left _ _ _ _ _ _ F1 Hrow) as [row' [Hrow' [_ P]]].
    rewrite (P Hk) in Hrow'. eapply E2; eauto.
Qed.

Lemma sparesWhere_uniqueIds keep w w' :
  sparesWhere keep w w' -> uniqueIds w -> uniqueIds w'.
Proof.
  intros [HF _] U. unfold uniqueIds in *.
  now rewrite (Forall2_map_ids _ _ _ HF).
Qed.

Lemma sparesWhereIfUnique_refl keep w : sparesWhereIfUnique keep w w.
Proof. intros _. apply sparesWhere_refl. Qed.

Lemma sparesWhereIfUnique_trans keep a b c :
  sparesWhereIfUnique keep a b -> sparesWhereIfUnique keep b c ->
  sparesWhereIfUnique keep a c.
Proof.
  intros Hab Hbc U. eapply sparesWhere_trans; [now apply Hab|].
  apply Hbc. eapply sparesWhere_uniqueIds; [now apply Hab | assumption].
Qed.

Lemma touchesOnly_spares keep (p : CartItem -> bool) w w' :
  uniqueIds w ->
  (forall c, p c = true -> keep c = false) ->
  touchesOnly (map ci_id (filter p (cartItems w))) w w' ->
  sparesWhere keep w w'.
Proof.
  intros U Hp [HF [evs [HT HE]]].
  assert (Hout : forall c, In c (cartItems w) -> keep c = true ->
                   ~ In (ci_id c) (map ci_id (filter p (cartItems w)))).
  { intros c Hc Hk Hin. apply in_map_iff in Hin.
    destruct Hin as [c2 [Hid Hc2]]. apply filter_In in Hc2.
    destruct Hc2 as [Hc2 Hp2].
    assert (c2 = c) by (eapply NoDup_map_injective_on; eauto).
    subst. rewrite (Hp _ Hp2) in Hk. discriminate. }
  split.
  - eapply Forall2_weaken_In; [|exact HF].
    intros a b Ha [Hid P]. split; [assumption|]. intro Hk. apply P. auto.
  - exists evs. split; [assumption|].
    intros ch items x c Hev Hx Hc Hk Heq.
    apply (Hout c Hc Hk). rewrite <- Heq. eapply HE; eauto.
Qed.

Lemma targets_unplaced orderId w ch items x :
  In (ch, items) (targets orderId w) -> In x items ->
  In x (cartItems w) /\ unplaced orderId x = true.
Proof.
  unfold targets, cartChannels. intros Ht Hx.
  apply filter_In in Ht. destruct Ht as [Ht _].
  apply in_map_iff in Ht. destruct Ht as [c [Heq _]].
  inversion Heq; subst. apply filter_In in Hx. destruct Hx as [Hx Hb].
  split; [assumption|].
  apply andb_true_iff in Hb. tauto.
Qed.

Lemma placeOneOrder_keeps_to_order A ids processed orderId :
  In orderId ids ->
  stable (sparesWhereIfUnique (fun c => negb (inOrders ids c)))
         (placeOneOrder A processed orderId).
Proof.
  intros Hin w U.
  apply (touchesOnly_spares _ (unplaced orderId)); [assumption| |].
  - intros c Hc. apply negb_false_iff. unfold inOrders.
    apply existsb_exists. exists orderId. split; [assumption|].
    unfold unplaced in Hc. apply andb_true_iff in Hc. destruct Hc as [Hc _].
    apply andb_true_iff in Hc. tauto.
  - set (S := map ci_id (filter (unplaced orderId) (cartItems w))).
    unfold placeOneOrder, bind, Order_findOne. simpl.
    destruct (find _ (orders w)) as [order|]; simpl; [|apply touchesOnly_refl].
    apply stable_for_of; [apply touchesOnly_refl | apply touchesOnly_trans |].
    intros acc [ch items] Ht. apply placeOnChannel_touches.
    intros x Hx. destruct (targets_unplaced _ _ _ _ _ Ht Hx) as [Hx1 Hx2].
    unfold S. apply in_map. apply filter_In. auto.
Qed.

(** X4.  A placement run for the orders [ids] keeps to them: every
    other order row is as it was, every cart item of another order is as
    it was, and no create-purchase call lists such a cart item. *)
Theorem placement_keeps_to_its_orders
    (A : Adapters) (ids : list Id) (w : World) :
  uniqueIds w ->
  let w' := fst (placeMultipleOrders A ids w) in
  (forall id, ~ In id ids -> orderRow id w' = orderRow id w)
  /\ (forall c, In c (cartItems w) -> inOrders ids c = false ->
                In c (cartItems w'))
  /\ exists evs,
       trace w' = trace w ++ evs
       /\ forall ch items x c,
            In (CreatePurchaseCall ch items) evs -> In x items ->
            In c (cartItems w) -> inOrders ids c = false ->
            ci_id x <> ci_id c.
Proof.
  intros U w'. split.
  - intros id Hn. apply (sparesOrdersOutside_orderRow ids); [|exact Hn].
    apply placeMultipleOrders_sparesOutside, incl_refl.
  - assert (HS : sparesWhere (fun c => negb (inOrders ids c)) w w').
    { cut (stable (sparesWhereIfUnique (fun c => negb (inOrders ids c)))
                  (placeMultipleOrders A ids)).
      { intro H. now apply H. }
      unfold placeMultipleOrders.
      apply stable_for_of;
        [apply sparesWhereIfUnique_refl | apply sparesWhereIfUnique_trans |].
      intros acc x Hx. now apply placeOneOrder_keeps_to_order. }
    destruct HS as [HF [evs [HT HE]]]. split.
    + intros c Hc Hk.
      destruct (@Forall2_In_left _ _ _ _ _ _ HF Hc) as [c' [Hc' [_ P]]].
      rewrite P in Hc'; [exact Hc'|]. now rewrite Hk.
    + exists evs. split; [exact HT|].
      intros ch items x c Hev Hx Hc Hk. apply (HE ch items x c Hev Hx Hc).
      now rewrite Hk.
Qed.

Lemma placement_keeps_to_its_orders_witness :
  let w' := fst (placeMultipleOrders acceptingAdapters [1] twoOrderWorld) in
  uniqueIds twoOrderWorld
  /\ orderRow 2 w' = orderRow 2 twoOrderWorld
  /\ In (mkCartItem 12 (Some 2) (Some 7) (Some 9) "Gadget" "img" "5.00" 2
           "p2" "v1" "" "" "" "" "" "PENDING") (cartItems w').
Proof.
  assert (U : uniqueIds twoOrderWorld).
  { unfold uniqueIds. simpl. repeat constructor; simpl; intuition discriminate. }
  destruct (placement_keeps_to_its_orders acceptingAdapters [1] twoOrderWorld U)
    as [HO [HC _]].
  cbv zeta. split; [exact U|]. split.
  - apply HO. simpl. intuition discriminate.
  - apply HC; [simpl; auto | reflexivity].
Defined.

(** ** The link resolver in the other link modes *)

(** X5.  An order is created with [linkOrder] on a storefront in
    simultaneous mode that has at least one link.  As in sequential mode
    the hook throws at the link of lowest rank, since the [where] built
    from the link's [dynamicWhereClause] is refused: no link is matched,
    no cart item is created and the order row is as it was. *)
Theorem simultaneous_links_throw_at_first_link
    (A : Adapters) (item order : Order) (shop : Shop) (w : World) :
  o_linkOrder item = true ->
  orderRow (o_id item) w = Some order ->
  shopOf order w = Some shop ->
  shopLinks shop w <> [] ->
  sh_linkMode shop = "simultaneous" ->
  exists link rest,
    sortByRank (shopLinks shop w) = link :: rest
    /\ Order_afterOperation A "create" item w
       = (set_trace w (trace w ++ [LinkEvaluated (l_id link)]),
          Throw inputError).
Proof.
  intros Hlink Ho Hshop Hne Hmode.
  destruct (sorted_links_head shop w Hne) as [link [rest [Hsort Hin]]].
  exists link, rest. split; [exact Hsort|].
  rewrite (afterCreate_is_linkBranch A item order shop w) by assumption.
  apply (linkBranch_throws A item order shop w link rest Hsort Hin).
  now right.
Qed.

Lemma simultaneous_links_throw_at_first_link_witness :
  let w := linkWorld "simultaneous" in
  let run := Order_afterOperation acceptingAdapters "create"
               (sampleOrder "PENDING") w in
  orderRow 1 w = Some (sampleOrder "PENDING")
  /\ snd run = Throw inputError
  /\ cartItems (fst run) = []
  /\ orders (fst run) = orders w
  /\ trace (fst run) = [LinkEvaluated 31].
Proof.
  cbv zeta.
  destruct (simultaneous_links_throw_at_first_link acceptingAdapters
              (sampleOrder "PENDING") (sampleOrder "PENDING")
              (mkShop 5 "simultaneous" (Some noShopPlatform))
              (linkWorld "simultaneous") eq_refl eq_refl eq_refl)
    as [link [rest [Hsort E]]].
  - vm_compute. discriminate.
  - reflexivity.
  - split; [reflexivity|]. rewrite E.
    vm_compute in Hsort. inversion Hsort; subst.
    repeat split.
Defined.

(** X6.  An order is created with [linkOrder] on a storefront that has
    links and whose link mode is neither sequential nor simultaneous (the
    select can be emptied).  Then the hook looks at no link, writes [No
    matching link found for this order] on the order and does nothing
    else: no cart item is created, the status stays, nothing is placed
    and the match resolver is not tried. *)
Theorem unmatched_order_gets_link_error
    (A : Adapters) (item order : Order) (shop : Shop) (w : World) :
  o_linkOrder item = true ->
  orderRow (o_id item) w = Some order ->
  shopOf order w = Some shop ->
  shopLinks shop w <> [] ->
  sh_linkMode shop <> "sequential" ->
  sh_linkMode shop <> "simultaneous" ->
  Order_afterOperation A "create" item w
  = (set_orders w (withOrderError (o_id item) noLinkError (orders w)),
     Ok tt).
Proof.
  intros Hlink Ho Hshop Hne Hseq Hsim.
  rewrite (afterCreate_is_linkBranch A item order shop w) by assumption.
  unfold linkBranch. unfold bind at 1. unfold get_world at 1.
  apply String.eqb_neq in Hseq. apply String.eqb_neq in Hsim.
  rewrite Hseq, Hsim. unfold bind at 1. unfold ret at 1.
  change (Nat.ltb 0 (List.length (@nil Link))) with false. cbv iota.
  rewrite (bind_run _ _ _ _ _ _ _
             (Order_updateOne_runs (o_id item) (set_error noLinkError) w
                order Ho)).
  reflexivity.
Qed.

Lemma unmatched_order_gets_link_error_witness :
  let w := linkWorld "" in
  let w' := fst (Order_afterOperation acceptingAdapters "create"
                   (sampleOrder "PENDING") w) in
  orderRow 1 w = Some (sampleOrder "PENDING")
  /\ map o_error (orders w') = [noLinkError]
  /\ map o_status (orders w') = ["PENDING"]
  /\ cartItems w' = []
  /\ trace w' = [].
Proof.
  cbv zeta. split; [reflexivity|].
  rewrite (unmatched_order_gets_link_error acceptingAdapters
             (sampleOrder "PENDING") (sampleOrder "PENDING")
             (mkShop 5 "" (Some noShopPlatform))
             (linkWorld "") eq_refl eq_refl eq_refl).
  - split; [reflexivity|]. split; [reflexivity|]. split; reflexivity.
  - vm_compute. discriminate.
  - discriminate.
  - discriminate.
Defined.

(** ** Ranks of links created one after the other *)

(** X7.  Two links are created one after the other on the same
    storefront by the same caller, and both creations go through.  When
    the caller can read the first link (it owns it, or may see the links
    of others) the second link's rank is the first one's plus one; when
    it cannot, the second link gets the same rank as the first. *)
Theorem successive_links_get_consecutive_ranks
    (ctx : Context) (d1 d2 : LinkData) (shopId : Id) (w w1 w2 : World)
    (first second : Link) :
  ld_shop d1 = Some shopId ->
  ld_shop d2 = Some shopId ->
  Link_createOne ctx d1 w = (w1, Ok first) ->
  Link_createOne ctx d2 w1 = (w2, Ok second) ->
  l_rank second
  = (if canReadLinks ctx (l_user first)
     then l_rank first + 1 else l_rank first)%Z.
Proof.
  intros H1 H2 E1 E2.
  destruct (Link_createOne_run ctx d1 w w1 first E1)
    as [s1 [Hs1 [Hrow1 Hw1]]].
  destruct (Link_createOne_run ctx d2 w1 w2 second E2)
    as [s2 [Hs2 [Hrow2 _]]].
  rewrite H1 in Hs1. inversion Hs1; subst s1.
  rewrite H2 in Hs2. inversion Hs2; subst s2.
  rewrite Hrow2. cbn [l_rank]. rewrite Hw1.
  unfold existingLinks at 1. cbn [links set_nextId set_links].
  rewrite filter_app, length_app. fold (existingLinks ctx shopId w).
  rewrite Hrow1 at 1 2. cbn [filter l_user l_shop opt_eqb].
  rewrite Nat.eqb_refl, andb_true_r.
  rewrite Hrow1. cbn [l_rank l_user].
  destruct (canReadLinks ctx _); simpl List.length; lia.
Qed.

Lemma successive_links_get_consecutive_ranks_witness :
  let run1 := Link_createOne merchant (linkTo 7) linkBase in
  let run2 := Link_createOne merchant (linkTo 8) (fst run1) in
  snd run1 = Ok (mkLink 100 (Some 5) (Some 7) (Some 9) 1)
  /\ snd run2 = Ok (mkLink 101 (Some 5) (Some 8) (Some 9) 2)
  /\ l_rank (mkLink 101 (Some 5) (Some 8) (Some 9) 2) = 2%Z.
Proof.
  cbv zeta. split; [reflexivity|]. split; [reflexivity|].
  exact (successive_links_get_consecutive_ranks merchant (linkTo 7)
           (linkTo 8) 5 linkBase
           (fst (Link_createOne merchant (linkTo 7) linkBase))
           (fst (Link_createOne merchant (linkTo 8)
                   (fst (Link_createOne merchant (linkTo 7) linkBase))))
           (mkLink 100 (Some 5) (Some 7) (Some 9) 1)
           (mkLink 101 (Some 5) (Some 8) (Some 9) 2)
           eq_refl eq_refl eq_refl eq_refl).
Defined.

(** ** The match resolver on a single line item *)

(** X8.  The caller can read the order and its user and may update the
    order.  The order has at most one line item that the caller can read
    and no Match covers it.  Then [getMatches] writes [MATCH_ERROR: No
    matches found] on the order and returns nothing; unlike the path for
    several line items it leaves the order's status as it is.  No cart
    item is created, and [addMatchToCart] throws "No Matches found". *)
Theorem lone_line_item_without_match
    (A : Adapters) (ctx : Context) (orderId userId : Id) (w : World)
    (order : Order) :
  orderRow orderId w = Some order ->
  canReadOrders ctx (o_user order) = true ->
  rules.canManageOrders ctx (o_user order) = true ->
  o_user order = Some userId ->
  canReadPeople ctx userId = true ->
  exactMatches ctx userId (lineItemsAs ctx orderId w) w = [] ->
  List.length (lineItemsAs ctx orderId w) <= 1 ->
  getMatches A ctx orderId w
  = (set_orders w (withOrderError orderId matchErrorNone (orders w)), Ok None)
  /\ (ctx_session ctx <> None ->
      addMatchToCart A ctx orderId w
      = (set_orders w (withOrderError orderId matchErrorNone (orders w)),
         Throw (Error "No Matches found"))).
Proof.
  intros Ho Hread Hmanage Hu Hpeople Hexact Hlen.
  assert (E : getMatches A ctx orderId w
              = (set_orders w (withOrderError orderId matchErrorNone (orders w)),
                 Ok None)).
  { unfold getMatches.
    rewrite (bind_run _ _ _ _ _ _ _ (Order_findOne_as_run ctx orderId w order
                                       Ho Hread)).
    rewrite Hu, (readUser_Some ctx userId Hpeople).
    rewrite (bind_run _ _ _ _ _ _ _ (eq_refl : get_world w = (w, Ok w))).
    rewrite Hexact.
    assert (Hlt : Nat.ltb 1 (List.length (lineItemsAs ctx orderId w)) = false)
      by (apply Nat.ltb_ge; exact Hlen).
    rewrite Hlt.
    assert (Hup : Order_updateOne_as ctx orderId (set_error matchErrorNone) w
                  = (set_orders w
                       (withOrderError orderId matchErrorNone (orders w)),
                     Ok (set_error matchErrorNone order))).
    { rewrite (Order_updateOne_as_run ctx orderId _ w order Ho Hmanage).
      apply (Order_updateOne_runs orderId (set_error matchErrorNone) w
               order Ho). }
    rewrite (bind_run _ _ _ _ _ _ _ Hup).
    reflexivity. }
  split; [exact E|].
  intro Hs. unfold addMatchToCart.
  destruct (ctx_session ctx); [|now contradiction Hs].
  now rewrite (bind_run _ _ _ _ _ _ _ E).
Qed.

Lemma lone_line_item_without_match_witness :
  let run := getMatches acceptingAdapters alice 1 loneItemWorld in
  orderRow 1 loneItemWorld = Some (sampleOrder "PENDING")
  /\ snd run = Ok None
  /\ map o_error (orders (fst run)) = [matchErrorNone]
  /\ map o_status (orders (fst run)) = ["PENDING"]
  /\ cartItems (fst run) = [].
Proof.
  cbv zeta. split; [reflexivity|].
  destruct (lone_line_item_without_match acceptingAdapters alice 1 9
              loneItemWorld (sampleOrder "PENDING")
              eq_refl eq_refl eq_refl eq_refl eq_refl eq_refl) as [E _].
  - simpl. lia.
  - rewrite E. split; [reflexivity|]. split; [reflexivity|].
    split; reflexivity.
Defined.

(** ** What the match resolver adds to the cart *)

Lemma appendsCart_refl orderId w : appendsCart orderId w w.
Proof. exists []. split; [now rewrite app_nil_r | constructor]. Qed.

Lemma appendsCart_trans orderId a b c :
  appendsCart orderId a b -> appendsCart orderId b c -> appendsCart orderId a c.
Proof.
  intros [n1 [E1 F1]] [n2 [E2 F2]]. exists (n1 ++ n2). split.
  - now rewrite E2, E1, app_assoc.
  - apply Forall_app. now split.
Qed.

Lemma appendsCart_same orderId w w' :
  cartItems w' = cartItems w -> appendsCart orderId w w'.
Proof.
  intro H. exists []. split; [now rewrite app_nil_r | constructor].
Qed.

Ltac appends_step :=
  first
    [ apply stable_ret; apply appendsCart_refl
    | apply stable_throw; apply appendsCart_refl
    | apply stable_get_world; apply appendsCart_refl
    | apply stable_outcome; apply appendsCart_refl
    | apply stable_bind; [apply appendsCart_trans | | intro]
    | apply stable_if
    | apply stable_for_of;
        [apply appendsCart_refl | apply appendsCart_trans | intros ? ? _]
    | (let w := fresh "w" in
       intro w; unfold Order_updateOne;
       destruct (find _ (orders w));
       apply appendsCart_same; reflexivity)
    | (let w := fresh "w" in
       intro w; unfold Order_updateOne_as;
       destruct (find _ (orders w));
       apply appendsCart_same; reflexivity)
    | (intro; apply appendsCart_same; reflexivity) ].

Lemma createCartItem_appends A ctx order result out :
  stable (appendsCart (o_id order)) (createCartItem A ctx order result out).
Proof.
  unfold createCartItem.
  appends_step; [appends_step|].
  destruct (chi_channel out) as [cid|]; [|appends_step].
  destruct (Channel_findOne_as ctx cid a) as [channel|]; [|appends_step].
  appends_step.
  - unfold getChannelProduct. appends_step; [appends_step|].
    destruct (ch_platform channel); repeat appends_step.
  - destruct a0 as [product|]; [|appends_step].
    destruct (readUser ctx (chi_user out)) as [uid|]; [|appends_step].
    appends_step; [|appends_step].
    intro w.
    match goal with
    | |- context [CartItem_createOne_as ctx ?d w] =>
        destruct (CartItem_createOne_as_cases ctx d w) as [[e E]|E];
          rewrite E
    end; [apply appendsCart_refl|].
    simpl. eexists. split; [reflexivity|].
    constructor; [|constructor]. simpl.
    split; [reflexivity|]. split; [reflexivity|]. split; [reflexivity|].
    destruct (String.eqb (p_price product) (chi_price out)) eqn:E1; simpl.
    + now left.
    + right. exists (chi_price out). split; [|reflexivity].
      intro H. rewrite H, String.eqb_refl in E1. discriminate.
Qed.

Lemma createCartItems_appends A ctx order found :
  stable (appendsCart (o_id order)) (createCartItems A ctx order found).
Proof.
  unfold createCartItems. appends_step; [|appends_step].
  appends_step. destruct x as [m|]; [|appends_step].
  appends_step; [appends_step|].
  appends_step. apply createCartItem_appends.
Qed.

Lemma Order_findOne_as_id ctx orderId w w' order :
  Order_findOne_as ctx orderId w = (w', Ok (Some order)) -> o_id order = orderId.
Proof.
  unfold Order_findOne_as. intro H. inversion H as [[Hw Hf]].
  apply find_some in Hf. destruct Hf as [_ Hf].
  apply andb_true_iff in Hf. destruct Hf as [Hf _]. now apply Nat.eqb_eq.
Qed.

Lemma getMatches_appends A ctx orderId :
  stable (appendsCart orderId) (getMatches A ctx orderId).
Proof.
  intro w. unfold getMatches. unfold bind at 1.
  destruct (Order_findOne_as ctx orderId w) as [w0 r] eqn:E.
  assert (Hw0 : w0 = w) by (unfold Order_findOne_as in E; now inversion E).
  subst w0. destruct r as [[order|]|e];
    [| apply appendsCart_refl | apply appendsCart_refl].
  pose proof (Order_findOne_as_id _ _ _ _ _ E) as Hid.
  subst orderId. clear E. revert w.
  change (stable (appendsCart (o_id order))
            (match readUser ctx (o_user order) with
             | None => throw (TypeError "Cannot read properties of null (reading 'id')")
             | Some userId =>
                 w <- get_world ;;
                 let lis := lineItemsAs ctx (o_id order) w in
                 match exactMatches ctx userId lis w with
                 | filt :: _ => createCartItems A ctx order [Some filt]
                 | [] =>
                     if Nat.ltb 1 (List.length lis)
                     then
                       output <- for_of lis []
                                   (singleMatch ctx (o_id order) userId) ;;
                       if Nat.ltb 0 (List.length (filter isSome output))
                       then createCartItems A ctx order output
                       else ret None
                     else
                       Order_updateOne_as ctx (o_id order)
                         (set_error matchErrorNone) ;;
                       ret None
                 end
             end)).
  destruct (readUser ctx (o_user order)) as [userId|]; [|appends_step].
  appends_step; [appends_step|]. cbv zeta.
  destruct (exactMatches ctx userId (lineItemsAs ctx (o_id order) a) a);
    [|apply createCartItems_appends].
  appends_step.
  - appends_step.
    + appends_step. unfold singleMatch. appends_step; [appends_step|].
      match goal with
      | |- context [singleAllMatches ?c ?u ?l ?w0] =>
          destruct (singleAllMatches c u l w0)
      end; repeat appends_step.
    + appends_step; [apply createCartItems_appends | appends_step].
  - repeat appends_step.
Qed.

(** X9.  Whatever the store holds and whatever the channels answer,
    [getMatches] and [addMatchToCart] never change or remove a cart item
    that is already there.  They only append cart items, and each
    appended item belongs to the order, carries neither a purchase id nor
    a URL, is PENDING, and has either no error or a [PRICE_CHANGE] note
    that names a saved price different from the price on the item. *)
Theorem match_resolver_only_appends_fresh_items
    (A : Adapters) (ctx : Context) (orderId : Id) (w : World) :
  appendsCart orderId w (fst (getMatches A ctx orderId w))
  /\ appendsCart orderId w (fst (addMatchToCart A ctx orderId w)).
Proof.
  split; [apply getMatches_appends|].
  revert w. change (stable (appendsCart orderId) (addMatchToCart A ctx orderId)).
  unfold addMatchToCart. destruct (ctx_session ctx); [|appends_step].
  appends_step; [apply getMatches_appends|].
  destruct a; appends_step.
Qed.

(** ** Match processing inside the create hook *)

Lemma sameOrders_sparesOutside ids A (c : M A) :
  stable sameOrders c -> stable (sparesOrdersOutside ids) c.
Proof. intros H w. apply sparesOrdersOutside_same. apply H. Qed.

Lemma Order_updateOne_as_sparesOutside ctx ids id f :
  In id ids -> (forall o, o_id (f o) = o_id o) ->
  stable (sparesOrdersOutside ids) (Order_updateOne_as ctx id f).
Proof.
  intros Hin Hf w. unfold Order_updateOne_as.
  destruct (find _ (orders w)); simpl; [|apply sparesOrdersOutside_refl].
  unfold sparesOrdersOutside. simpl.
  induction (orders w) as [|row l IH]; simpl; constructor; auto.
  destruct (Nat.eqb (o_id row) id) eqn:E; split; auto.
  intro Hn. apply Nat.eqb_eq in E. subst. contradiction.
Qed.

Lemma getMatches_sparesOutside A ctx ids orderId :
  In orderId ids ->
  stable (sparesOrdersOutside ids) (getMatches A ctx orderId).
Proof.
  intro Hin. unfold getMatches.
  orders_step ids; [orders_step ids|].
  destruct a as [order|]; [|orders_step ids].
  destruct (readUser ctx (o_user order)) as [userId|]; [|orders_step ids].
  orders_step ids; [orders_step ids|]. cbv zeta.
  destruct (exactMatches ctx userId (lineItemsAs ctx orderId a) a);
    [|apply sameOrders_sparesOutside, createCartItems_sameOrders].
  orders_step ids.
  - orders_step ids.
    + orders_step ids. unfold singleMatch.
      orders_step ids; [orders_step ids|].
      match goal with
      | |- context [singleAllMatches ?c ?u ?l ?w0] =>
          destruct (singleAllMatches c u l w0)
      end; [|orders_step ids].
      orders_step ids; [|orders_step ids].
      apply Order_updateOne_as_sparesOutside; [exact Hin | reflexivity].
    + orders_step ids; [|orders_step ids].
      apply sameOrders_sparesOutside, createCartItems_sameOrders.
  - orders_step ids; [|orders_step ids].
    apply Order_updateOne_as_sparesOutside; [exact Hin | reflexivity].
Qed.

Lemma matchAttempt_sparesOutside A item :
  stable (sparesOrdersOutside [o_id item])
    (getMatches A sudo (o_id item) ;;
     order2 <- Order_findOne_as sudo (o_id item) ;;
     if match order2 with Some o => truthy (o_error o) | None => false end
     then Order_updateOne (o_id item) (set_status "PENDING") ;; ret tt
     else if o_processOrder item
          then placeMultipleOrders A [o_id item] ;; ret tt
          else ret tt).
Proof.
  orders_step [o_id item].
  - apply getMatches_sparesOutside. now left.
  - orders_step [o_id item]; [orders_step [o_id item]|].
    orders_step [o_id item].
    + orders_step [o_id item]; [|orders_step [o_id item]].
      apply Order_updateOne_sparesOutside; [now left | reflexivity].
    + orders_step [o_id item]; [|orders_step [o_id item]].
      orders_step [o_id item]; [|orders_step [o_id item]].
      apply placeMultipleOrders_sparesOutside, incl_refl.
Qed.

Lemma matchHandler_run item e w order :
  orderRow (o_id item) w = Some order ->
  (emit (ConsoleLog "Error during match processing:") ;;
   Order_updateOne (o_id item)
     (fun o => set_status "PENDING"
                 (set_error ("Match processing failed: " ++ message e) o)) ;;
   ret tt) w
  = (set_orders
       (set_trace w (trace w ++ [ConsoleLog "Error during match processing:"]))
       (updatedOrders (o_id item) (matchFailure e) (orders w)),
     Ok tt).
Proof.
  intro Ho.
  set (w1 := set_trace w
               (trace w ++ [ConsoleLog "Error during match processing:"])).
  rewrite (bind_run _ _ _ _ _ _ _
             (eq_refl : emit (ConsoleLog "Error during match processing:") w
                        = (w1, Ok tt))).
  assert (Ho1 : orderRow (o_id item) w1 = Some order) by exact Ho.
  rewrite (bind_run _ _ _ _ _ _ _
             (Order_updateOne_runs (o_id item) _ w1 order Ho1)).
  reflexivity.
Qed.

(** X10.  An order is created with [matchOrder] on, and either
    [linkOrder] is off or the order's storefront has no link.  Then the
    create hook hands the order to the match resolver and never throws:
    whatever goes wrong while the order is matched or placed is caught.
    When [getMatches] throws, the hook logs it, writes [Match processing
    failed: <message>] on the order, sets the order PENDING, and places
    nothing. *)
Theorem match_failure_is_recorded_on_order
    (A : Adapters) (item order : Order) (w : World) :
  notLinked item order w ->
  o_matchOrder item = true ->
  orderRow (o_id item) w = Some order ->
  snd (Order_afterOperation A "create" item w) = Ok tt
  /\ forall w1 e,
       getMatches A sudo (o_id item) w = (w1, Throw e) ->
       Order_afterOperation A "create" item w
       = (set_orders
            (set_trace w1
               (trace w1 ++ [ConsoleLog "Error during match processing:"]))
            (updatedOrders (o_id item) (matchFailure e) (orders w1)),
          Ok tt).
Proof.
  intros Hlink Hmatch Ho.
  assert (Hhook : Order_afterOperation A "create" item w = matchBranch A item w).
  { unfold Order_afterOperation. rewrite String.eqb_refl.
    unfold bind at 1. rewrite Order_findOne_as_sudo, Ho.
    unfold bind at 1. unfold get_world at 1. rewrite Hmatch.
    destruct Hlink as [Hoff|Hnone]; [now rewrite Hoff|].
    destruct (shopOf order w) as [shop|] eqn:Hshop;
      [rewrite (Hnone shop eq_refl)|]; now destruct (o_linkOrder item). }
  rewrite Hhook. unfold matchBranch, try_catch.
  pose proof (matchAttempt_sparesOutside A item w) as HS.
  apply sparesOrdersOutside_ids in HS. unfold sameOrderIds in HS.
  assert (Hrow : forall w1, map o_id (orders w1) = map o_id (orders w) ->
                            exists o1, orderRow (o_id item) w1 = Some o1).
  { intros w1 H1. destruct (orderRow (o_id item) w1) as [o1|] eqn:E1;
      [now exists o1|].
    apply orderRow_None in E1. rewrite H1 in E1. exfalso. apply E1.
    unfold orderRow in Ho. apply find_some in Ho. destruct Ho as [Hin Heq].
    apply Nat.eqb_eq in Heq. rewrite <- Heq. now apply in_map. }
  split.
  - match type of HS with
    | context [fst (?body w)] => destruct (body w) as [w1 [[]|e]] eqn:E
    end; [reflexivity|].
    simpl in HS. destruct (Hrow w1 HS) as [o1 Ho1].
    now rewrite (matchHandler_run item e w1 o1 Ho1).
  - intros w1 e Eg.
    pose proof (getMatches_sparesOutside A sudo [o_id item] (o_id item)
                  (or_introl eq_refl) w) as HG.
    apply sparesOrdersOutside_ids in HG. unfold sameOrderIds in HG.
    rewrite Eg in HG. simpl in HG. destruct (Hrow w1 HG) as [o1 Ho1].
    unfold bind at 1. rewrite Eg.
    now rewrite (matchHandler_run item e w1 o1 Ho1).
Qed.

Lemma match_failure_is_recorded_on_order_witness :
  let run := Order_afterOperation failingAdapters "create" unlinkedOrder
               oneRecipeWorld in
  orderRow 1 oneRecipeWorld = Some (sampleOrder "PENDING")
  /\ snd run = Ok tt
  /\ map o_error (orders (fst run))
     = ["Match processing failed: product lookup failed"]
  /\ map o_status (orders (fst run)) = ["PENDING"]
  /\ map ci_purchaseId (cartItems (fst run)) = [""].
Proof.
  cbv zeta. split; [reflexivity|].
  destruct (match_failure_is_recorded_on_order failingAdapters unlinkedOrder
              (sampleOrder "PENDING") oneRecipeWorld (or_introl eq_refl)
              eq_refl eq_refl)
    as [H1 H2].
  split; [exact H1|].
  rewrite (H2 (set_trace oneRecipeWorld [GetProductCall 7 "p1" "v1"])
              (Error "product lookup failed") eq_refl).
  split; [reflexivity|]. split; reflexivity.
Defined.

(** ** What storing a tracking detail can change *)






(** ** Adding to a cart by hand *)

Lemma sameLine_created orderId channelId userId productId variantId
    id name image price q :
  sameLine orderId channelId userId productId variantId
    (mkCartItem id (Some orderId) (Some channelId) (Some userId) name image
       price q productId variantId "" "" "" "" "" "PENDING") = true.
Proof.
  unfold sameLine. simpl. now rewrite !Nat.eqb_refl, !String.eqb_refl.
Qed.

Lemma map_update_fresh (f : CartItem -> CartItem) id l :
  (forall c, In c l -> ci_id c <> id) ->
  map (fun c => if Nat.eqb (ci_id c) id then f c else c) l = l.
Proof.
  intro H. rewrite <- (map_id l) at 2. apply map_ext_in. intros c Hc.
  destruct (Nat.eqb (ci_id c) id) eqn:E; [|reflexivity].
  apply Nat.eqb_eq in E. now contradiction (H c Hc).
Qed.

(** X12.  The caller has no open line (not cancelled, not placed) for the
    product on the order and channel; the order and the channel are
    stored and visible to the caller, the name is not empty and the
    quantity fits an [Int].  Then a first [addToCart] appends one PENDING
    cart item with the given quantity.  A second [addToCart] for the same
    product adds its quantity to that item and creates nothing, dropping
    the name, image and price given the second time, as long as the sum
    fits an [Int]; when it does not, the second call changes no cart
    item.  No other cart item changes. *)
Theorem addToCart_accumulates_on_one_line
    (ctx : Context) (session : Session) (channelId orderId : Id)
    (image name price image2 name2 price2 productId variantId : string)
    (q1 q2 : Z) (w : World) :
  ctx_session ctx = Some session ->
  cartIdsBelowNext w ->
  filter (sameLine orderId channelId (itemId session) productId variantId)
         (cartItems w) = [] ->
  let line := fun q =>
    mkCartItem (nextId w) (Some orderId) (Some channelId)
      (Some (itemId session)) name image price q productId variantId
      "" "" "" "" "" "PENDING" in
  cartItemConnects ctx (line q1) w = true ->
  truthy name = true ->
  int32 q1 = true ->
  let w1 := fst (addToCart ctx channelId image name price productId
                   variantId (Some q1) orderId w) in
  let w2 := fst (addToCart ctx channelId image2 name2 price2 productId
                   variantId (Some q2) orderId w1) in
  cartItems w1 = cartItems w ++ [line q1]
  /\ cartItems w2
     = cartItems w ++ [line (if int32 (q1 + q2) then q1 + q2 else q1)%Z].
Proof.
  intros Hs Hfresh Hnone line Hconn Hname Hq1 w1 w2.
  assert (E1 : w1 = set_nextId (set_cartItems w (cartItems w ++ [line q1]))
                      (S (nextId w))).
  { unfold w1, addToCart. rewrite Hs. unfold bind at 1. unfold get_world at 1.
    rewrite Hnone. unfold bind at 1. unfold CartItem_createOne_as.
    cbv zeta. fold (line q1). cbn [ci_quantity line].
    unfold isSignedIn.
    change (ci_name (line q1)) with name.
    rewrite Hq1, Hs, Hconn, Hname, orb_true_r.
    reflexivity. }
  split; [now rewrite E1|].
  unfold w2. rewrite E1. clear w1 w2 E1.
  set (w1 := set_nextId _ _).
  assert (Hf : filter (sameLine orderId channelId (itemId session)
                         productId variantId) (cartItems w1) = [line q1]).
  { unfold w1. simpl cartItems. rewrite filter_app, Hnone. simpl.
    unfold line. now rewrite sameLine_created. }
  unfold addToCart. rewrite Hs. unfold bind at 1. unfold get_world at 1.
  rewrite Hf. unfold bind at 1. unfold emit, modify. cbn [ci_quantity line].
  destruct (int32 (q1 + q2)); [|reflexivity].
  destruct (find_by_id_in _ ci_id (cartItems w1) (nextId w)) as [row Er].
  { unfold w1. simpl. rewrite map_app. apply in_or_app. right. now left. }
  unfold bind, CartItem_updateOne. simpl.
  simpl in Er. rewrite Er. simpl.
  rewrite map_app. f_equal.
  - apply map_update_fresh. intros c Hc. specialize (Hfresh c Hc). lia.
  - simpl. now rewrite Nat.eqb_refl.
Qed.

Lemma addToCart_accumulates_on_one_line_witness :
  let w1 := fst (addToCart merchant 7 "img" "Widget" "10.00" "p9" "v1"
                   (Some 2%Z) 1 twoItemWorld) in
  let w2 := fst (addToCart merchant 7 "img2" "Other" "12.00" "p9" "v1"
                   (Some 3%Z) 1 w1) in
  cartIdsBelowNext twoItemWorld
  /\ map ci_quantity (cartItems w1) = [1%Z; 1%Z; 2%Z]
  /\ map ci_quantity (cartItems w2) = [1%Z; 1%Z; 5%Z]
  /\ map ci_price (cartItems w2) = ["10.00"; "10.00"; "10.00"].
Proof.
  assert (F : cartIdsBelowNext twoItemWorld).
  { intros c [<-|[<-|[]]]; simpl; lia. }
  destruct (addToCart_accumulates_on_one_line merchant merchantSession 7 1
              "img" "Widget" "10.00" "img2" "Other" "12.00" "p9" "v1" 2 3
              twoItemWorld eq_refl F eq_refl eq_refl eq_refl eq_refl)
    as [H1 H2].
  cbv zeta. split; [exact F|].
  rewrite H1, H2. split; [reflexivity|]. split; reflexivity.
Defined.

(** ** Permissions of an API key *)

Lemma existsb_eqb_In (x : string) l :
  existsb (String.eqb x) l = true <-> In x l.
Proof.
  rewrite existsb_exists. split.
  - intros [y [Hy E]]. apply String.eqb_eq in E. now subst.
  - intro H. exists x. split; [assumption | apply String.eqb_refl].
Qed.

Lemma set_add_spec acc p :
  NoDup acc ->
  NoDup (set_add acc p) /\ forall q, In q (set_add acc p) <-> In q acc \/ q = p.
Proof.
  intro U. unfold set_add. destruct (existsb (String.eqb p) acc) eqn:E.
  - apply existsb_eqb_In in E. split; [assumption|].
    intro q. split; [auto|]. intros [H| ->]; assumption.
  - assert (Hn : ~ In p acc).
    { intro H. apply existsb_eqb_In in H. congruence. }
    split.
    + apply NoDup_app; [assumption | repeat constructor; intros [] |].
      intros x Hx [<-|[]]. contradiction.
    + intro q. rewrite in_app_iff. simpl. intuition.
Qed.

Lemma fold_set_add_spec ps :
  forall acc,
    NoDup acc ->
    NoDup (fold_left set_add ps acc)
    /\ forall q, In q (fold_left set_add ps acc) <-> In q acc \/ In q ps.
Proof.
  induction ps as [|p ps IH]; intros acc U; simpl.
  - split; [assumption|]. intro q. tauto.
  - destruct (set_add_spec acc p U) as [U1 M1].
    destruct (IH (set_add acc p) U1) as [U2 M2].
    split; [assumption|]. intro q. rewrite M2, M1. intuition.
Qed.

Lemma forEachScope_spec scopes :
  forall acc,
    NoDup acc ->
    Forall (fun s => scopeProperty s <> InheritedValue) scopes ->
    exists perms,
      forEachScope scopes acc = Ok perms
      /\ NoDup perms
      /\ forall p, In p perms <-> In p acc \/ grantedBy scopes p.
Proof.
  induction scopes as [|s scopes IH]; intros acc U F; simpl.
  - exists acc. split; [reflexivity|]. split; [assumption|].
    intro p. split; [auto|]. intros [H|[s [ps [[] _]]]]. assumption.
  - inversion F as [|? ? Hs F']; subst.
    destruct (scopeProperty s) as [ps| |] eqn:E; [|now contradiction Hs|].
    + destruct (fold_set_add_spec ps acc U) as [U1 M1].
      destruct (IH _ U1 F') as [perms [E1 [U2 M2]]].
      exists perms. split; [assumption|]. split; [assumption|].
      intro p. rewrite M2, M1. split.
      * intros [[H|H]|[s' [ps' [Hin [Hp Hq]]]]].
        -- now left.
        -- right. exists s, ps. split; [now left|]. now split.
        -- right. exists s', ps'. split; [now right|]. now split.
      * intros [H|[s' [ps' [[<-|Hin] [Hp Hq]]]]].
        -- left. now left.
        -- left. right. rewrite E in Hp. now inversion Hp; subst.
        -- right. exists s', ps'. now split.
    + destruct (IH _ U F') as [perms [E1 [U2 M2]]].
      exists perms. split; [assumption|]. split; [assumption|].
      intro p. rewrite M2. split.
      * intros [H|[s' [ps' [Hin [Hp Hq]]]]]; [now left|].
        right. exists s', ps'. split; [now right|]. now split.
      * intros [H|[s' [ps' [[<-|Hin] [Hp Hq]]]]]; [now left| |].
        -- rewrite E in Hp. discriminate.
        -- right. exists s', ps'. now split.
Qed.

Lemma forEachScope_throws scopes :
  forall acc,
    Exists (fun s => scopeProperty s = InheritedValue) scopes ->
    forEachScope scopes acc
    = Throw (TypeError "scopePermissions.forEach is not a function").
Proof.
  induction scopes as [|s scopes IH]; intros acc H; [now inversion H|].
  simpl. destruct (scopeProperty s) eqn:E; [| reflexivity |].
  - apply IH. inversion H; subst; [congruence | assumption].
  - apply IH. inversion H; subst; [congruence | assumption].
Qed.

(** X13.  The permissions of a list of API-key scopes are the union of
    what the table lists for each scope: every permission appears once,
    a scope the table does not know adds nothing.  But a scope named like
    a property that every object inherits ([constructor], [toString],
    [__proto__], ...) makes the function throw a TypeError. *)
Theorem api_key_permissions_are_union_of_scopes (scopes : list string) :
  (Forall (fun s => scopeProperty s <> InheritedValue) scopes ->
   exists perms,
     getPermissionsForApiKeyScopes scopes = Ok perms
     /\ NoDup perms
     /\ forall p, In p perms <-> grantedBy scopes p)
  /\ (Exists (fun s => scopeProperty s = InheritedValue) scopes ->
      getPermissionsForApiKeyScopes scopes
      = Throw (TypeError "scopePermissions.forEach is not a function")).
Proof.
  split.
  - intro F. destruct (forEachScope_spec scopes [] (NoDup_nil _) F)
      as [perms [E [U M]]].
    exists perms. split; [exact E|]. split; [exact U|].
    intro p. rewrite M. split; [intros [[]|H]; exact H | now right].
  - apply forEachScope_throws.
Qed.

Lemma api_key_permissions_are_union_of_scopes_witness :
  getPermissionsForApiKeyScopes ["write_matches"; "orders:read"; "read_matches"]
  = Ok ["canSeeOtherMatches"; "canManageMatches"; "canCreateMatches"]
  /\ getPermissionsForApiKeyScopes ["read_orders"; "constructor"]
     = Throw (TypeError "scopePermissions.forEach is not a function").
Proof.
  split; [reflexivity|].
  apply (proj2 (api_key_permissions_are_union_of_scopes
                  ["read_orders"; "constructor"])).
  apply Exists_cons_tl. apply Exists_cons_hd. reflexivity.
Defined.

(** X14.  A session that came from an API key holds a permission only
    if one of the key's scopes lists it in the table; what the role of the
    key's owner allows plays no part. *)
Theorem api_key_acts_within_its_scopes
    (session : KeySession) (scopes : list string) (permission : string) :
  apiKeyScopes session = Some scopes ->
  hasPermission (Some session) permission = Ok true ->
  grantedBy scopes permission.
Proof.
  intros Hs H. unfold hasPermission, checkApiKeyPermission in H.
  rewrite Hs in H. unfold hasApiKeyPermission in H.
  destruct (getPermissionsForApiKeyScopes scopes) as [perms|e] eqn:E;
    [|discriminate].
  inversion H as [Hp]. apply existsb_eqb_In in Hp.
  destruct (Exists_dec (fun s => scopeProperty s = InheritedValue) scopes)
    as [Hex|Hno].
  { intro s. destruct (scopeProperty s); [right | left | right]; congruence. }
  - unfold getPermissionsForApiKeyScopes in E.
    rewrite (forEachScope_throws scopes [] Hex) in E. discriminate.
  - assert (F : Forall (fun s => scopeProperty s <> InheritedValue) scopes).
    { apply Forall_forall. intros s Hin Heq. apply Hno.
      apply Exists_exists. now exists s. }
    destruct (forEachScope_spec scopes [] (NoDup_nil _) F)
      as [perms' [E' [_ M]]].
    unfold getPermissionsForApiKeyScopes in E. rewrite E' in E.
    inversion E; subst. apply M in Hp. destruct Hp as [[]|Hp]. exact Hp.
Qed.

Lemma api_key_acts_within_its_scopes_witness :
  hasPermission (Some (adminKeySession ["read_shops"])) "canSeeOtherShops"
  = Ok true
  /\ grantedBy ["read_shops"] "canSeeOtherShops"
  /\ hasPermission (Some (adminKeySession ["read_shops"])) "canManageShops"
     = Ok false.
Proof.
  split; [reflexivity|]. split; [|reflexivity].
  apply (api_key_acts_within_its_scopes (adminKeySession ["read_shops"])
           ["read_shops"] "canSeeOtherShops" eq_refl eq_refl).
Defined.

(** ** Looking ShopItems up twice *)









(** ** One attempt per channel *)

Lemma purchaseCalls_app t1 t2 :
  purchaseCalls (t1 ++ t2) = purchaseCalls t1 ++ purchaseCalls t2.
Proof.
  induction t1 as [|e t1 IH]; simpl; [reflexivity|].
  destruct e; simpl; now rewrite IH.
Qed.

Lemma sameCalls_refl w : sameCalls w w.
Proof. reflexivity. Qed.

Lemma sameCalls_trans a b c : sameCalls a b -> sameCalls b c -> sameCalls a c.
Proof. unfold sameCalls. congruence. Qed.

Lemma emit_sameCalls e :
  (forall ch items, e <> CreatePurchaseCall ch items) ->
  stable sameCalls (emit e).
Proof.
  intros H w. unfold sameCalls. simpl. rewrite purchaseCalls_app.
  destruct e; simpl; try apply app_nil_r. now contradiction (H channel items).
Qed.

Ltac calls_step :=
  first
    [ apply stable_ret; apply sameCalls_refl
    | apply stable_throw; apply sameCalls_refl
    | apply stable_get_world; apply sameCalls_refl
    | apply stable_outcome; apply sameCalls_refl
    | apply stable_bind; [apply sameCalls_trans | | intro]
    | apply stable_try_catch; [apply sameCalls_trans | | intro]
    | apply stable_if
    | apply stable_for_of;
        [apply sameCalls_refl | apply sameCalls_trans | intros ? ? _]
    | apply emit_sameCalls; intros; discriminate
    | match goal with
      | |- stable _ (match ?x with Some _ => _ | None => _ end) => destruct x
      end
    | (let w := fresh "w" in
       intro w; unfold CartItem_updateOne;
       destruct (find _ (cartItems w)); reflexivity)
    | (let w := fresh "w" in
       intro w; unfold Order_updateOne;
       destruct (find _ (orders w)); reflexivity)
    | (intro; reflexivity) ].

Lemma updateCartItems_sameCalls items url e p :
  stable sameCalls (updateCartItems items url e p).
Proof. unfold updateCartItems. repeat calls_step. Qed.

Lemma recordOutcome_sameCalls items r :
  stable sameCalls (recordOutcome items r).
Proof.
  unfold recordOutcome.
  repeat first [apply updateCartItems_sameCalls | calls_step].
Qed.

Lemma recountAndAdvance_sameCalls A orderId processed :
  stable sameCalls (recountAndAdvance A orderId processed).
Proof.
  unfold recountAndAdvance, addCartToPlatformOrder. repeat calls_step.
Qed.

Lemma attemptPurchase_calls A ch items order w :
  purchaseCalls (trace (fst (attemptPurchase A ch items order w)))
  = purchaseCalls (trace w) ++ [(ch_id ch, items)].
Proof.
  rewrite attemptPurchase_cases. cbv zeta.
  set (w0 := set_trace w (trace w ++ [CreatePurchaseCall (ch_id ch) items])).
  assert (H0 : purchaseCalls (trace w0)
               = purchaseCalls (trace w) ++ [(ch_id ch, items)]).
  { unfold w0. simpl. now rewrite purchaseCalls_app. }
  rewrite <- H0.
  destruct (createPurchaseFunction A (trace w) ch items order) as [r|msg].
  - pose proof (recordOutcome_sameCalls items r w0) as S1.
    destruct (recordOutcome items r w0) as [w1 [a|e]]; [exact S1|].
    simpl in S1. unfold sameCalls in S1. rewrite <- S1.
    match goal with
    | |- context [updateCartItems items ?u ?e ?p] =>
        pose proof (updateCartItems_sameCalls items u e p w1) as S2
    end.
    unfold bind.
    match goal with
    | |- context [updateCartItems items ?u ?e ?p w1] =>
        destruct (updateCartItems items u e p w1) as [w2 [a|e2]]; exact S2
    end.
  - match goal with
    | |- context [updateCartItems items ?u ?e ?p] =>
        pose proof (updateCartItems_sameCalls items u e p w0) as S2
    end.
    unfold bind.
    match goal with
    | |- context [updateCartItems items ?u ?e ?p w0] =>
        destruct (updateCartItems items u e p w0) as [w2 [a|e2]]; exact S2
    end.
Qed.

Lemma placeLoop_calls A order orderId :
  o_user order <> None ->
  forall ts w processed o,
    (forall ch items,
       In (ch, items) ts ->
       ch_platform ch <> None
       /\ forall x, In x items -> In (ci_id x) (map ci_id (cartItems w))) ->
    orderRow orderId w = Some o ->
    exists w' processed',
      for_of ts processed (placeOnChannel A order orderId) w
      = (w', Ok processed')
      /\ purchaseCalls (trace w') = purchaseCalls (trace w) ++ map callOf ts
      /\ List.length processed' = List.length processed + List.length ts.
Proof.
  intro Hu. induction ts as [|[ch items] ts IH]; intros w processed o Hts Ho.
  - simpl. unfold ret. exists w, processed.
    split; [reflexivity|]. split; [now rewrite app_nil_r | lia].
  - destruct (Hts ch items (or_introl eq_refl)) as [Hp Hitems].
    destruct (o_user order) as [u|] eqn:Eu; [|now contradiction Hu].
    destruct (ch_platform ch) as [pl|] eqn:Epl; [|now contradiction Hp].
    destruct (attemptPurchase_runs A ch items order w Hitems) as [w1 E1].
    pose proof (attemptPurchase_sameRows A ch items order w) as S1.
    pose proof (attemptPurchase_calls A ch items order w) as C1.
    rewrite (run_fst _ _ _ _ _ E1) in S1, C1. destruct S1 as [I1 [O1 S1]].
    assert (Ho1 : orderRow orderId w1 = Some o)
      by (unfold orderRow; now rewrite O1).
    destruct (recountAndAdvance_runs A orderId processed w1 o Ho1)
      as [w2 [o' [E2 [C2 [S2 [Ho2 _]]]]]].
    pose proof (recountAndAdvance_sameCalls A orderId processed w1) as K2.
    rewrite (run_fst _ _ _ _ _ E2) in K2. unfold sameCalls in K2.
    assert (Hstep : placeOnChannel A order orderId processed (ch, items) w
                    = (w2, Ok (processed ++ [o']))).
    { unfold placeOnChannel. rewrite Eu, Epl. unfold bind. now rewrite E1, E2. }
    simpl for_of. rewrite (bind_run _ _ _ _ _ _ _ Hstep).
    destruct (IH w2 (processed ++ [o']) o') as [w' [p' [E [HC HL]]]].
    + intros ch' items' Hin.
      destruct (Hts ch' items' (or_intror Hin)) as [Hp' Hi'].
      split; [assumption|]. intros x Hx. rewrite C2, I1. now apply Hi'.
    + exact Ho2.
    + exists w', p'. split; [exact E|]. split.
      * rewrite HC, K2, C1. simpl. now rewrite <- app_assoc.
      * rewrite HL, length_app. simpl. lia.
Qed.

(** X16.  For an order that exists, has a user, and whose target
    channels all have a platform, one placement run makes exactly one
    create-purchase call for each channel that holds unplaced cart items
    of the order, in store order and with the items selected at the start
    of the run, whatever the earlier channels answered.  The list it
    returns has one entry per such channel, so it is empty when nothing
    was left to place. *)
Theorem every_target_channel_is_attempted_once
    (A : Adapters) (orderId : Id) (w : World) (order : Order) :
  orderRow orderId w = Some order ->
  o_user order <> None ->
  (forall ch items, In (ch, items) (targets orderId w) ->
                    ch_platform ch <> None) ->
  let run := placeMultipleOrders A [orderId] w in
  purchaseCalls (trace (fst run))
  = purchaseCalls (trace w) ++ map callOf (targets orderId w)
  /\ exists processed,
       snd run = Ok processed
       /\ List.length processed = List.length (targets orderId w).
Proof.
  intros Ho Hu Hp run.
  destruct (placeLoop_calls A order orderId Hu (targets orderId w) w [] order)
    as [w' [processed [E [HC HL]]]].
  - intros ch items Hin. split; [now apply (Hp ch items)|].
    intros x Hx. apply in_map.
    now destruct (targets_items _ _ _ _ _ Hin Hx).
  - exact Ho.
  - assert (Hrun : run = (w', Ok processed)).
    { unfold run, placeMultipleOrders. simpl for_of.
      unfold bind at 1. unfold placeOneOrder.
      rewrite (bind_run _ _ _ _ _ _ _
                 (eq_refl : Order_findOne orderId w = (w, Ok (orderRow orderId w)))).
      rewrite Ho.
      rewrite (bind_run _ _ _ _ _ _ _ (eq_refl : get_world w = (w, Ok w))).
      rewrite E. reflexivity. }
    rewrite Hrun. split; [exact HC|]. exists processed. now split.
Qed.

Lemma every_target_channel_is_attempted_once_witness :
  let run := placeMultipleOrders failingAdapters [1] twoItemWorld in
  orderRow 1 twoItemWorld = Some (sampleOrder "PENDING")
  /\ purchaseCalls (trace (fst run))
     = [(8, [sampleCartItem 11 8 "" "" "PENDING"])]
  /\ exists processed, snd run = Ok processed /\ List.length processed = 1.
Proof.
  cbv zeta. split; [reflexivity|].
  apply (every_target_channel_is_attempted_once failingAdapters 1 twoItemWorld
           (sampleOrder "PENDING") eq_refl).
  - discriminate.
  - intros ch items Hin. vm_compute in Hin.
    destruct Hin as [Heq|[]]. inversion Heq. discriminate.
Defined.

(** ** The PKCE verifier store *)

Lemma stored_entry now key verifier ttl alias s :
  truthy key = true -> truthy verifier = true ->
  map_get (pkceStore (storePkceVerifier now (Some key) verifier ttl alias s))
          key
  = Some (mkPkceStoreEntry verifier (now + or_default ttl PKCE_STORE_TTL_MS)).
Proof.
  intros Hk Hv. unfold storePkceVerifier. rewrite Hk, Hv. simpl.
  destruct alias as [a|]; [destruct (truthy a && negb (String.eqb a key))|];
    simpl; unfold map_get, map_set; now rewrite String.eqb_refl.
Qed.

Lemma resolve_direct key s entry :
  map_get (pkceStore s) key = Some entry ->
  resolvePkceEntry key s = (key, Some entry).
Proof. intro H. unfold resolvePkceEntry. now rewrite H. Qed.

Lemma resolve_alias key target s :
  map_get (pkceStore s) key = None ->
  map_get (pkceAliases s) key = Some target ->
  truthy target = true ->
  resolvePkceEntry key s = (target, map_get (pkceStore s) target).
Proof. intros H1 H2 H3. unfold resolvePkceEntry. now rewrite H1, H2, H3. Qed.

(** X17.  A verifier stored under a key comes back from
    [consumePkceVerifier] for that key as long as its time to live has
    not run out, and is gone (the answer is undefined) from the moment it
    has.  When an alias was given that is not itself a key of the store,
    consuming through the alias gives the same answer. *)
Theorem pkce_verifier_round_trip
    (now later : Z) (key verifier : string) (ttl : option Z)
    (alias : option string) (s : PkceState) :
  truthy key = true ->
  truthy verifier = true ->
  let expiresAt := (now + or_default ttl PKCE_STORE_TTL_MS)%Z in
  let s1 := storePkceVerifier now (Some key) verifier ttl alias s in
  snd (consumePkceVerifier later (Some key) s1)
  = (if Z.leb expiresAt later then None else Some verifier)
  /\ forall a,
       alias = Some a -> truthy a = true -> a <> key ->
       map_get (pkceStore s) a = None ->
       snd (consumePkceVerifier later (Some a) s1)
       = (if Z.leb expiresAt later then None else Some verifier).
Proof.
  intros Hk Hv expiresAt s1.
  pose proof (stored_entry now key verifier ttl alias s Hk Hv) as Hst.
  fold s1 expiresAt in Hst. split.
  - unfold consumePkceVerifier. rewrite Hk. simpl negb. cbv iota.
    rewrite (resolve_direct key s1 _ Hst). simpl.
    now destruct (Z.leb expiresAt later).
  - intros a Ha Hta Hneq Hfree.
    assert (Hne : String.eqb a key = false) by now apply String.eqb_neq.
    assert (H1 : map_get (pkceStore s1) a = None).
    { unfold s1, storePkceVerifier. rewrite Hk, Hv, Ha, Hta, Hne. simpl.
      unfold map_get, map_set. now rewrite Hne. }
    assert (H2 : map_get (pkceAliases s1) a = Some key).
    { unfold s1, storePkceVerifier. rewrite Hk, Hv, Ha, Hta, Hne. simpl.
      unfold map_get, map_set. now rewrite String.eqb_refl. }
    unfold consumePkceVerifier. rewrite Hta. simpl negb. cbv iota.
    rewrite (resolve_alias a key s1 H1 H2 Hk), Hst. simpl.
    now destruct (Z.leb expiresAt later).
Qed.

Lemma pkce_verifier_round_trip_witness :
  let s1 := storePkceVerifier 1000 (Some "nonce-1") "verifier-value"
              (Some 1000%Z) (Some "state-1") emptyPkceState in
  snd (consumePkceVerifier 1500 (Some "nonce-1") s1) = Some "verifier-value"
  /\ snd (consumePkceVerifier 1500 (Some "state-1") s1) = Some "verifier-value"
  /\ snd (consumePkceVerifier 2000 (Some "nonce-1") s1) = None.
Proof.
  cbv zeta.
  destruct (pkce_verifier_round_trip 1000 1500 "nonce-1" "verifier-value"
              (Some 1000%Z) (Some "state-1") emptyPkceState eq_refl eq_refl)
    as [H1 H2].
  destruct (pkce_verifier_round_trip 1000 2000 "nonce-1" "verifier-value"
              (Some 1000%Z) (Some "state-1") emptyPkceState eq_refl eq_refl)
    as [H3 _].
  split; [exact H1|]. split; [|exact H3].
  apply (H2 "state-1" eq_refl eq_refl); [discriminate | reflexivity].
Defined.

Lemma resolve_after_consume key s entryKey entry :
  resolvePkceEntry key s = (entryKey, Some entry) ->
  resolvePkceEntry key
    (mkPkceState
       (map_delete (pkceStore s) entryKey)
       (map_deleteWhere (pkceAliases s)
          (fun alias target =>
             String.eqb target entryKey || String.eqb alias entryKey)))
  = (key, None).
Proof.
  unfold resolvePkceEntry, map_get, map_delete, map_deleteWhere. simpl.
  destruct (pkceStore s key) as [e0|] eqn:E0.
  - intro H. injection H as Hk He. subst entryKey. rewrite String.eqb_refl.
    destruct (pkceAliases s key); [|reflexivity].
    now rewrite orb_true_r.
  - destruct (pkceAliases s key) as [t|] eqn:Ea; [|discriminate].
    destruct (truthy t) eqn:Et; [|discriminate].
    intro H. injection H as Hk He. subst t.
    rewrite String.eqb_refl. simpl.
    now destruct (String.eqb key entryKey).
Qed.

(** X18.  A verifier is handed out at most once: whatever the store
    holds, a second [consumePkceVerifier] for the same key answers
    undefined, also when the first one found the entry expired. *)
Theorem pkce_verifier_is_consumed_once
    (now1 now2 : Z) (key : option string) (s : PkceState) :
  snd (consumePkceVerifier now2 key
         (fst (consumePkceVerifier now1 key s))) = None.
Proof.
  destruct key as [k|]; [|reflexivity].
  unfold consumePkceVerifier at 2.
  destruct (truthy k) eqn:Hk; simpl negb; cbv iota.
  - destruct (resolvePkceEntry k s) as [entryKey [entry|]] eqn:R.
    + pose proof (resolve_after_consume k s entryKey entry R) as R2.
      destruct (Z.leb (pe_expiresAt entry) now1); simpl fst;
        unfold consumePkceVerifier; rewrite Hk; simpl negb; cbv iota;
        now rewrite R2.
    + simpl fst. unfold consumePkceVerifier. rewrite Hk. simpl negb.
      cbv iota. now rewrite R.
  - simpl. unfold consumePkceVerifier. now rewrite Hk.
Qed.

(** ** Search terms in SOQL *)

Lemma backslash_special : isSoqlSpecial backslash = true.
Proof. reflexivity. Qed.

Lemma plain_not_backslash c :
  isSoqlSpecial c = false -> Ascii.eqb c backslash = false.
Proof.
  unfold isSoqlSpecial. intro H.
  destruct (Ascii.eqb c backslash); [discriminate | reflexivity].
Qed.

(** X19.  [escapeSoqlLike] puts a backslash before every backslash,
    quote, underscore and percent sign and leaves every other character
    alone: its result consists of plain characters and of such pairs
    only, a term without special characters is returned as it is, and
    two different terms never give the same result. *)
Theorem soql_like_terms_are_escaped (term : string) :
  escapedOnly (escapeSoqlLike term) = true
  /\ ((forall c, In c (list_ascii_of_string term) -> isSoqlSpecial c = false)
      -> escapeSoqlLike term = term)
  /\ forall other, escapeSoqlLike term = escapeSoqlLike other -> term = other.
Proof.
  split; [|split].
  - induction term as [|c rest IH]; [reflexivity|]. simpl.
    destruct (isSoqlSpecial c) eqn:E; simpl.
    + now rewrite E, IH.
    + now rewrite (plain_not_backslash c E), E, IH.
  - induction term as [|c rest IH]; [reflexivity|].
    intro Hp. simpl. rewrite (Hp c) by now left.
    f_equal. apply IH. intros d Hd. apply Hp. now right.
  - induction term as [|c rest IH]; intros [|d other]; simpl.
    + reflexivity.
    + destruct (isSoqlSpecial d); discriminate.
    + destruct (isSoqlSpecial c); discriminate.
    + destruct (isSoqlSpecial c) eqn:Ec; destruct (isSoqlSpecial d) eqn:Ed;
        intro H; inversion H; subst.
      * f_equal. now apply IH.
      * rewrite backslash_special in Ed. discriminate.
      * rewrite backslash_special in Ec. discriminate.
      * f_equal. now apply IH.
Qed.

Lemma soql_like_terms_are_escaped_witness :
  escapeSoqlLike "Test_%" = "Test\_\%"
  /\ buildLike "Widget" = "%Widget%"
  /\ escapedOnly (escapeSoqlLike "Test_%") = true
  /\ escapeSoqlLike "Widget" = "Widget".
Proof.
  split; [reflexivity|]. split; [reflexivity|].
  destruct (soql_like_terms_are_escaped "Test_%") as [H1 _].
  destruct (soql_like_terms_are_escaped "Widget") as [_ [H2 _]].
  split; [exact H1|]. apply H2.
  intros c Hc. simpl in Hc.
  repeat (destruct Hc as [<-|Hc]; [reflexivity|]). contradiction.
Defined.

(** ** The cart items of an exact Match *)

Lemma canReadOrders_isSignedIn ctx owner :
  canReadOrders ctx owner = true -> isSignedIn ctx = true.
Proof.
  unfold canReadOrders, visible, isSignedIn.
  destruct (ctx_sudo ctx); [reflexivity|].
  now destruct (ctx_session ctx).
Qed.

Lemma order_connects ctx orderId w order :
  orderRow orderId w = Some order ->
  canReadOrders ctx (o_user order) = true ->
  existsb (fun o => Nat.eqb (o_id o) orderId && canReadOrders ctx (o_user o))
          (orders w) = true.
Proof.
  intros Ho Hr. apply existsb_exists. exists order.
  unfold orderRow in Ho. apply find_some in Ho. destruct Ho as [Hin Hid].
  split; [exact Hin|]. now rewrite Hid, Hr.
Qed.

Lemma Channel_findOne_as_id ctx cid w channel :
  Channel_findOne_as ctx cid w = Some channel -> ch_id channel = cid.
Proof.
  unfold Channel_findOne_as.
  destruct (permitted ctx canSeeOtherChannels); [|discriminate].
  intro H. apply find_some in H. destruct H as [_ H]. now apply Nat.eqb_eq.
Qed.

Lemma createCartItem_run A ctx order result out w :
  purchasable ctx w out -> productsFound A ->
  orderRow (o_id order) w = Some order ->
  canReadOrders ctx (o_user order) = true ->
  exists row,
    createCartItem A ctx order result out w
    = (set_nextId
         (set_cartItems
            (set_trace w
               (trace w ++ [GetProductCall
                              (match chi_channel out with
                               | Some cid => cid | None => 0 end)
                              (chi_productId out) (chi_variantId out)]))
            (cartItems w ++ [row]))
         (S (nextId w)),
       Ok (Some row))
    /\ fromOutput (o_id order) out row.
Proof.
  intros [cid [channel [uid [Hc [Hf [Hp [Hu [Hpeople Hq]]]]]]]] HA Ho Hread.
  destruct (HA (trace w) channel (chi_productId out) (chi_variantId out))
    as [product [Hprod Htitle]].
  pose proof (Channel_findOne_as_id ctx cid w channel Hf) as Hid.
  set (w0 := set_trace w
               (trace w ++ [GetProductCall cid (chi_productId out)
                              (chi_variantId out)])).
  assert (Eg : getChannelProduct A channel (chi_productId out)
                 (chi_variantId out) w = (w0, Ok (Some product))).
  { unfold getChannelProduct.
    rewrite (bind_run _ _ _ _ _ _ _ (eq_refl : get_world w = (w, Ok w))).
    destruct (ch_platform channel) as [pl|]; [|now contradiction Hp].
    unfold bind, emit, modify, outcome. rewrite Hprod, Hid. reflexivity. }
  set (given := fun id =>
         mkCartItem id (Some (o_id order)) (Some (ch_id channel))
           (Some uid) (p_title product) (p_image product)
           (p_price product) (chi_quantity out) (chi_productId out)
           (chi_variantId out) "" "" ""
           (if negb (String.eqb (p_price product) (chi_price out))
            then priceChange (chi_price out) (p_price product) else "")
           "" "PENDING").
  assert (Ec : CartItem_createOne_as ctx given w0
               = (set_nextId (set_cartItems w0 (cartItems w0 ++ [given (nextId w0)]))
                    (S (nextId w0)),
                  Ok (given (nextId w0)))).
  { unfold CartItem_createOne_as. cbv zeta.
    change (ci_quantity (given (nextId w0))) with (chi_quantity out).
    change (ci_name (given (nextId w0))) with (p_title product).
    rewrite Hq, (canReadOrders_isSignedIn ctx _ Hread), Htitle.
    assert (Hconn : cartItemConnects ctx (given (nextId w0)) w0 = true).
    { unfold cartItemConnects. cbn [ci_order ci_channel ci_user given].
      change (orders w0) with (orders w).
      rewrite (order_connects ctx (o_id order) w order Ho Hread).
      assert (Hch : Channel_findOne_as ctx (ch_id channel) w0 = Some channel)
        by (rewrite Hid; exact Hf).
      now rewrite Hch, Hpeople. }
    rewrite Hconn. reflexivity. }
  unfold createCartItem.
  rewrite (bind_run _ _ _ _ _ _ _ (eq_refl : get_world w = (w, Ok w))).
  rewrite Hc, Hf. rewrite (bind_run _ _ _ _ _ _ _ Eg). rewrite Hu.
  rewrite (readUser_Some ctx uid Hpeople). cbv zeta. fold given.
  rewrite (bind_run _ _ _ _ _ _ _ Ec). unfold ret.
  exists (given (nextId w0)). split; [reflexivity|].
  unfold fromOutput. simpl. rewrite Hc, Hu, Hid. repeat split.
Qed.

Lemma createLoop_run A ctx order outs :
  productsFound A ->
  canReadOrders ctx (o_user order) = true ->
  forall w result,
    orderRow (o_id order) w = Some order ->
    Forall (purchasable ctx w) outs ->
    exists w' last new,
      for_of outs result (createCartItem A ctx order) w = (w', Ok last)
      /\ cartItems w' = cartItems w ++ new
      /\ Forall2 (fromOutput (o_id order)) outs new
      /\ orders w' = orders w
      /\ (outs <> [] -> last <> None)
      /\ channels w' = channels w
      /\ channelItems w' = channelItems w.
Proof.
  intros HA Hread. induction outs as [|out outs IH]; intros w result Ho Hall.
  - exists w, result, []. simpl. rewrite app_nil_r. unfold ret.
    split; [reflexivity|]. split; [reflexivity|]. split; [constructor|].
    split; [reflexivity|]. split; [|now split]. intro H. now contradiction H.
  - inversion Hall as [|? ? Hout Hrest]; subst.
    destruct (createCartItem_run A ctx order result out w Hout HA Ho Hread)
      as [row [E Hrow]].
    set (w1 := set_nextId _ _) in E.
    assert (Hrest1 : Forall (purchasable ctx w1) outs) by exact Hrest.
    assert (Ho1 : orderRow (o_id order) w1 = Some order) by exact Ho.
    destruct (IH w1 (Some row) Ho1 Hrest1)
      as [w' [last [new [E' [C' [F' [O' [L' [K1 K2]]]]]]]]].
    exists w', last, (row :: new).
    simpl for_of. rewrite (bind_run _ _ _ _ _ _ _ E).
    split; [exact E'|]. split.
    + rewrite C'. unfold w1. simpl. now rewrite <- app_assoc.
    + split; [now constructor|]. split; [exact O'|].
      split; [|split; [exact K1 | exact K2]].
      intros _. destruct outs as [|o2 outs2].
      * simpl in E'. unfold ret in E'. inversion E'. discriminate.
      * apply L'. discriminate.
Qed.

(** X20.  The caller can read the order and its user.  A Match of the
    order's user has as many inputs as the order has line items and
    covers them all; every output of the first such Match that the
    caller can read sits on a channel the caller can read, with a
    platform, and belongs to a user the caller can read; the channels
    answer the product lookups with titled products.  Then [getMatches]
    appends one cart item per such output ChannelItem, in order, each on
    the output's channel with its product, variant and quantity, and
    leaves the order row, so also its status and error, as it was. *)
Theorem exact_match_fills_the_cart
    (A : Adapters) (ctx : Context) (orderId userId : Id) (w : World)
    (order : Order) (filt : Match) (others : list Match) :
  orderRow orderId w = Some order ->
  canReadOrders ctx (o_user order) = true ->
  o_user order = Some userId ->
  canReadPeople ctx userId = true ->
  exactMatches ctx userId (lineItemsAs ctx orderId w) w = filt :: others ->
  Forall (purchasable ctx w) (Match_output_as ctx w filt) ->
  productsFound A ->
  exists w' last new,
    getMatches A ctx orderId w = (w', Ok last)
    /\ cartItems w' = cartItems w ++ new
    /\ Forall2 (fromOutput orderId) (Match_output_as ctx w filt) new
    /\ orders w' = orders w
    /\ (Match_output_as ctx w filt <> [] -> last <> None).
Proof.
  intros Ho Hread Hu Hpeople Hexact Hall HA.
  assert (Hid : o_id order = orderId) by now apply (orderRow_id orderId w).
  assert (Ho' : orderRow (o_id order) w = Some order) by now rewrite Hid.
  destruct (createLoop_run A ctx order (Match_output_as ctx w filt) HA Hread
              w None Ho' Hall)
    as [w' [last [new [E [C [F [O [L _]]]]]]]].
  exists w', last, new.
  split; [|rewrite <- Hid; now repeat split].
  unfold getMatches.
  rewrite (bind_run _ _ _ _ _ _ _ (Order_findOne_as_run ctx orderId w order
                                     Ho Hread)).
  rewrite Hu, (readUser_Some ctx userId Hpeople).
  rewrite (bind_run _ _ _ _ _ _ _ (eq_refl : get_world w = (w, Ok w))).
  rewrite Hexact. unfold createCartItems.
  change (Nat.ltb 0 (List.length [Some filt])) with true. cbv iota.
  simpl for_of.
  unfold bind at 1. unfold bind at 1. unfold get_world at 1.
  rewrite E. reflexivity.
Qed.

Lemma exact_match_fills_the_cart_witness :
  let run := getMatches acceptingAdapters merchant 1 oneRecipeWorld in
  orderRow 1 oneRecipeWorld = Some (sampleOrder "PENDING")
  /\ exists w' last new,
       run = (w', Ok last)
       /\ cartItems w' = cartItems oneRecipeWorld ++ new
       /\ Forall2 (fromOutput 1)
            [mkChannelItem 60 "p1" "v1" 1 "10.00" (Some 7) (Some 9)] new
       /\ orders w' = orders oneRecipeWorld.
Proof.
  cbv zeta. split; [reflexivity|].
  destruct (exact_match_fills_the_cart acceptingAdapters merchant 1 9
              oneRecipeWorld (sampleOrder "PENDING")
              (mkMatch 50 (Some 9) [40] [60]) []
              eq_refl eq_refl eq_refl eq_refl eq_refl)
    as [w' [last [new [E [C [F [O _]]]]]]].
  - constructor; [|constructor].
    exists 7, (mkChannel 7 "channel.example" (Some sampleChannelPlatform)), 9.
    split; [reflexivity|]. split; [reflexivity|].
    split; [discriminate|]. split; [reflexivity|]. split; reflexivity.
  - intros t ch p v. eexists. split; reflexivity.
  - exists w', last, new. split; [exact E|]. split; [exact C|].
    split; [exact F | exact O].
Defined.

(** ** What exactly an attempt writes *)

(** X21.  After an attempt on a channel, each attempted cart item
    carries: the purchase id and URL of the answer and no error, when the
    answer has a purchase id (an error in the same answer is dropped);
    otherwise [ORDER_PLACEMENT_ERROR: ] followed by the answer's error and
    neither purchase id nor URL, when the answer has an error; and when
    the adapter threw, [ORDER_PLACEMENT_ERROR: ] followed by the thrown
    message, or by the default text when that message is empty.  An
    answer with neither field leaves the items as they were. *)
Theorem attempt_writes_the_answer
    (A : Adapters) (ch : Channel) (items : list CartItem) (order : Order)
    (w : World) (c : CartItem) :
  (forall x, In x items -> In (ci_id x) (map ci_id (cartItems w))) ->
  In c (cartItems (fst (attemptPurchase A ch items order w))) ->
  In (ci_id c) (map ci_id items) ->
  match createPurchaseFunction A (trace w) ch items order with
  | Returned r =>
      if truthy (pr_purchaseId r)
      then outcomeOf c = (pr_url r, "", pr_purchaseId r)
      else if truthy (pr_error r)
      then outcomeOf c
           = ("", ("ORDER_PLACEMENT_ERROR: " ++ pr_error r)%string, "")
      else In c (cartItems w)
  | Threw msg =>
      outcomeOf c
      = ("",
         ("ORDER_PLACEMENT_ERROR: "
          ++ or_else msg placementErrorDefault)%string,
         "")
  end.
Proof.
  intros H. rewrite attemptPurchase_cases. cbv zeta.
  set (w0 := set_trace w (trace w ++ [CreatePurchaseCall (ch_id ch) items])).
  assert (H0 : forall x, In x items -> In (ci_id x) (map ci_id (cartItems w0)))
    by exact H.
  destruct (createPurchaseFunction A (trace w) ch items order) as [r|msg].
  - destruct (recordOutcome_sets items r w0 H0) as [w1 [E C]].
    rewrite E. simpl fst. rewrite C.
    destruct (truthy (pr_purchaseId r)).
    + intros Hc Hid. destruct (In_withOutcome _ _ _ _ _ _ Hc Hid) as [c0 ->].
      reflexivity.
    + destruct (truthy (pr_error r)).
      * intros Hc Hid.
        destruct (In_withOutcome _ _ _ _ _ _ Hc Hid) as [c0 ->]. reflexivity.
      * intros Hc _. exact Hc.
  - match goal with
    | |- context [updateCartItems items ?u ?e ?p] =>
        destruct (updateCartItems_sets items u e p w0 H0)
          as [w1 [res1 [E1 [C1 _]]]]
    end.
    unfold bind. rewrite E1. simpl. intros Hc Hid. rewrite C1 in Hc.
    destruct (In_withOutcome _ _ _ _ _ _ Hc Hid) as [c0 ->]. reflexivity.
Qed.

Lemma attempt_writes_the_answer_witness :
  let ch := mkChannel 7 "channel.example" (Some sampleChannelPlatform) in
  let item := sampleCartItem 10 7 "" "" "PENDING" in
  let c := set_outcome "" "ORDER_PLACEMENT_ERROR: out of stock" "" item in
  In c (cartItems (fst (attemptPurchase failingAdapters ch [item]
                          (sampleOrder "PENDING") oneItemWorld)))
  /\ outcomeOf c = ("", "ORDER_PLACEMENT_ERROR: out of stock", "").
Proof.
  cbv zeta.
  assert (Hin : In (set_outcome "" "ORDER_PLACEMENT_ERROR: out of stock" ""
                      (sampleCartItem 10 7 "" "" "PENDING"))
                   (cartItems
                      (fst (attemptPurchase failingAdapters
                              (mkChannel 7 "channel.example"
                                 (Some sampleChannelPlatform))
                              [sampleCartItem 10 7 "" "" "PENDING"]
                              (sampleOrder "PENDING") oneItemWorld)))).
  { vm_compute. now left. }
  split; [exact Hin|].
  refine (attempt_writes_the_answer failingAdapters
            (mkChannel 7 "channel.example" (Some sampleChannelPlatform))
            [sampleCartItem 10 7 "" "" "PENDING"] (sampleOrder "PENDING")
            oneItemWorld _ _ Hin _).
  - intros x [<-|[]]. simpl. now left.
  - simpl. now left.
Defined.

(** ** The cart items of line items matched one by one *)

Lemma singleLoop_found ctx orderId userId lis :
  forall w output,
    (forall li, In li lis -> firstSingle ctx userId w li <> None) ->
    for_of lis output (singleMatch ctx orderId userId) w
    = (w, Ok (output ++ map (firstSingle ctx userId w) lis)).
Proof.
  induction lis as [|li lis IH]; intros w output Hsome; simpl.
  - unfold ret. now rewrite app_nil_r.
  - assert (E : singleMatch ctx orderId userId output li w
                = (w, Ok (output ++ [firstSingle ctx userId w li]))).
    { pose proof (Hsome li (or_introl eq_refl)) as Hli.
      unfold singleMatch, firstSingle, bind, get_world in *.
      destruct (singleAllMatches ctx userId li w);
        [now contradiction Hli | reflexivity]. }
    rewrite (bind_run _ _ _ _ _ _ _ E).
    rewrite (IH w _ (fun l Hl => Hsome l (or_intror Hl))).
    now rewrite <- app_assoc.
Qed.

Lemma purchasable_ext ctx w w1 out :
  channels w1 = channels w -> purchasable ctx w out -> purchasable ctx w1 out.
Proof.
  intros Hc [cid [channel [uid [H1 [H2 H3]]]]]. exists cid, channel, uid.
  split; [exact H1|]. split; [|exact H3].
  unfold Channel_findOne_as in *. now rewrite Hc.
Qed.

Lemma singlesLoop_run A ctx userId order w lis :
  productsFound A ->
  canReadOrders ctx (o_user order) = true ->
  orderRow (o_id order) w = Some order ->
  (forall li, In li lis -> firstSingle ctx userId w li <> None) ->
  (forall li out, In li lis -> In out (singleOutputs ctx userId w li) ->
                  purchasable ctx w out) ->
  forall w1 result,
    channels w1 = channels w ->
    channelItems w1 = channelItems w ->
    orders w1 = orders w ->
    exists w' last new,
      for_of (map (firstSingle ctx userId w) lis) result
        (fun result existingMatch =>
           match existingMatch with
           | None =>
               throw (TypeError "Cannot read properties of undefined (reading 'output')")
           | Some m =>
               w0 <- get_world ;;
               for_of (Match_output_as ctx w0 m) result
                 (createCartItem A ctx order)
           end) w1
      = (w', Ok last)
      /\ cartItems w' = cartItems w1 ++ new
      /\ Forall2 (fromOutput (o_id order))
           (flat_map (singleOutputs ctx userId w) lis) new
      /\ orders w' = orders w1.
Proof.
  intros HA Hread Hrow.
  induction lis as [|li lis IH]; intros Hsome Hout w1 result Hc Hi Hord.
  - exists w1, result, []. simpl. rewrite app_nil_r. unfold ret.
    split; [reflexivity|]. split; [reflexivity|]. split; [constructor|].
    reflexivity.
  - destruct (firstSingle ctx userId w li) as [m|] eqn:Em.
    2:{ exfalso. apply (Hsome li); [now left | exact Em]. }
    assert (Hm : Match_output_as ctx w1 m = Match_output_as ctx w m).
    { unfold Match_output_as, Match_output. now rewrite Hi. }
    assert (Hall : Forall (purchasable ctx w1) (Match_output_as ctx w m)).
    { apply Forall_forall. intros out Ho.
      apply (purchasable_ext ctx w w1 out Hc).
      apply (Hout li out); [now left|]. unfold singleOutputs. now rewrite Em. }
    assert (Hrow1 : orderRow (o_id order) w1 = Some order).
    { unfold orderRow in *. now rewrite Hord. }
    destruct (createLoop_run A ctx order (Match_output_as ctx w m) HA Hread
                w1 result Hrow1 Hall)
      as [w2 [last2 [new2 [E2 [C2 [F2 [O2 [_ [K1 K2]]]]]]]]].
    destruct (IH (fun l Hl => Hsome l (or_intror Hl))
                 (fun l o Hl Ho => Hout l o (or_intror Hl) Ho)
                 w2 last2)
      as [w' [last [new [E [C [F O]]]]]];
      [congruence | congruence | congruence |].
    exists w', last, (new2 ++ new).
    simpl map. rewrite Em. simpl for_of.
    unfold bind at 1. unfold bind at 1. unfold get_world at 1.
    rewrite Hm, E2. split; [exact E|].
    split; [now rewrite C, C2, app_assoc|].
    split; [|congruence].
    simpl flat_map. unfold singleOutputs at 1. rewrite Em.
    now apply Forall2_app.
Qed.

(** X22.  The caller can read the order and its user.  The order has
    several line items that the caller can read, no Match covers them
    all together, and every one of them has a Match of its own; every
    output of those Matches that the caller can read sits on a channel
    the caller can read, with a platform, and belongs to a user the
    caller can read; the channels answer the product lookups with titled
    products.  Then [getMatches] appends, line item by line item, one
    cart item per such output of the first Match found for that line
    item, and leaves the order row, so its status and error, as it
    was. *)
Theorem line_items_matched_one_by_one
    (A : Adapters) (ctx : Context) (orderId userId : Id) (w : World)
    (order : Order) :
  orderRow orderId w = Some order ->
  canReadOrders ctx (o_user order) = true ->
  o_user order = Some userId ->
  canReadPeople ctx userId = true ->
  let lis := lineItemsAs ctx orderId w in
  exactMatches ctx userId lis w = [] ->
  1 < List.length lis ->
  (forall li, In li lis -> firstSingle ctx userId w li <> None) ->
  (forall li out, In li lis -> In out (singleOutputs ctx userId w li) ->
                  purchasable ctx w out) ->
  productsFound A ->
  exists w' last new,
    getMatches A ctx orderId w = (w', Ok last)
    /\ cartItems w' = cartItems w ++ new
    /\ Forall2 (fromOutput orderId)
         (flat_map (singleOutputs ctx userId w) lis) new
    /\ orders w' = orders w.
Proof.
  intros Ho Hread Hu Hpeople lis Hexact Hmany Hsome Hout HA.
  assert (Hid : o_id order = orderId) by now apply (orderRow_id orderId w).
  assert (Ho' : orderRow (o_id order) w = Some order) by now rewrite Hid.
  destruct (singlesLoop_run A ctx userId order w lis HA Hread Ho' Hsome Hout
              w None eq_refl eq_refl eq_refl)
    as [w' [last [new [E [C [F O]]]]]].
  exists w', last, new.
  split; [|rewrite <- Hid; now repeat split].
  assert (Hall : forallb (fun li => isSome (firstSingle ctx userId w li)) lis
                 = true).
  { apply forallb_forall. intros li Hli.
    destruct (firstSingle ctx userId w li) eqn:Ef; [reflexivity|].
    now contradiction (Hsome li Hli). }
  assert (Hfilter : filter isSome (map (firstSingle ctx userId w) lis)
                    = map (firstSingle ctx userId w) lis).
  { clear - Hall. induction lis as [|li lis IH]; [reflexivity|].
    simpl in *. apply andb_true_iff in Hall. destruct Hall as [H1 H2].
    rewrite H1. f_equal. now apply IH. }
  unfold getMatches.
  rewrite (bind_run _ _ _ _ _ _ _ (Order_findOne_as_run ctx orderId w order
                                     Ho Hread)).
  rewrite Hu, (readUser_Some ctx userId Hpeople).
  rewrite (bind_run _ _ _ _ _ _ _ (eq_refl : get_world w = (w, Ok w))).
  fold lis. rewrite Hexact.
  assert (Hlt : Nat.ltb 1 (List.length lis) = true) by now apply Nat.ltb_lt.
  rewrite Hlt.
  pose proof (singleLoop_found ctx orderId userId lis w [] Hsome) as Hloop.
  simpl app in Hloop.
  rewrite (bind_run _ _ _ _ _ _ _ Hloop).
  assert (Hpos : Nat.ltb 0 (List.length (map (firstSingle ctx userId w) lis))
                 = true).
  { apply Nat.ltb_lt. rewrite length_map. lia. }
  rewrite Hfilter, Hpos. unfold createCartItems. rewrite Hpos.
  exact E.
Qed.

Lemma line_items_matched_one_by_one_witness :
  let run := getMatches acceptingAdapters merchant 1 twoSinglesWorld in
  orderRow 1 twoSinglesWorld = Some (sampleOrder "PENDING")
  /\ exists w' last new,
       run = (w', Ok last)
       /\ cartItems w' = cartItems twoSinglesWorld ++ new
       /\ Forall2 (fromOutput 1)
            [mkChannelItem 60 "c1" "w1" 1 "10.00" (Some 7) (Some 9);
             mkChannelItem 61 "c2" "w1" 3 "10.00" (Some 7) (Some 9)] new
       /\ orders w' = orders twoSinglesWorld.
Proof.
  cbv zeta. split; [reflexivity|].
  apply (line_items_matched_one_by_one acceptingAdapters merchant 1 9
           twoSinglesWorld (sampleOrder "PENDING")
           eq_refl eq_refl eq_refl eq_refl eq_refl).
  - simpl. lia.
  - intros li Hli. vm_compute in Hli.
    destruct Hli as [<-|[<-|[]]]; discriminate.
  - intros li out Hli Hout. vm_compute in Hli.
    destruct Hli as [<-|[<-|[]]]; vm_compute in Hout;
      destruct Hout as [<-|[]];
      exists 7, (mkChannel 7 "channel.example" (Some sampleChannelPlatform)), 9;
      (split; [reflexivity|]); (split; [reflexivity|]);
      (split; [discriminate|]); (split; [reflexivity|]); split; reflexivity.
  - intros t ch p v. eexists. split; reflexivity.
Defined.

(** ** Upserting a Match *)

Lemma throwsOnly_ret P A (a : A) : throwsOnly P (ret a).
Proof. intro w. exact I. Qed.

Lemma throwsOnly_throw (P : Exn -> Prop) A (e : Exn) :
  P e -> throwsOnly P (@throw A e).
Proof. intros H w. exact H. Qed.

Lemma throwsOnly_bind P A B (c : M A) (k : A -> M B) :
  throwsOnly P c -> (forall a, throwsOnly P (k a)) -> throwsOnly P (bind c k).
Proof.
  intros Hc Hk w. unfold bind. specialize (Hc w).
  destruct (c w) as [w1 [a|e]]; [apply Hk | exact Hc].
Qed.

Lemma throwsOnly_for_of P A S (l : list A) (body : S -> A -> M S) :
  (forall acc x, throwsOnly P (body acc x)) ->
  forall acc, throwsOnly P (for_of l acc body).
Proof.
  intro H. induction l as [|x l IH]; intro acc; simpl.
  - apply throwsOnly_ret.
  - apply throwsOnly_bind; [apply H | exact IH].
Qed.

Lemma typeError_notDuplicate msg : notDuplicateError (TypeError msg).
Proof. intro H. discriminate. Qed.

Lemma accessDenied_notDuplicate : notDuplicateError (accessDenied "Match").
Proof. intro H. discriminate. Qed.

Lemma error_notDuplicate msg :
  msg <> "A match with the same input combination already exists."%string ->
  notDuplicateError (Error msg).
Proof. intros Hmsg H. apply Hmsg. now inversion H. Qed.

Ltac throws_step :=
  first
    [ apply throwsOnly_ret
    | apply throwsOnly_throw; apply typeError_notDuplicate
    | apply throwsOnly_throw; apply accessDenied_notDuplicate
    | apply throwsOnly_throw; apply error_notDuplicate; discriminate
    | apply throwsOnly_bind; [|intro]
    | apply throwsOnly_for_of; intros ? ?
    | (intro; exact I) ].

Lemma ensureShopItems_throwsOnly ctx create :
  throwsOnly notDuplicateError (ensureShopItems ctx create).
Proof.
  unfold ensureShopItems. destruct create as [items|]; [|throws_step].
  throws_step. destruct (sid_shop x) as [shopId|]; [|throws_step].
  throws_step; [throws_step|].
  match goal with
  | |- context [filter ?f ?l] => destruct (filter f l)
  end; repeat throws_step.
Qed.

Lemma upsert_ensureChannelItems_throwsOnly ctx items :
  throwsOnly notDuplicateError (upsert_ensureChannelItems ctx items).
Proof.
  unfold upsert_ensureChannelItems.
  throws_step. destruct (cid_channel x) as [channelId|]; [|throws_step].
  throws_step; [throws_step|].
  match goal with
  | |- context [find ?f ?l] => destruct (find f l)
  end; repeat throws_step.
Qed.

Lemma find_none_existsb A (p : A -> bool) l :
  find p l = None -> existsb p l = false.
Proof.
  induction l as [|a l IH]; simpl; [reflexivity|].
  destruct (p a); [discriminate | exact IH].
Qed.

Lemma Match_updateOne_outputs_never_duplicate ctx id connect disconnect w :
  match snd (Match_updateOne ctx id
               (mkMatchData None
                  (Some (mkRelInput None connect disconnect)) None)
               w) with
  | Throw e => notDuplicateError e
  | Ok _ => True
  end.
Proof.
  unfold Match_updateOne, bind, get_world.
  destruct (find _ (matches w)) as [item|];
    [|apply accessDenied_notDuplicate].
  destruct (matchConnects ctx _ w);
    [|apply error_notDuplicate; discriminate].
  unfold Match_resolveInput, resolveCreated, resolveCreatedInput,
    resolveCreatedOutput, duplicateCheckOnUpdate, bind, ret. simpl.
  destruct (sessionId ctx); exact I.
Qed.

Lemma Match_createOne_after_miss ctx inputIds outputIds w :
  find (sameInputs ctx w inputIds) (existingMatchesSharing ctx inputIds w)
  = None ->
  match snd (Match_createOne ctx
               (mkMatchData
                  (Some (mkRelInput None (Some inputIds) None))
                  (Some (mkRelInput None (Some outputIds) None))
                  None) w) with
  | Throw e => notDuplicateError e
  | Ok _ => True
  end.
Proof.
  intro Hmiss. apply find_none_existsb in Hmiss.
  set (data := mkMatchData (Some (mkRelInput None (Some inputIds) None))
                 (Some (mkRelInput None (Some outputIds) None)) None).
  assert (E1 : resolveCreated ctx data w = (w, Ok data)) by reflexivity.
  assert (E2 : duplicateCheckOnCreate ctx data w = (w, Ok tt)).
  { eapply duplicateCheckOnCreate_passes; [reflexivity | reflexivity |].
    intros _. unfold checkForDuplicate, bind, get_world, ret.
    unfold sameInputs in Hmiss. now rewrite Hmiss. }
  assert (E3 : exists d, Match_resolveInput ctx "create" None data w
                         = (w, Ok d)).
  { unfold Match_resolveInput.
    rewrite (bind_run _ _ _ _ _ _ _ E1).
    rewrite String.eqb_refl.
    rewrite (bind_run _ _ _ _ _ _ _ E2).
    change (String.eqb "create" "update") with false. cbv iota.
    destruct (sessionId ctx); eexists; reflexivity. }
  destruct E3 as [d E3].
  unfold Match_createOne.
  destruct (permitted ctx canCreateMatches);
    [|apply error_notDuplicate; discriminate].
  rewrite (bind_run _ _ _ _ _ _ _ (eq_refl : get_world w = (w, Ok w))).
  destruct (matchConnects ctx data w);
    [|apply error_notDuplicate; discriminate].
  rewrite (bind_run _ _ _ _ _ _ _ E3). exact I.
Qed.

(** X23.  [upsertMatch] never fails on the rule that input sets are
    unique: when a Match the caller can read already has exactly the
    inputs that were resolved, its outputs are replaced, and otherwise the
    creation passes the duplicate check.  Whatever it throws is something
    else (a malformed argument, or a denied access). *)
Theorem upsertMatch_never_hits_duplicate_error
    (ctx : Context) (data : MatchData) (w : World) :
  snd (upsertMatch ctx data w) <> Throw duplicateMatchError.
Proof.
  cut (throwsOnly notDuplicateError (upsertMatch ctx data)).
  { intros H Heq. specialize (H w). rewrite Heq in H. now apply H. }
  unfold upsertMatch.
  destruct (md_input data) as [input|]; [|throws_step].
  destruct (rel_create input) as [items|] eqn:Ei; [|throws_step].
  throws_step; [apply ensureShopItems_throwsOnly|].
  destruct (md_output data) as [output|]; [|throws_step].
  destruct (rel_create output) as [outs|] eqn:Eo; [|throws_step].
  throws_step; [apply upsert_ensureChannelItems_throwsOnly|].
  intro w0. unfold bind at 1. unfold get_world at 1.
  destruct (find (sameInputs ctx w0 a) (existingMatchesSharing ctx a w0))
    as [duplicateMatch|] eqn:F.
  - unfold bind.
    pose proof (Match_updateOne_outputs_never_duplicate ctx
                  (m_id duplicateMatch) (Some a0)
                  (Some (map chi_id (Match_output_as ctx w0 duplicateMatch)))
                  w0)
      as H.
    destruct (Match_updateOne ctx (m_id duplicateMatch) _ w0) as [w1 [m|e]];
      [exact I | exact H].
  - now apply Match_createOne_after_miss.
Qed.

(** ** Who owns a Match after an update *)

Lemma resolveCreatedInput_user ctx d w w' d' :
  resolveCreatedInput ctx d w = (w', Ok d') -> md_user d' = md_user d.
Proof.
  unfold resolveCreatedInput.
  destruct (md_input d) as [input|]; [|intro H; now inversion H].
  destruct (rel_create input); [|intro H; now inversion H].
  unfold bind.
  destruct (ensureShopItems ctx _ w) as [w1 [ids|e]]; intro H;
    [|discriminate].
  now inversion H.
Qed.

Lemma resolveCreatedOutput_user ctx d w w' d' :
  resolveCreatedOutput ctx d w = (w', Ok d') -> md_user d' = md_user d.
Proof.
  unfold resolveCreatedOutput.
  destruct (md_output d) as [output|]; [|intro H; now inversion H].
  destruct (rel_create output); [|intro H; now inversion H].
  unfold bind.
  destruct (ensureChannelItems ctx _ w) as [w1 [ids|e]]; intro H;
    [|discriminate].
  now inversion H.
Qed.

Lemma Match_resolveInput_user ctx operation item d w w' d' :
  Match_resolveInput ctx operation item d w = (w', Ok d') ->
  md_user d' = match md_user d with
               | Some u => Some u
               | None => sessionId ctx
               end.
Proof.
  unfold Match_resolveInput, resolveCreated. unfold bind at 1. unfold bind at 1.
  destruct (resolveCreatedInput ctx d w) as [w1 [d1|e]] eqn:E1;
    [|discriminate].
  destruct (resolveCreatedOutput ctx d1 w1) as [w2 [d2|e]] eqn:E2;
    [|discriminate].
  apply resolveCreatedInput_user in E1.
  apply resolveCreatedOutput_user in E2.
  unfold bind at 1.
  destruct ((if String.eqb operation "create"
             then duplicateCheckOnCreate ctx d2 else ret tt) w2)
    as [w3 [[]|e]]; [|discriminate].
  unfold bind at 1.
  match goal with
  | |- context [?c w3] => destruct (c w3) as [w4 [[]|e]]
  end; [|discriminate].
  rewrite <- E1, <- E2.
  destruct (md_user d2) as [u|] eqn:Eu; destruct (sessionId ctx) as [s|];
    intro H; inversion H; subst; simpl; try rewrite Eu; reflexivity.
Qed.

(** X24.  A signed-in caller whose update of a Match goes through without
    naming a user becomes the owner of that Match: the hook fills in the
    session's user on every operation, not only on creation.  The row
    that is returned and every stored row with that id carry the caller
    as user afterwards, whoever owned the Match before. *)
Theorem update_without_user_hands_match_to_caller
    (ctx : Context) (sesh : Session) (id : Id) (data : MatchData)
    (w w' : World) (updated : Match) :
  ctx_session ctx = Some sesh ->
  md_user data = None ->
  Match_updateOne ctx id data w = (w', Ok updated) ->
  m_user updated = Some (itemId sesh)
  /\ (forall m, In m (matches w') -> m_id m = id ->
                m_user m = Some (itemId sesh)).
Proof.
  intros Hs Hu. unfold Match_updateOne. unfold bind at 1.
  unfold get_world at 1.
  destruct (find _ (matches w)) as [item|]; [|discriminate].
  destruct (matchConnects ctx data w); [|discriminate].
  unfold bind at 1.
  destruct (Match_resolveInput ctx "update" (Some item) data w)
    as [w1 [d|e]] eqn:E; [|discriminate].
  apply Match_resolveInput_user in E. rewrite Hu in E.
  unfold sessionId in E. rewrite Hs in E.
  unfold bind, modify, ret. intro H. inversion H; subst; clear H.
  split.
  - unfold applyMatchData. simpl. rewrite E. reflexivity.
  - intros m Hin Hid. simpl in Hin. apply in_map_iff in Hin.
    destruct Hin as [m0 [Hm0 _]].
    subst m. destruct (Nat.eqb (m_id m0) id) eqn:Eid.
    + unfold applyMatchData. simpl. rewrite E. reflexivity.
    + rewrite Hid, Nat.eqb_refl in Eid. discriminate.
Qed.

Lemma update_without_user_hands_match_to_caller_witness :
  m_user (mkMatch 50 (Some 3) [40] [60; 61]) = Some 3
  /\ (forall m,
        In m (matches (fst (Match_updateOne bob 50 (outputOnly [61])
                              twoSinglesWorld))) ->
        m_id m = 50 -> m_user m = Some 3).
Proof.
  exact (update_without_user_hands_match_to_caller bob bobSession 50
           (outputOnly [61]) twoSinglesWorld
           (fst (Match_updateOne bob 50 (outputOnly [61]) twoSinglesWorld))
           (mkMatch 50 (Some 3) [40] [60; 61])
           eq_refl eq_refl eq_refl).
Defined.
